(** * Doc2Vec sentiment classification notebook: a shallow embedding

    The notebook [doc2vec_sentiment_classifier.ipynb] defines a text-cleaning
    function ([tokenize_text]), a streaming corpus ([TxtCorpus]), two glue
    functions ([load_from_model], [infer_from_model]), an evaluation function
    ([train_lr_evaluate]) and a top-level pipeline spread over its cells.

    Python values are modelled as follows.
    - [str] is a list of Unicode code points ([pystr]); [bytes] is a list of
      [Byte.byte].
    - A [dict] that is only looked up is a [gmap]; [models_by_name], whose
      iteration order is observable, is an insertion-ordered association list.
    - Everything that lives in a third-party library (tensorflow_datasets,
      gensim, scikit-learn, numpy, time, multiprocessing) is a field of the
      record [Library]: an abstract state [Lib] and one state transformer per
      call, each of which may raise.
    - Notebook code with effects runs in the monad [M]: a state monad over
      [World] whose results are either a value or a raised exception. *)

From Stdlib Require Import NArith ZArith Lia Ascii String Decimal DecimalNat.
From Stdlib.Strings Require Import Byte.
From stdpp Require Import base option list gmap.

Local Open Scope N_scope.

(** ** Python strings *)

Module PyStr.

(** A Python [str]: a sequence of code points. *)
Abbreviation pystr := (list N).

(** A literal written in ASCII. *)
Definition py (s : string) : pystr :=
  N_of_ascii <$> list_ascii_of_string s.

Definition LT : N := 60.   (* '<' *)
Definition GT : N := 62.   (* '>' *)
Definition NL : N := 10.   (* '\n' *)
Definition SP : N := 32.   (* ' ' *)
Definition DASH : N := 45. (* '-' *)

(** [str.isspace] on one code point; the same set is what [str.strip()] and
    [str.split()] without argument treat as a separator. *)
Definition isspace (c : N) : bool :=
  ((9 <=? c) && (c <=? 13)) || ((28 <=? c) && (c <=? 32))
  || (c =? 133) || (c =? 160) || (c =? 5760)
  || ((8192 <=? c) && (c <=? 8202))
  || (c =? 8232) || (c =? 8233) || (c =? 8239) || (c =? 8287)
  || (c =? 12288).

(** [s.lstrip()] and [s.strip()]. *)
Fixpoint lstrip (s : pystr) : pystr :=
  match s with
  | [] => []
  | c :: r => if isspace c then lstrip r else s
  end.

Definition strip (s : pystr) : pystr :=
  reverse (lstrip (reverse (lstrip s))).

(** [s.split()]: maximal runs of non-whitespace, in order.  [tok] is the
    run being read. *)
Definition flush (tok : pystr) : list pystr :=
  match tok with [] => [] | _ => [tok] end.

Fixpoint split_from (tok : pystr) (s : pystr) : list pystr :=
  match s with
  | [] => flush tok
  | c :: r =>
      if isspace c then flush tok ++ split_from [] r
      else split_from (tok ++ [c]) r
  end.

Definition split (s : pystr) : list pystr := split_from [] s.

(** [str(i)] for a non-negative [int]: decimal digits, most significant
    first, no leading zero, ["0"] for zero. *)
Fixpoint digits (d : Decimal.uint) : pystr :=
  match d with
  | Nil => []
  | D0 r => 48 :: digits r
  | D1 r => 49 :: digits r
  | D2 r => 50 :: digits r
  | D3 r => 51 :: digits r
  | D4 r => 52 :: digits r
  | D5 r => 53 :: digits r
  | D6 r => 54 :: digits r
  | D7 r => 55 :: digits r
  | D8 r => 56 :: digits r
  | D9 r => 57 :: digits r
  end.

Definition str_of_nat (i : nat) : pystr := digits (Nat.to_uint i).

(** [s.startswith(p)]. *)
Fixpoint startswith (s p : pystr) : bool :=
  match p, s with
  | [], _ => true
  | _ :: _, [] => false
  | a :: p', b :: s' => (a =? b) && startswith s' p'
  end.

End PyStr.
Export PyStr.

(** ** [re.sub] for the two patterns of the notebook *)

Module Regex.

(** Does [.*?>] match at the head of [s]?  [.] is any code point but
    ['\n'], so the first ['>'] has to come before any newline. *)
Fixpoint closes (s : pystr) : bool :=
  match s with
  | [] => false
  | c :: r => if c =? GT then true else if c =? NL then false else closes r
  end.

(** [re.sub('<.*?>', '\n', s)].  Scanning left to right: at a ['<'] from
    which the pattern matches, the replacement is emitted and the matched
    text, up to and including the first ['>'], is dropped ([inside]);
    every other code point is copied. *)
Fixpoint sub_tags (inside : bool) (s : pystr) : pystr :=
  match s with
  | [] => []
  | c :: r =>
      if inside then
        (if c =? GT then sub_tags false r else sub_tags true r)
      else if (c =? LT) && closes r then NL :: sub_tags true r
      else c :: sub_tags false r
  end.

(** [re.sub(" +", " ", s)]: every maximal run of U+0020 becomes one. *)
Fixpoint sub_spaces (after_space : bool) (s : pystr) : pystr :=
  match s with
  | [] => []
  | c :: r =>
      if c =? SP then
        (if after_space then sub_spaces true r else SP :: sub_spaces true r)
      else c :: sub_spaces false r
  end.

End Regex.

(** ** [tokenize_text] *)

(** [gensim.utils.to_unicode] returns a [str] argument unchanged. *)
Definition to_unicode (s : pystr) : pystr := s.

Definition tokenize_text (text : pystr) : list pystr :=
  let temp := Regex.sub_tags false text in
  let temp := Regex.sub_spaces false temp in
  let clean := strip temp in
  split (to_unicode clean).


(** ** Exceptions and results *)

Inductive exn :=
| KeyError (key : pystr)
| UnicodeDecodeError
| LibraryError (code : N).

Inductive result (A : Type) :=
| Ok (a : A)
| Raise (e : exn).
Arguments Ok {A} a.
Arguments Raise {A} e.

Definition result_map {A B} (f : A -> B) (r : result A) : result B :=
  match r with Ok a => Ok (f a) | Raise e => Raise e end.

(** [d[k]] on a [dict]. *)
Definition getitem {V} (d : gmap pystr V) (k : pystr) : result V :=
  match d !! k with
  | Some v => Ok v
  | None => Raise (KeyError k)
  end.

(** ** [bytes.decode()]: strict UTF-8 *)

Module Utf8.

Definition cont (b : N) : bool := (128 <=? b) && (b <=? 191).

(** Range of the second byte, which depends on the first (no overlong
    forms, no surrogates, nothing above U+10FFFF). *)
Definition second_ok (b0 b1 : N) : bool :=
  if b0 =? 224 then (160 <=? b1) && (b1 <=? 191)
  else if b0 =? 237 then (128 <=? b1) && (b1 <=? 159)
  else if b0 =? 240 then (144 <=? b1) && (b1 <=? 191)
  else if b0 =? 244 then (128 <=? b1) && (b1 <=? 143)
  else cont b1.

Definition push (c : N) (r : result pystr) : result pystr :=
  result_map (cons c) r.

Fixpoint decode_N (bs : list N) : result pystr :=
  match bs with
  | [] => Ok []
  | b0 :: r0 =>
      if b0 <? 128 then push b0 (decode_N r0)
      else if (194 <=? b0) && (b0 <=? 223) then
        match r0 with
        | b1 :: r1 =>
            if cont b1
            then push ((b0 - 192) * 64 + (b1 - 128)) (decode_N r1)
            else Raise UnicodeDecodeError
        | _ => Raise UnicodeDecodeError
        end
      else if (224 <=? b0) && (b0 <=? 239) then
        match r0 with
        | b1 :: b2 :: r2 =>
            if second_ok b0 b1 && cont b2
            then push ((b0 - 224) * 4096 + (b1 - 128) * 64 + (b2 - 128))
                      (decode_N r2)
            else Raise UnicodeDecodeError
        | _ => Raise UnicodeDecodeError
        end
      else if (240 <=? b0) && (b0 <=? 244) then
        match r0 with
        | b1 :: b2 :: b3 :: r3 =>
            if second_ok b0 b1 && cont b2 && cont b3
            then push ((b0 - 240) * 262144 + (b1 - 128) * 4096
                       + (b2 - 128) * 64 + (b3 - 128))
                      (decode_N r3)
            else Raise UnicodeDecodeError
        | _ => Raise UnicodeDecodeError
        end
      else Raise UnicodeDecodeError
  end.

Definition decode (bs : list byte) : result pystr :=
  decode_N (Byte.to_N <$> bs).

(** The bytes of an ASCII literal. *)
Definition ascii_bytes (s : string) : list byte :=
  byte_of_ascii <$> list_ascii_of_string s.

End Utf8.

(** ** The data model *)

(** One element of a [tensorflow_datasets] split loaded with
    [as_supervised=False]: [line['text'].numpy()] is a [bytes],
    [line['label'].numpy()] an [int64]. *)
Record example := { text : list byte; label : Z }.

Abbreviation dataset := (gmap pystr (list example)).

(** [gensim.models.doc2vec.TaggedDocument(words, tags)]. *)
Record TaggedDocument := { words : list pystr; tags : list pystr }.

(** A [TxtCorpus] object: the storage inherited from [list], and the two
    attributes set by [__init__]. *)
Record TxtCorpus := {
  items : list TaggedDocument;
  tf_dataset : dataset;
  parts : list pystr
}.

(** [parts=['train', 'test', 'unsupervised']] *)
Definition default_parts : list pystr :=
  [py "train"; py "test"; py "unsupervised"].

(** [TxtCorpus(tf_dataset, parts)]: [list.__new__] gives the empty list and
    [__init__] does not call [list.__init__]. *)
Definition TxtCorpus_init (tf_dataset : dataset) (parts : list pystr) : TxtCorpus :=
  {| items := []; tf_dataset := tf_dataset; parts := parts |}.

(** [len(c)] and [bool(c)], both inherited from [list]. *)
Definition len (c : TxtCorpus) : nat := length (items c).
Definition truthy (c : TxtCorpus) : bool := negb (Nat.eqb (len c) 0).

(** [f"{part}-{i}"] *)
Definition tag_of (part : pystr) (i : nat) : pystr :=
  part ++ [DASH] ++ str_of_nat i.

(** Python literals that appear as keyword arguments. *)
Inductive pyval :=
| VInt (z : Z)
| VStr (s : pystr)
| VDecimal (mantissa : Z) (exp10 : Z).   (* the float literal m * 10^e *)

Abbreviation kwargs := (list (pystr * pyval)).

Fixpoint kwarg (name : pystr) (kw : kwargs) : option pyval :=
  match kw with
  | [] => None
  | (k, v) :: r => if decide (k = name) then Some v else kwarg name r
  end.

(** Insertion-ordered [dict] ([models_by_name]): assigning to an existing key
    keeps its position. *)
Fixpoint odict_set {V} (d : list (pystr * V)) (k : pystr) (v : V) : list (pystr * V) :=
  match d with
  | [] => [(k, v)]
  | (k', v') :: r =>
      if decide (k' = k) then (k, v) :: r else (k', v') :: odict_set r k v
  end.

Fixpoint odict_get {V} (d : list (pystr * V)) (k : pystr) : result V :=
  match d with
  | [] => Raise (KeyError k)
  | (k', v') :: r => if decide (k' = k) then Ok v' else odict_get r k
  end.

(** [np.asarray] of a list: same entries, same order. *)
Definition asarray {A} (l : list A) : list A := l.

(** ** The libraries the notebook calls *)

(** Nothing below is defined by the notebook.  [Lib] is the state of the
    world outside it (trained weights, random generators, clock); every call
    may change it and may raise.  [docvecs_getitem], [corpus_count],
    [epochs] and [str_model] only read. *)
Class Library := {
  Lib : Type;
  Model : Type;       (* a Doc2Vec or a ConcatenatedDoc2Vec object *)
  Estimator : Type;   (* a LogisticRegression object *)
  Search : Type;      (* a GridSearchCV object *)
  Vec : Type;         (* a numpy vector *)
  Float : Type;       (* a Python float *)
  tfds_load : pystr -> bool -> Lib -> result dataset * Lib;
  cpu_count : Lib -> result nat * Lib;
  time : Lib -> result Float * Lib;
  float_sub : Float -> Float -> Float;
  str_float : Float -> pystr;
  Doc2Vec : kwargs -> Lib -> result Model * Lib;
  ConcatenatedDoc2Vec : list Model -> Lib -> result Model * Lib;
  str_model : Model -> pystr;
  build_vocab : Model -> list TaggedDocument -> Lib -> result unit * Lib;
  corpus_count : Lib -> Model -> result nat;
  epochs : Lib -> Model -> result nat;
  train : Model -> list (list TaggedDocument) -> nat -> nat -> Lib -> result unit * Lib;
  docvecs_getitem : Lib -> Model -> pystr -> result Vec;
  infer_vector : Model -> list pystr -> Lib -> result Vec * Lib;
  LogisticRegression : Lib -> result Estimator * Lib;
  GridSearchCV : Estimator -> list (pystr * list pyval) -> kwargs -> Lib -> result Search * Lib;
  fit : Search -> list Vec -> list Z -> Lib -> result unit * Lib;
  best_estimator_score : Search -> list Vec -> list Z -> Lib -> result Float * Lib;
  pprint : gmap pystr Float -> Lib -> result unit * Lib
}.

(** What the notebook does to the outside: the calls it makes, with their
    arguments and what came back, and what it writes to stdout. *)
Section Events.
Context {L : Library}.

Inductive call :=
| CLoad (name : pystr) (as_supervised : bool)
| CCpuCount
| CTime
| CDoc2Vec (kw : kwargs)
| CConcatenatedDoc2Vec (models : list Model)
| CBuildVocab (m : Model) (documents : list TaggedDocument)
| CTrain (m : Model) (passes : list (list TaggedDocument)) (total_examples epochs : nat)
| CInferVector (m : Model) (doc_words : list pystr)
| CLogisticRegression
| CGridSearchCV (lr : Estimator) (param_grid : list (pystr * list pyval)) (kw : kwargs)
| CFit (clf : Search) (X : list Vec) (Y : list Z)
| CScore (clf : Search) (X : list Vec) (Y : list Z)
| CPPrint (table : gmap pystr Float).

Inductive value :=
| RNone
| RInt (n : nat)
| RFloat (f : Float)
| RDataset (d : dataset)
| RModel (m : Model)
| REstimator (e : Estimator)
| RSearch (s : Search)
| RVec (v : Vec).

Inductive event :=
| EvWrite (s : pystr)
| EvCall (c : call) (r : result value).

(** ** The monad of notebook code *)

Record World := {
  lib : Lib;
  trace : list event;
  accuracies : gmap pystr Float
}.

Definition M (A : Type) : Type := World -> result A * World.

Definition ret {A} (a : A) : M A := fun w => (Ok a, w).

Definition bind {A B} (m : M A) (k : A -> M B) : M B :=
  fun w =>
    match m w with
    | (Ok a, w') => k a w'
    | (Raise e, w') => (Raise e, w')
    end.

(** A builtin operation that returns or raises without touching the world. *)
Definition lift {A} (r : result A) : M A := fun w => (r, w).

(** A read of library state. *)
Definition read {A} (f : Lib -> result A) : M A := fun w => (f (lib w), w).

(** A library call: run it on the library state and record it. *)
Definition invoke {A} (c : call) (inj : A -> value) (f : Lib -> result A * Lib) : M A :=
  fun w =>
    let '(r, l) := f (lib w) in
    (r, {| lib := l;
           trace := trace w ++ [EvCall c (result_map inj r)];
           accuracies := accuracies w |}).

(** [sys.stdout.write(s)] *)
Definition write (s : pystr) : M unit :=
  fun w => (Ok tt, {| lib := lib w; trace := trace w ++ [EvWrite s];
                      accuracies := accuracies w |}).

(** [print(s)] and [print(s, end='')] *)
Definition print (s : pystr) : M unit := write (s ++ [NL]).
Definition print_noend (s : pystr) : M unit := write s.

(** [accuracies = {}], [accuracies[k] = v], [accuracies[k]] *)
Definition accuracies_reset : M unit :=
  fun w => (Ok tt, {| lib := lib w; trace := trace w; accuracies := ∅ |}).
Definition accuracies_set (k : pystr) (v : Float) : M unit :=
  fun w => (Ok tt, {| lib := lib w; trace := trace w;
                      accuracies := <[k := v]> (accuracies w) |}).
Definition accuracies_get (k : pystr) : M Float :=
  fun w => (getitem (accuracies w) k, w).

End Events.

#[global] Instance M_ret {L : Library} : MRet M := @ret L.
#[global] Instance M_bind {L : Library} : MBind M :=
  fun A B k m => @bind L A B m k.

(** ** The notebook *)

Section Notebook.
Context {L : Library}.

(** *** Cell 3: [TxtCorpus.__iter__]

    One complete pass over the generator, collecting what it yields.  The
    inner loop is [for i, line in enumerate(self.tf_dataset[part])]. *)
Fixpoint iter_lines (part : pystr) (i : nat) (lines : list example)
  : M (list TaggedDocument) :=
  match lines with
  | [] => ret []
  | line :: rest =>
      text_ ← lift (Utf8.decode (text line));
      let tokens := tokenize_text text_ in
      (if N.of_nat i mod 10000 <? 1
       then print (py "DOCUMENT WITH ID(TAG): " ++ tag_of part i)
       else ret tt);;
      docs ← iter_lines part (S i) rest;
      ret ({| words := tokens; tags := [tag_of part i] |} :: docs)
  end.

Fixpoint iter_parts (tf_dataset : dataset) (parts : list pystr)
  : M (list TaggedDocument) :=
  match parts with
  | [] => ret []
  | part :: rest =>
      lines ← lift (getitem tf_dataset part);
      docs ← iter_lines part 0 lines;
      more ← iter_parts tf_dataset rest;
      ret (docs ++ more)
  end.

Definition TxtCorpus_iter (self : TxtCorpus) : M (list TaggedDocument) :=
  iter_parts (tf_dataset self) (parts self).

(** *** Cell 5: the glue functions *)

Fixpoint load_loop (d2v_model : Model) (part : pystr) (i : nat)
    (lines : list example) (X : list Vec) (Y : list Z)
  : M (list Vec * list Z) :=
  match lines with
  | [] => ret (X, Y)
  | line :: rest =>
      v ← read (fun l => docvecs_getitem l d2v_model (tag_of part i));
      load_loop d2v_model part (S i) rest (X ++ [v]) (Y ++ [label line])
  end.

Definition load_from_model (d2v_model : Model) (tf_dataset : dataset)
    (part : pystr) : M (list Vec * list Z) :=
  lines ← lift (getitem tf_dataset part);
  '(X, Y) ← load_loop d2v_model part 0 lines [] [];
  ret (asarray X, asarray Y).

Fixpoint infer_loop (d2v_model : Model) (lines : list example)
    (X : list Vec) (Y : list Z) : M (list Vec * list Z) :=
  match lines with
  | [] => ret (X, Y)
  | line :: rest =>
      text_ ← lift (Utf8.decode (text line));
      let doc_words := tokenize_text text_ in
      v ← invoke (CInferVector d2v_model doc_words) RVec
                 (infer_vector d2v_model doc_words);
      infer_loop d2v_model rest (X ++ [v]) (Y ++ [label line])
  end.

Definition infer_from_model (d2v_model : Model) (tf_dataset : dataset)
    (part : pystr) : M (list Vec * list Z) :=
  lines ← lift (getitem tf_dataset part);
  '(X, Y) ← infer_loop d2v_model lines [] [];
  ret (asarray X, asarray Y).

(** *** Cell 7: [train_lr_evaluate] *)

Definition penalty : list pyval := [VStr (py "l1"); VStr (py "l2")].
Definition C : list pyval :=
  [VDecimal 1 (-4); VDecimal 1 (-3); VDecimal 1 (-1); VInt 1; VInt 10; VInt 100].
Definition hyperparameters : list (pystr * list pyval) :=
  [(py "C", C); (py "penalty", penalty); (py "solver", [VStr (py "liblinear")])].

Definition time_ : M Float := invoke CTime RFloat (time).

Definition train_lr_evaluate (model : Model) (data : dataset) : M Float :=
  print (py "Evaluating " ++ str_model model);;
  '(X_train, Y_train) ← load_from_model model data (py "train");
  print (py "Training data embeddings loaded.");;
  '(X_test, Y_test) ← infer_from_model model data (py "test");
  print (py "Test data embeddings inferred.");;
  lr ← invoke CLogisticRegression REstimator (LogisticRegression);
  let kw := [(py "cv", VInt 5); (py "verbose", VInt 2); (py "n_jobs", VInt 4)] in
  clf ← invoke (CGridSearchCV lr hyperparameters kw) RSearch
               (GridSearchCV lr hyperparameters kw);
  print_noend (py "Training and testing logistic regression... ");;
  start ← time_;
  invoke (CFit clf X_train Y_train) (fun _ => RNone) (fit clf X_train Y_train);;
  now ← time_;
  print (py "finished in " ++ str_float (float_sub now start) ++ py " seconds");;
  invoke (CScore clf X_test Y_test) RFloat (best_estimator_score clf X_test Y_test).

(** *** Cell 9: the embedding models and their vocabularies *)

Definition common_params (workers : nat) : kwargs :=
  [(py "vector_size", VInt 100); (py "epochs", VInt 20); (py "min_count", VInt 2);
   (py "sample", VInt 0); (py "workers", VInt (Z.of_nat workers));
   (py "negative", VInt 5); (py "hs", VInt 0)].

(** [model.build_vocab(td_reviews)]: gensim makes one pass over the corpus. *)
Definition model_build_vocab (model : Model) (corpus : TxtCorpus) : M unit :=
  docs ← TxtCorpus_iter corpus;
  invoke (CBuildVocab model docs) (fun _ => RNone) (build_vocab model docs).

(** [n] passes over the corpus, one after the other. *)
Fixpoint passes_over (corpus : TxtCorpus) (n : nat) : M (list (list TaggedDocument)) :=
  match n with
  | O => ret []
  | S k =>
      docs ← TxtCorpus_iter corpus;
      more ← passes_over corpus k;
      ret (docs :: more)
  end.

(** [model.train(td_reviews, total_examples=model.corpus_count,
    epochs=model.epochs)]: gensim makes [epochs] passes over the corpus. *)
Definition model_train (model : Model) (corpus : TxtCorpus) : M unit :=
  total_examples ← read (fun l => corpus_count l model);
  epochs_ ← read (fun l => epochs l model);
  passes ← passes_over corpus epochs_;
  invoke (CTrain model passes total_examples epochs_) (fun _ => RNone)
         (train model passes total_examples epochs_).

Fixpoint vocab_loop (models : list Model) (td_reviews : TxtCorpus)
    (models_by_name : list (pystr * Model)) : M (list (pystr * Model)) :=
  match models with
  | [] => ret models_by_name
  | model :: rest =>
      model_build_vocab model td_reviews;;
      print (str_model model ++ py " vocabulary created");;
      vocab_loop rest td_reviews
                 (odict_set models_by_name (str_model model) model)
  end.

Definition new_Doc2Vec (kw : kwargs) : M Model :=
  invoke (CDoc2Vec kw) RModel (Doc2Vec kw).

Definition new_ConcatenatedDoc2Vec (models : list Model) : M Model :=
  invoke (CConcatenatedDoc2Vec models) RModel (ConcatenatedDoc2Vec models).

Definition cell9 (data : dataset) : M (TxtCorpus * list (pystr * Model)) :=
  let td_reviews := TxtCorpus_init data [py "train"; py "unsupervised"] in
  workers ← invoke CCpuCount RInt (cpu_count);
  let common_params := common_params workers in
  m0 ← new_Doc2Vec ((py "dm", VInt 0) :: common_params);
  m1 ← new_Doc2Vec ([(py "dm", VInt 1); (py "window", VInt 10);
                      (py "alpha", VDecimal 5 (-2));
                      (py "comment", VStr (py "alpha=0.05"))] ++ common_params);
  m2 ← new_Doc2Vec ([(py "dm", VInt 1); (py "dm_concat", VInt 1);
                      (py "window", VInt 5)] ++ common_params);
  let models := [m0; m1; m2] in
  print (py "creating vocabularies...");;
  start ← time_;
  models_by_name ← vocab_loop models td_reviews [];
  now ← time_;
  print (py "vocabularies created in " ++ str_float (float_sub now start)
         ++ py " seconds");;
  dbow_dmm ← new_ConcatenatedDoc2Vec [m0; m1];
  let models_by_name := odict_set models_by_name (py "dbow+dmm") dbow_dmm in
  dbow_dmc ← new_ConcatenatedDoc2Vec [m0; m2];
  let models_by_name := odict_set models_by_name (py "dbow+dmc") dbow_dmc in
  ret (td_reviews, models_by_name).

(** *** Cell 10: training and evaluation *)

(** The body of [for model_name, model in models_by_name.items()]. *)
Fixpoint train_loop (its : list (pystr * Model)) (td_reviews : TxtCorpus)
    (data : dataset) : M unit :=
  match its with
  | [] => ret tt
  | (model_name, model) :: rest =>
      (if startswith model_name (py "Doc2Vec") then
         print_noend (py "Training " ++ model_name ++ py "... ");;
         start ← time_;
         model_train model td_reviews;;
         now ← time_;
         print (py "finished in " ++ str_float (float_sub now start)
                ++ py " seconds");;
         score ← train_lr_evaluate model data;
         accuracies_set (str_model model) score;;
         a ← accuracies_get (str_model model);
         print (py "Accuracy: " ++ str_float a ++ py " " ++ [NL])
       else ret tt);;
      train_loop rest td_reviews data
  end.

(** The body of the second [for model in [...]]. *)
Fixpoint concat_loop (models : list Model) (data : dataset) : M unit :=
  match models with
  | [] => ret tt
  | model :: rest =>
      score ← train_lr_evaluate model data;
      accuracies_set (str_model model) score;;
      a ← accuracies_get (str_model model);
      print (py "Accuracy: " ++ str_float a ++ py " " ++ [NL]);;
      concat_loop rest data
  end.

Definition cell10 (data : dataset) (td_reviews : TxtCorpus)
    (models_by_name : list (pystr * Model)) : M unit :=
  accuracies_reset;;
  train_loop models_by_name td_reviews data;;
  dbow_dmm ← lift (odict_get models_by_name (py "dbow+dmm"));
  dbow_dmc ← lift (odict_get models_by_name (py "dbow+dmc"));
  concat_loop [dbow_dmm; dbow_dmc] data.

(** *** Cells 1 and 11, and the whole notebook run top to bottom *)

Definition cell1 : M dataset :=
  invoke (CLoad (py "imdb_reviews") false) RDataset
         (tfds_load (py "imdb_reviews") false).

Definition cell11 : M unit :=
  fun w => invoke (CPPrint (accuracies w)) (fun _ => RNone)
                  (pprint (accuracies w)) w.

Definition notebook : M unit :=
  data ← cell1;
  '(td_reviews, models_by_name) ← cell9 data;
  cell10 data td_reviews models_by_name;;
  cell11.

End Notebook.

(** ** The vocabulary of the properties *)

Section Vocabulary.
Context {L : Library}.

(** A token as [str.split()] produces it. *)
Definition is_token (t : pystr) : Prop :=
  t ≠ [] ∧ Forall (fun c => isspace c = false) t.

(** [emit δ w] is [w] after the events [δ]. *)
Definition emit (δ : list event) (w : World) : World :=
  {| lib := lib w; trace := trace w ++ δ; accuracies := accuracies w |}.

Definition is_write (e : event) : Prop :=
  match e with EvWrite _ => True | EvCall _ _ => False end.

(** A computation that only writes to stdout, and whose result and output
    are the same in every world. *)
Definition uniform {A} (m : M A) : Prop :=
  ∃ r δ, Forall is_write δ ∧ ∀ w, m w = (r, emit δ w).

(** What one part contributes to a pass: one document per line, in
    enumeration order from 0, with the tokens of the line's decoded text and
    the single tag [part-i]. *)
Definition yields_part (ds : dataset) (part : pystr)
    (chunk : list TaggedDocument) : Prop :=
  ∃ lines, ds !! part = Some lines ∧ length chunk = length lines ∧
    ∀ i line, lines !! i = Some line →
      ∃ t, Utf8.decode (text line) = Ok t ∧
           chunk !! i = Some {| words := tokenize_text t; tags := [tag_of part i] |}.

(** Every listed part is a key of the dataset and every text is UTF-8. *)
Definition readable (ds : dataset) (ps : list pystr) : Prop :=
  ∀ p, p ∈ ps → ∃ lines, ds !! p = Some lines ∧
    ∀ line, line ∈ lines → ∃ t, Utf8.decode (text line) = Ok t.

(** The (part, index) pairs of a pass, in the order of the pass. *)
Definition sources (ds : dataset) (ps : list pystr) : list (pystr * nat) :=
  p ← ps; (fun i => (p, i)) <$> seq 0 (length (default [] (ds !! p))).

(** Successive [infer_vector] calls on one model: the token lists passed in,
    the vectors that came back, and the library state before and after. *)
Inductive infer_chain (m : Model) : Lib → list (list pystr) → list Vec → Lib → Prop :=
| infer_chain_nil l : infer_chain m l [] [] l
| infer_chain_cons l t v l1 ts vs l2 :
    infer_vector m t l = (Ok v, l1) →
    infer_chain m l1 ts vs l2 →
    infer_chain m l (t :: ts) (v :: vs) l2.

(** The steps of the pipeline, read off the recorded calls. *)
Inductive phase :=
| PLoad
| PNew (kw : kwargs) (m : Model)
| PVocab (m : Model)
| PConcat (ms : list Model) (c : Model)
| PTrain (m : Model)
| PFit
| PScore (s : Float)
| PPrint.

Definition phase_of (e : event) : option phase :=
  match e with
  | EvCall (CLoad _ _) _ => Some PLoad
  | EvCall (CDoc2Vec kw) (Ok (RModel m)) => Some (PNew kw m)
  | EvCall (CBuildVocab m _) _ => Some (PVocab m)
  | EvCall (CConcatenatedDoc2Vec ms) (Ok (RModel c)) => Some (PConcat ms c)
  | EvCall (CTrain m _ _ _) _ => Some (PTrain m)
  | EvCall (CFit _ _ _) _ => Some PFit
  | EvCall (CScore _ _ _) (Ok (RFloat s)) => Some (PScore s)
  | EvCall (CPPrint _) _ => Some PPrint
  | _ => None
  end.

Definition phases (δ : list event) : list phase := omap phase_of δ.

(** From [w] the run reaches [w'] through the steps [ps], and the accuracy
    table is then [tbl]. *)
Definition reaches (ps : list phase) (tbl : gmap pystr Float) (w w' : World) : Prop :=
  (∃ δ, trace w' = trace w ++ δ ∧ phases δ = ps) ∧ accuracies w' = tbl.

Definition step (ps : list phase) (w w' : World) : Prop :=
  reaches ps (accuracies w) w w'.

(** [cv=5, verbose=2, n_jobs=4] *)
Definition evaluation_kwargs : kwargs :=
  [(py "cv", VInt 5); (py "verbose", VInt 2); (py "n_jobs", VInt 4)].

(** What a completed evaluation did, from world [w] to world [w']: the
    training vectors were read from the model and the test vectors inferred;
    a grid search over [hyperparameters] of a fresh logistic regression was
    fitted on the training arrays; and [s] is the score of its best
    estimator on the test arrays.  Only the library state moved. *)
Definition evaluated (model : Model) (data : dataset) (w : World) (s : Float)
    (w' : World) : Prop :=
  ∃ X_train Y_train X_test Y_test w1 w2 w3 lr l3 clf l4 t0 l5 l6 t1 l7,
    lib w1 = lib w
    ∧ load_from_model model data (py "train") w1 = (Ok (X_train, Y_train), w1)
    ∧ lib w2 = lib w
    ∧ infer_from_model model data (py "test") w2 = (Ok (X_test, Y_test), w3)
    ∧ LogisticRegression (lib w3) = (Ok lr, l3)
    ∧ GridSearchCV lr hyperparameters evaluation_kwargs l3 = (Ok clf, l4)
    ∧ time l4 = (Ok t0, l5)
    ∧ fit clf X_train Y_train l5 = (Ok tt, l6)
    ∧ time l6 = (Ok t1, l7)
    ∧ best_estimator_score clf X_test Y_test l7 = (Ok s, lib w').

(** The accuracy table is the same before and after. *)
Definition same_table (w w' : World) : Prop := accuracies w' = accuracies w.

(** Between [w] and [w'] only events satisfying [P] were recorded. *)
Definition extends (P : event → Prop) (w w' : World) : Prop :=
  ∃ δ, trace w' = trace w ++ δ ∧ Forall P δ.

(** [m] relates every world it starts in to the world it ends in, whatever
    the outcome. *)
Definition stable (R : World → World → Prop) {A} (m : M A) : Prop :=
  ∀ w, R w (m w).2.

(** The events of cell 10: stdout, the clock, training, inference, and the
    classifier calls, the grid search always with the same arguments. *)
Definition late_event (e : event) : Prop :=
  match e with
  | EvWrite _ => True
  | EvCall c _ =>
      match c with
      | CTime | CTrain _ _ _ _ | CInferVector _ _ | CLogisticRegression
      | CFit _ _ _ | CScore _ _ _ => True
      | CGridSearchCV _ grid kw => grid = hyperparameters ∧ kw = evaluation_kwargs
      | _ => False
      end
  end.

(** The keyword arguments of the three models, for [workers] workers. *)
Definition dbow_kwargs (workers : nat) : kwargs :=
  (py "dm", VInt 0) :: common_params workers.
Definition dmm_kwargs (workers : nat) : kwargs :=
  [(py "dm", VInt 1); (py "window", VInt 10); (py "alpha", VDecimal 5 (-2));
   (py "comment", VStr (py "alpha=0.05"))] ++ common_params workers.
Definition dmc_kwargs (workers : nat) : kwargs :=
  [(py "dm", VInt 1); (py "dm_concat", VInt 1); (py "window", VInt 5)]
  ++ common_params workers.

(** The events of cell 9 after [cpu_count()] returned [workers]. *)
Definition setup_event (workers : nat) (e : event) : Prop :=
  match e with
  | EvWrite _ => True
  | EvCall c _ =>
      match c with
      | CTime | CBuildVocab _ _ | CConcatenatedDoc2Vec _ => True
      | CDoc2Vec kw =>
          kw = dbow_kwargs workers ∨ kw = dmm_kwargs workers
          ∨ kw = dmc_kwargs workers
      | _ => False
      end
  end.

(** The worker counts a recorded call may carry: [on] is the result of
    [cpu_count()] once it is known. *)
Definition par (on : option nat) (e : event) : Prop :=
  match e with
  | EvCall (CDoc2Vec kw) _ =>
      match on with
      | Some n => kwarg (py "workers") kw = Some (VInt (Z.of_nat n))
      | None => False
      end
  | EvCall (CGridSearchCV _ _ kw) _ => kwarg (py "n_jobs") kw = Some (VInt 4)
  | _ => True
  end.

(** Every grid search is given [n_jobs=4], and every Doc2Vec is given as
    [workers] what an earlier [cpu_count()] returned. *)
Definition workers_passed (δ : list event) : Prop :=
  (∀ lr grid kw r, EvCall (CGridSearchCV lr grid kw) r ∈ δ →
     kwarg (py "n_jobs") kw = Some (VInt 4))
  ∧ (∀ kw r, EvCall (CDoc2Vec kw) r ∈ δ →
       ∃ n, EvCall CCpuCount (Ok (RInt n)) ∈ δ
            ∧ kwarg (py "workers") kw = Some (VInt (Z.of_nat n))).

(** Either [cpu_count()] has not returned yet and no worker count was
    needed, or it came first and everything after respects it. *)
Definition counted (δ : list event) : Prop :=
  Forall (par None) δ
  ∨ ∃ n δ1, δ = EvCall CCpuCount (Ok (RInt n)) :: δ1 ∧ Forall (par (Some n)) δ1.

(** A recorded event that did not raise. *)
Definition returned (e : event) : Prop :=
  match e with
  | EvWrite _ | EvCall _ (Ok _) => True
  | EvCall _ (Raise _) => False
  end.

(** The events [δ] of a computation that ended with [r]: no call raised
    before the end, and a call that raised is the last event and raised
    what the computation raises. *)
Definition uncaught {A} (r : result A) (δ : list event) : Prop :=
  match r with
  | Ok _ => Forall returned δ
  | Raise e =>
      Forall returned δ
      ∨ ∃ δ0 c, δ = δ0 ++ [EvCall c (Raise e)] ∧ Forall returned δ0
  end.

Definition propagates {A} (m : M A) : Prop :=
  ∀ w, ∃ δ, trace (m w).2 = trace w ++ δ ∧ uncaught (m w).1 δ.

(** The models a run created, in creation order. *)
Definition created (ps : list phase) : list Model :=
  omap (fun p => match p with
                 | PNew _ m => Some m
                 | PConcat _ c => Some c
                 | _ => None
                 end) ps.

(** The entries of [models_by_name] when the three descriptions differ. *)
Definition models_by_name_of (m0 m1 m2 c1 c2 : Model) : list (pystr * Model) :=
  [(str_model m0, m0); (str_model m1, m1); (str_model m2, m2);
   (py "dbow+dmm", c1); (py "dbow+dmc", c2)].

(** The steps of cells 1 and 9, of cell 10, and of the whole notebook. *)
Definition setup_phases (n : nat) (m0 m1 m2 c1 c2 : Model) : list phase :=
  [PLoad; PNew (dbow_kwargs n) m0; PNew (dmm_kwargs n) m1;
   PNew (dmc_kwargs n) m2; PVocab m0; PVocab m1; PVocab m2;
   PConcat [m0; m1] c1; PConcat [m0; m2] c2].

Definition evaluation_phases (m0 m1 m2 : Model) (s0 s1 s2 s3 s4 : Float)
  : list phase :=
  [PTrain m0; PFit; PScore s0; PTrain m1; PFit; PScore s1;
   PTrain m2; PFit; PScore s2; PFit; PScore s3; PFit; PScore s4].

Definition table_of (m0 m1 m2 c1 c2 : Model) (s0 s1 s2 s3 s4 : Float)
  : gmap pystr Float :=
  <[str_model c2 := s4]> (<[str_model c1 := s3]> (<[str_model m2 := s2]>
    (<[str_model m1 := s1]> (<[str_model m0 := s0]> ∅)))).

(** The stages of the pipeline as the specification numbers them: load,
    stream-tokenize, train the embedding models, concatenate pairs,
    train and evaluate a classifier, print.  Creating a model object is none
    of them. *)
Definition stage (p : phase) : option nat :=
  match p with
  | PLoad => Some 0%nat
  | PVocab _ => Some 1%nat
  | PTrain _ => Some 2%nat
  | PConcat _ _ => Some 3%nat
  | PFit | PScore _ => Some 4%nat
  | PPrint => Some 5%nat
  | PNew _ _ => None
  end.

Definition stages (δ : list event) : list nat := omap stage (phases δ).

Fixpoint nondecreasing (l : list nat) : bool :=
  match l with
  | a :: r =>
      match r with
      | b :: _ => (a <=? b)%nat && nondecreasing r
      | [] => true
      end
  | [] => true
  end.

(** Each stage completes before the next begins. *)
Definition in_claimed_order (δ : list event) : Prop :=
  nondecreasing (stages δ) = true.

End Vocabulary.

(** ** A small library to run the notebook against

    A deterministic stand-in for the libraries, used to evaluate the
    definitions above on concrete inputs.  Objects are numbered in creation
    order; a Doc2Vec remembers the tags it saw in [build_vocab] and raises
    [KeyError] for any other tag; descriptions follow gensim's [__str__];
    [fuse], when set, makes the n-th state-changing call raise. *)

Module Toy.

Record state := {
  next : nat;                       (* next object id, also the clock *)
  seen : list (nat * pystr);        (* (Doc2Vec id, tag) pairs *)
  fuse : option nat
}.

(** A model is the list of its Doc2Vec components. *)
Abbreviation model := (list (nat * kwargs)).

Definition tick {A} (f : state -> result A) (s : state) : result A * state :=
  match fuse s with
  | Some O => (Raise (LibraryError 1), s)
  | Some (S k) =>
      (f s, {| next := S (next s); seen := seen s; fuse := Some k |})
  | None => (f s, {| next := S (next s); seen := seen s; fuse := None |})
  end.

Definition int_kwarg (name : string) (kw : kwargs) : Z :=
  match kwarg (py name) kw with Some (VInt z) => z | _ => 0 end.

Definition str_int (z : Z) : pystr := str_of_nat (Z.to_nat z).

Fixpoint join (sep : pystr) (l : list pystr) : pystr :=
  match l with
  | [] => []
  | [s] => s
  | s :: r => s ++ sep ++ join sep r
  end.

Definition str_doc2vec (kw : kwargs) : pystr :=
  let dm := int_kwarg "dm" kw in
  let segments :=
    match kwarg (py "comment") kw with
    | Some (VStr c) => [[34] ++ c ++ [34]]
    | _ => []
    end
    ++ [if (dm =? 0)%Z then py "dbow"
        else if (int_kwarg "dm_concat" kw =? 0)%Z then py "dm/m" else py "dm/c"]
    ++ [py "d" ++ str_int (int_kwarg "vector_size" kw)]
    ++ (if (int_kwarg "negative" kw =? 0)%Z then []
        else [py "n" ++ str_int (int_kwarg "negative" kw)])
    ++ (if (dm =? 0)%Z then [] else [py "w" ++ str_int (int_kwarg "window" kw)])
    ++ (if (1 <? int_kwarg "min_count" kw)%Z
        then [py "mc" ++ str_int (int_kwarg "min_count" kw)] else [])
    ++ (if (1 <? int_kwarg "workers" kw)%Z
        then [py "t" ++ str_int (int_kwarg "workers" kw)] else [])
  in py "Doc2Vec(" ++ join (py ",") segments ++ py ")".

Definition str_of_model (m : model) : pystr :=
  join (py "+") ((fun c => str_doc2vec (snd c)) <$> m).

Definition knows (s : state) (id : nat) (tag : pystr) : bool :=
  bool_decide ((id, tag) ∈ seen s).

Fixpoint lookup_vec (s : state) (m : model) (tag : pystr) : result (list Z) :=
  match m with
  | [] => Ok []
  | (id, _) :: r =>
      if knows s id tag
      then result_map (fun v => Z.of_nat id :: Z.of_nat (length tag) :: v)
                      (lookup_vec s r tag)
      else Raise (KeyError tag)
  end.

Definition learn (m : model) (docs : list TaggedDocument) (s : state) : state :=
  {| next := next s;
     seen := seen s ++ (c ← m; d ← docs; t ← tags d; [(fst c, t)]);
     fuse := fuse s |}.

Definition imdb : dataset :=
  {[ py "train" :=
       [ {| text := Utf8.ascii_bytes "A <b>great</b>  film.<br /><br />Loved it"; label := 1 |};
         {| text := Utf8.ascii_bytes "Dull, dull, dull"; label := 0 |} ];
     py "test" :=
       [ {| text := Utf8.ascii_bytes " Not   bad <br/>"; label := 1 |} ];
     py "unsupervised" :=
       [ {| text := Utf8.ascii_bytes "no label here"; label := -1 |} ] ]}.

Definition library : Library := {|
  Lib := state;
  Model := model;
  Estimator := nat;
  Search := nat;
  Vec := list Z;
  Float := Z;
  tfds_load := fun _ _ => tick (fun _ => Ok imdb);
  cpu_count := tick (fun _ => Ok 8%nat);
  time := tick (fun s => Ok (Z.of_nat (next s)));
  float_sub := Z.sub;
  str_float := str_int;
  Doc2Vec := fun kw => tick (fun s => Ok [(next s, kw)]);
  ConcatenatedDoc2Vec := fun ms => tick (fun _ => Ok (concat ms));
  str_model := str_of_model;
  build_vocab := fun m docs s =>
    let '(r, s') := tick (fun _ => Ok tt) s in
    (r, match r with Ok _ => learn m docs s' | Raise _ => s' end);
  corpus_count := fun s m =>
    Ok (length (filter (fun p => Some (fst p) = fst <$> head m) (seen s)));
  epochs := fun _ m =>
    Ok (match m with (_, kw) :: _ => Z.to_nat (int_kwarg "epochs" kw) | [] => 0%nat end);
  train := fun _ _ _ _ => tick (fun _ => Ok tt);
  docvecs_getitem := lookup_vec;
  infer_vector := fun m ws =>
    tick (fun s => Ok (Z.of_nat (length m) :: Z.of_nat (length ws) :: [Z.of_nat (next s)]));
  LogisticRegression := tick (fun s => Ok (next s));
  GridSearchCV := fun _ _ _ => tick (fun s => Ok (next s));
  fit := fun _ _ _ => tick (fun _ => Ok tt);
  best_estimator_score := fun clf X _ =>
    tick (fun _ => Ok (Z.of_nat clf + Z.of_nat (length X))%Z);
  pprint := fun _ => tick (fun _ => Ok tt)
|}.

(** The state in which the first cell starts. *)
Definition boot (fuse : option nat) : @World library :=
  {| lib := ({| next := 0; seen := []; fuse := fuse |} : @Lib library);
     trace := []; accuracies := ∅ |}.

(** The first model the notebook creates, and the world once the
    vocabularies are built (cell 9 run on [imdb]). *)
Definition dbow : model :=
  [(1%nat, (py "dm", VInt 0) :: common_params 8)].

Definition vocab_built : @World library :=
  Eval vm_compute in (@cell9 library imdb (boot None)).2.

(** What one pass over the three parts of [imdb] yields. *)
Definition pass : list TaggedDocument :=
  [ {| words := [py "A"; py "great"; py "film."; py "Loved"; py "it"];
       tags := [py "train-0"] |};
    {| words := [py "Dull,"; py "dull,"; py "dull"]; tags := [py "train-1"] |};
    {| words := [py "Not"; py "bad"]; tags := [py "test-0"] |};
    {| words := [py "no"; py "label"; py "here"];
       tags := [py "unsupervised-0"] |} ].

End Toy.

(** ** The run against the small library *)

Module ToyRun.

(** The five models of the full run, as the small library numbers them. *)
Definition m0 : Toy.model := [(2%nat, dbow_kwargs 8)].
Definition m1 : Toy.model := [(3%nat, dmm_kwargs 8)].
Definition m2 : Toy.model := [(4%nat, dmc_kwargs 8)].
Definition c1 : Toy.model := m0 ++ m1.
Definition c2 : Toy.model := m0 ++ m2.

(** The world at the end of the full run. *)
Definition final : @World Toy.library := (@notebook Toy.library (Toy.boot None)).2.

End ToyRun.

(** ** The vocabulary of the further properties *)

(** A code point that [str.split()] keeps. *)
Definition visible (c : N) : Prop := isspace c = false.

#[global] Instance visible_dec c : Decision (visible c) :=
  decide (isspace c = false).

(** [t] holds a ['<'] with a ['>'] somewhere after it. *)
Definition has_tag (t : pystr) : Prop :=
  ∃ pre mid post, t = pre ++ LT :: mid ++ GT :: post.

(** No ['<'] of [s] is the start of a match of [<.*?>]. *)
Fixpoint notag (s : pystr) : bool :=
  match s with
  | [] => true
  | c :: r => (if c =? LT then negb (Regex.closes r) else true) && notag r
  end.

Section Progress.
Context {L : Library}.

(** The line [__iter__] prints for document [i] of [part]. *)
Definition progress_line (part : pystr) (i : nat) : event :=
  EvWrite ((py "DOCUMENT WITH ID(TAG): " ++ tag_of part i) ++ [NL]).

(** The lines printed while documents [i], ..., [i + n - 1] of a part are
    streamed: one for each index that is a multiple of 10000. *)
Definition progress_from (part : pystr) (i n : nat) : list event :=
  progress_line part <$> filter (fun j => N.of_nat j mod 10000 = 0) (seq i n).

(** The lines printed during one pass over the parts [ps]. *)
Definition progress (ds : dataset) (ps : list pystr) : list event :=
  p ← ps; progress_from p 0 (length (default [] (ds !! p))).

End Progress.

Section EvaluationTrace.
Context {L : Library}.

(** The [infer_vector] calls of an [infer_from_model] that returned: the
    token lists passed in and the vectors that came back. *)
Definition inference_events (m : Model) (toks : list (list pystr))
    (vs : list Vec) : list event :=
  zip_with (fun t v => EvCall (CInferVector m t) (Ok (RVec v))) toks vs.

(** Everything a completed [train_lr_evaluate] writes and calls, in order. *)
Definition evaluation_events (m : Model) (toks : list (list pystr))
    (X_train : list Vec) (Y_train : list Z) (X_test : list Vec) (Y_test : list Z)
    (lr : Estimator) (clf : Search) (t0 t1 s : Float) : list event :=
  [EvWrite ((py "Evaluating " ++ str_model m) ++ [NL]);
   EvWrite (py "Training data embeddings loaded." ++ [NL])]
  ++ inference_events m toks X_test
  ++ [EvWrite (py "Test data embeddings inferred." ++ [NL]);
      EvCall CLogisticRegression (Ok (REstimator lr));
      EvCall (CGridSearchCV lr hyperparameters evaluation_kwargs) (Ok (RSearch clf));
      EvWrite (py "Training and testing logistic regression... ");
      EvCall CTime (Ok (RFloat t0));
      EvCall (CFit clf X_train Y_train) (Ok RNone);
      EvCall CTime (Ok (RFloat t1));
      EvWrite ((py "finished in " ++ str_float (float_sub t1 t0) ++ py " seconds")
               ++ [NL]);
      EvCall (CScore clf X_test Y_test) (Ok (RFloat s))].

End EvaluationTrace.

Section Feeding.
Context {L : Library}.

(** The calls [train_lr_evaluate] makes. *)
Definition evaluation_call (c : call) : Prop :=
  match c with
  | CTime | CInferVector _ _ | CLogisticRegression | CGridSearchCV _ _ _
  | CFit _ _ _ | CScore _ _ _ => True
  | _ => False
  end.

(** A [train] call is on a model that [its] holds under a name starting
    with ["Doc2Vec"]. *)
Definition trains_only (its : list (pystr * Model)) (e : event) : Prop :=
  match e with
  | EvCall (CTrain m _ _ _) _ =>
      ∃ name, (name, m) ∈ its ∧ startswith name (py "Doc2Vec") = true
  | _ => True
  end.

(** [docs] is what a pass over [c] yields, in whatever world it is made. *)
Definition corpus_docs (c : TxtCorpus) (docs : list TaggedDocument) : Prop :=
  ∀ w, (TxtCorpus_iter c w).1 = Ok docs.

(** A [build_vocab] call is given the documents of a pass over [c], and so
    is a [train] call in each of its passes. *)
Definition fed_from (c : TxtCorpus) (e : event) : Prop :=
  match e with
  | EvCall (CBuildVocab _ docs) _ => corpus_docs c docs
  | EvCall (CTrain _ passes _ _) _ => Forall (corpus_docs c) passes
  | _ => True
  end.

End Feeding.

Section TableKeys.
Context {L : Library}.

(** Every key of the accuracy table of [w'] is a key of the table of [w] or
    the description of a model in [ms]. *)
Definition keys_from (ms : list Model) (w w' : World) : Prop :=
  ∀ k, is_Some (accuracies w' !! k) →
       is_Some (accuracies w !! k) ∨ ∃ m, m ∈ ms ∧ k = str_model m.

End TableKeys.

(** [readable], decided. *)
Definition decodable (line : example) : bool :=
  match Utf8.decode (text line) with Ok _ => true | Raise _ => false end.

Definition readable_b (ds : dataset) (ps : list pystr) : bool :=
  forallb (fun p => match ds !! p with
                    | Some lines => forallb decodable lines
                    | None => false
                    end) ps.

(** ** More inputs for the small library *)

Module ToyMore.

Definition good_line : example :=
  {| text := Utf8.ascii_bytes "fine <i>so</i> far"; label := 1 |}.

(** A text that ends in the byte 0xFF, which no UTF-8 sequence contains. *)
Definition bad_line : example :=
  {| text := Utf8.ascii_bytes "bad" ++ [Byte.xff]; label := 0 |}.

Definition unread_line : example :=
  {| text := Utf8.ascii_bytes "never read"; label := 1 |}.

(** A dataset whose second training text is not UTF-8. *)
Definition broken : dataset :=
  {[ py "train" := [good_line; bad_line; unread_line] ]}.

(** A dataset without a test split. *)
Definition train_only : dataset :=
  {[ py "train" := [ {| text := Utf8.ascii_bytes "one"; label := 1 |} ] ]}.

Definition test_line : example :=
  {| text := Utf8.ascii_bytes " Not   bad <br/>"; label := 1 |}.

(** What one pass over the train and unsupervised parts of [Toy.imdb]
    yields. *)
Definition reviews : list TaggedDocument :=
  [ {| words := [py "A"; py "great"; py "film."; py "Loved"; py "it"];
       tags := [py "train-0"] |};
    {| words := [py "Dull,"; py "dull,"; py "dull"]; tags := [py "train-1"] |};
    {| words := [py "no"; py "label"; py "here"];
       tags := [py "unsupervised-0"] |} ].

(** [models_by_name] once cell 9 has run on [Toy.imdb]. *)
Definition models_by_name : list (pystr * Toy.model) :=
  Eval vm_compute in
    match (@cell9 Toy.library Toy.imdb (Toy.boot None)).1 with
    | Ok (_, mbn) => mbn
    | Raise _ => []
    end.

(** The library state after one [infer_vector] call from the start. *)
Definition after_one_call : Toy.state :=
  {| Toy.next := 1; Toy.seen := []; Toy.fuse := None |}.

End ToyMore.

(** * Properties *)

(** ** Tokenisation *)

Section TokenizeFacts.

Lemma flush_tokens tok :
  Forall (fun c => isspace c = false) tok → Forall is_token (flush tok).
Proof.
  intros Htok. destruct tok as [|c r]; simpl; [constructor|].
  repeat constructor; [discriminate | by inversion Htok | by inversion Htok].
Qed.

Lemma split_from_tokens s : ∀ tok,
  Forall (fun c => isspace c = false) tok → Forall is_token (split_from tok s).
Proof.
  induction s as [|c r IH]; intros tok Htok; simpl.
  - by apply flush_tokens.
  - destruct (isspace c) eqn:Hc.
    + apply Forall_app. split; [by apply flush_tokens | apply IH; constructor].
    + apply IH. apply Forall_app. split; [done | by repeat constructor].
Qed.

Lemma split_from_blank s :
  Forall (fun c => isspace c = true) s → split_from [] s = [].
Proof.
  induction 1 as [|c r Hc _ IH]; simpl; [done|]. by rewrite Hc.
Qed.

Lemma lstrip_blank s :
  Forall (fun c => isspace c = true) s → lstrip s = [].
Proof.
  induction 1 as [|c r Hc _ IH]; simpl; [done|]. by rewrite Hc.
Qed.

Lemma sub_tags_blank s : ∀ inside,
  Forall (fun c => isspace c = true) s →
  Forall (fun c => isspace c = true) (Regex.sub_tags inside s).
Proof.
  induction s as [|c r IH]; intros inside Hs; simpl; [constructor|].
  inversion Hs as [|? ? Hc Hr]; subst.
  destruct inside.
  - destruct (c =? GT); by apply IH.
  - destruct ((c =? LT) && Regex.closes r); constructor; auto.
Qed.

Lemma sub_spaces_blank s : ∀ after_space,
  Forall (fun c => isspace c = true) s →
  Forall (fun c => isspace c = true) (Regex.sub_spaces after_space s).
Proof.
  induction s as [|c r IH]; intros after_space Hs; simpl; [constructor|].
  inversion Hs as [|? ? Hc Hr]; subst.
  destruct (c =? SP) eqn:E.
  - destruct after_space; [by apply IH | constructor; [done | by apply IH]].
  - constructor; [done | by apply IH].
Qed.

End TokenizeFacts.

(** C7.  Every token returned by [tokenize_text] is a non-empty string
    without any whitespace code point, and an empty or all-whitespace input
    gives the empty list. *)
Theorem tokenize_text_tokens (text : pystr) :
  Forall (fun t => t ≠ [] ∧ Forall (fun c => isspace c = false) t)
         (tokenize_text text)
  ∧ (Forall (fun c => isspace c = true) text → tokenize_text text = [])
  ∧ [] ∉ tokenize_text text.
Proof.
  assert (Htok : Forall is_token (tokenize_text text)).
  { unfold tokenize_text, to_unicode, split. apply split_from_tokens. constructor. }
  split; [exact Htok | split].
  - intros Hblank. unfold tokenize_text, to_unicode, split, strip.
    rewrite (lstrip_blank (Regex.sub_spaces false (Regex.sub_tags false text))).
    + reflexivity.
    + by apply sub_spaces_blank, sub_tags_blank.
  - intros Hin. rewrite Forall_forall in Htok.
    destruct (Htok _ Hin) as [Hne _]. by apply Hne.
Qed.

(** The theorem at an empty input, at an all-whitespace input, and at a
    review with markup. *)
Lemma tokenize_text_tokens_witness :
  tokenize_text [] = []
  ∧ tokenize_text [SP; 9; NL; 160; 8195; SP] = []
  ∧ tokenize_text (py "Great  movie!<br /><br />Loved <it" ++ [NL] ++ py "> <b>a</b> ")
    = [py "Great"; py "movie!"; py "Loved"; py "<it"; py ">"; py "a"].
Proof.
  split; [|split].
  - apply (tokenize_text_tokens []). constructor.
  - apply (tokenize_text_tokens [SP; 9; NL; 160; 8195; SP]).
    repeat constructor.
  - vm_compute. reflexivity.
Defined.

(** ** Identifiers *)

Section TagFacts.

Lemma digits_no_dash d : DASH ∉ digits d.
Proof.
  induction d; simpl; [apply not_elem_of_nil|..];
    (apply not_elem_of_cons; split; [discriminate | assumption]).
Qed.

Lemma digits_inj d d' : digits d = digits d' → d = d'.
Proof.
  revert d'. induction d; intros d' H; destruct d'; simpl in H;
    try discriminate; try reflexivity;
    injection H as H; f_equal; by apply IHd.
Qed.

Lemma str_of_nat_inj i j : str_of_nat i = str_of_nat j → i = j.
Proof. intros H. by apply Unsigned.to_uint_inj, digits_inj. Qed.

(** Two strings that end in the same separator followed by separator-free
    text split at the same place. *)
Lemma app_sep_inj (a : N) (l1 : list N) : ∀ l2 d1 d2,
  a ∉ d1 → a ∉ d2 → l1 ++ a :: d1 = l2 ++ a :: d2 → l1 = l2 ∧ d1 = d2.
Proof.
  induction l1 as [|x l1 IH]; intros [|y l2] d1 d2 H1 H2 Heq; simpl in Heq.
  - by injection Heq.
  - injection Heq as -> ->. exfalso. apply H1. apply elem_of_app. right. left.
  - injection Heq as -> <-. exfalso. apply H2. apply elem_of_app. right. left.
  - injection Heq as -> Heq. destruct (IH _ _ _ H1 H2 Heq) as [-> ->]. done.
Qed.

Lemma tag_of_inj p i p' i' : tag_of p i = tag_of p' i' → p = p' ∧ i = i'.
Proof.
  unfold tag_of. simpl. intros H.
  apply app_sep_inj in H as [-> H]; try apply digits_no_dash.
  split; [done | by apply str_of_nat_inj].
Qed.

End TagFacts.

(** ** The monad *)

Section MonadFacts.
Context {L : Library}.

Lemma bind_Ok {A B} (m : M A) (k : A → M B) w b w2 :
  (m ≫= k) w = (Ok b, w2) ↔ ∃ a w1, m w = (Ok a, w1) ∧ k a w1 = (Ok b, w2).
Proof.
  unfold mbind, M_bind, bind. destruct (m w) as [[a|e] w1]; split.
  - intros H. by exists a, w1.
  - intros (a' & w1' & [= -> ->] & H). done.
  - discriminate.
  - intros (a' & w1' & [=] & _).
Qed.

Lemma bind_Raise {A B} (m : M A) (k : A → M B) w e w2 :
  (m ≫= k) w = (Raise e, w2) ↔
  m w = (Raise e, w2) ∨ ∃ a w1, m w = (Ok a, w1) ∧ k a w1 = (Raise e, w2).
Proof.
  unfold mbind, M_bind, bind. destruct (m w) as [[a|e'] w1]; split.
  - intros H. right. by exists a, w1.
  - intros [[=] | (a' & w1' & [= -> ->] & H)]. done.
  - intros [= -> ->]. by left.
  - intros [[= -> ->] | (a' & w1' & [=] & _)]. done.
Qed.

Lemma bind_run {A B} (m : M A) (k : A → M B) w a w1 :
  m w = (Ok a, w1) → (m ≫= k) w = k a w1.
Proof. unfold mbind, M_bind, bind. by intros ->. Qed.

Lemma bind_fail {A B} (m : M A) (k : A → M B) w e w1 :
  m w = (Raise e, w1) → (m ≫= k) w = (Raise e, w1).
Proof. unfold mbind, M_bind, bind. by intros ->. Qed.

Lemma run_Ok_eq {A} (m : M A) w a : (m w).1 = Ok a → m w = (Ok a, (m w).2).
Proof. destruct (m w) as [r w']. simpl. by intros ->. Qed.

Lemma emit_nil w : emit [] w = w.
Proof. destruct w. unfold emit. simpl. by rewrite app_nil_r. Qed.

Lemma emit_emit δ1 δ2 w : emit δ2 (emit δ1 w) = emit (δ1 ++ δ2) w.
Proof. unfold emit. simpl. by rewrite app_assoc. Qed.

Lemma uniform_ret {A} (a : A) : uniform (ret a).
Proof. exists (Ok a), []. split; [constructor|]. intros w. by rewrite emit_nil. Qed.

Lemma uniform_lift {A} (r : result A) : uniform (lift r).
Proof. exists r, []. split; [constructor|]. intros w. by rewrite emit_nil. Qed.

Lemma uniform_write s : uniform (write s).
Proof. exists (Ok tt), [EvWrite s]. split; [by repeat constructor | done]. Qed.

Lemma uniform_bind {A B} (m : M A) (k : A → M B) :
  uniform m → (∀ a, uniform (k a)) → uniform (m ≫= k).
Proof.
  intros (r & δ1 & Hδ1 & Hm) Hk. destruct r as [a|e].
  - destruct (Hk a) as (r2 & δ2 & Hδ2 & Hka).
    exists r2, (δ1 ++ δ2). split; [by apply Forall_app|].
    intros w. rewrite (bind_run _ _ _ _ _ (Hm w)), Hka. by rewrite emit_emit.
  - exists (Raise e), δ1. split; [done|].
    intros w. by rewrite (bind_fail _ _ _ _ _ (Hm w)).
Qed.

End MonadFacts.

(** ** The streaming corpus *)

Section CorpusFacts.
Context {L : Library}.

Lemma lift_inv {A} (r : result A) w x w' :
  lift r w = (x, w') → r = x ∧ w' = w.
Proof. unfold lift. by intros [= -> ->]. Qed.

Lemma ret_inv {A} (a : A) w x w' :
  ret a w = (x, w') → x = Ok a ∧ w' = w.
Proof. unfold ret. by intros [= <- <-]. Qed.

Lemma iter_lines_cons part i line rest :
  iter_lines part i (line :: rest) =
  (text_ ← lift (Utf8.decode (text line));
   (if N.of_nat i mod 10000 <? 1
    then print (py "DOCUMENT WITH ID(TAG): " ++ tag_of part i)
    else ret tt);;
   docs ← iter_lines part (S i) rest;
   ret ({| words := tokenize_text text_; tags := [tag_of part i] |} :: docs)).
Proof. reflexivity. Qed.

Lemma progress_note_run (b : bool) s w :
  ∃ w', (if b then print s else ret tt) w = (Ok tt, w').
Proof. destruct b; eexists; reflexivity. Qed.

Lemma iter_lines_Ok lines : ∀ part i w docs w',
  iter_lines part i lines w = (Ok docs, w') →
  length docs = length lines ∧
  ∀ j line, lines !! j = Some line →
    ∃ t, Utf8.decode (text line) = Ok t ∧
         docs !! j = Some {| words := tokenize_text t; tags := [tag_of part (i + j)] |}.
Proof.
  induction lines as [|line rest IH]; intros part i w docs w' H.
  - apply ret_inv in H as [[= ->] _]. split; [done|]. intros j l Hl. done.
  - rewrite iter_lines_cons in H.
    apply bind_Ok in H as (t & w1 & Ht & H). apply lift_inv in Ht as [Ht ->].
    apply bind_Ok in H as (u & w2 & _ & H).
    apply bind_Ok in H as (docs' & w3 & Hrest & H).
    apply ret_inv in H as [[= ->] _].
    destruct (IH _ _ _ _ _ Hrest) as [Hlen Hnth].
    split; [simpl; by rewrite Hlen|].
    intros [|j] l Hl; simpl in Hl.
    + injection Hl as <-. exists t. by rewrite Nat.add_0_r.
    + destruct (Hnth _ _ Hl) as (t' & Ht' & Hd). exists t'. split; [done|].
      simpl. rewrite Hd. by rewrite Nat.add_succ_r.
Qed.

Lemma iter_lines_total lines : ∀ part i w,
  (∀ line, line ∈ lines → ∃ t, Utf8.decode (text line) = Ok t) →
  ∃ docs w', iter_lines part i lines w = (Ok docs, w').
Proof.
  induction lines as [|line rest IH]; intros part i w Hdec.
  - by exists [], w.
  - destruct (Hdec line) as [t Ht]; [left|].
    destruct (progress_note_run (N.of_nat i mod 10000 <? 1)
                (py "DOCUMENT WITH ID(TAG): " ++ tag_of part i) w) as [w1 Hw1].
    destruct (IH part (S i) w1) as (docs & w2 & Hrest).
    { intros l Hl. apply Hdec. by right. }
    eexists _, w2. rewrite iter_lines_cons.
    rewrite (bind_run _ _ w t w); [|unfold lift; by rewrite Ht].
    rewrite (bind_run _ _ w tt w1 Hw1).
    rewrite (bind_run _ _ w1 docs w2 Hrest). reflexivity.
Qed.

Lemma iter_parts_Ok ds ps : ∀ w docs w',
  iter_parts ds ps w = (Ok docs, w') →
  ∃ chunks, docs = concat chunks ∧ Forall2 (yields_part ds) ps chunks.
Proof.
  induction ps as [|p ps IH]; intros w docs w' H; simpl in H.
  - apply ret_inv in H as [[= ->] _]. exists []. split; [done | constructor].
  - apply bind_Ok in H as (lines & w1 & Hl & H).
    apply lift_inv in Hl as [Hl ->]. unfold getitem in Hl.
    destruct (ds !! p) as [lines'|] eqn:Hp; [|discriminate]. injection Hl as ->.
    apply bind_Ok in H as (chunk & w2 & Hchunk & H).
    apply bind_Ok in H as (more & w3 & Hmore & H).
    apply ret_inv in H as [[= ->] _].
    destruct (IH _ _ _ Hmore) as (chunks & -> & Hall).
    apply iter_lines_Ok in Hchunk as [Hlen Hnth].
    exists (chunk :: chunks). split; [done|]. constructor; [|done].
    exists lines. split; [done|]. split; [done|]. exact Hnth.
Qed.

Lemma iter_parts_total ds ps : ∀ w,
  readable ds ps → ∃ docs w', iter_parts ds ps w = (Ok docs, w').
Proof.
  induction ps as [|p ps IH]; intros w Hr; simpl.
  - by exists [], w.
  - destruct (Hr p) as (lines & Hp & Hdec); [left|].
    destruct (iter_lines_total lines p 0%nat w Hdec) as (chunk & w1 & Hchunk).
    destruct (IH w1) as (more & w2 & Hmore).
    { intros q Hq. apply Hr. by right. }
    exists (chunk ++ more), w2.
    rewrite (bind_run _ _ w lines w); [|unfold lift, getitem; by rewrite Hp].
    rewrite (bind_run _ _ w chunk w1 Hchunk).
    rewrite (bind_run _ _ w1 more w2 Hmore). reflexivity.
Qed.

Lemma uniform_iter_lines lines : ∀ part i, uniform (iter_lines part i lines).
Proof.
  induction lines as [|line rest IH]; intros part i.
  - apply uniform_ret.
  - rewrite iter_lines_cons.
    apply uniform_bind; [apply uniform_lift|]. intros t.
    apply uniform_bind.
    { destruct (N.of_nat i mod 10000 <? 1); [apply uniform_write | apply uniform_ret]. }
    intros _. apply uniform_bind; [apply IH|]. intros docs. apply uniform_ret.
Qed.

Lemma uniform_iter_parts ds ps : uniform (iter_parts ds ps).
Proof.
  induction ps as [|p ps IH]; simpl.
  - apply uniform_ret.
  - apply uniform_bind; [apply uniform_lift|]. intros lines.
    apply uniform_bind; [apply uniform_iter_lines|]. intros chunk.
    apply uniform_bind; [apply IH|]. intros more. apply uniform_ret.
Qed.

Lemma uniform_TxtCorpus_iter c : uniform (TxtCorpus_iter c).
Proof. apply uniform_iter_parts. Qed.

Lemma chunk_tags ds p chunk :
  yields_part ds p chunk →
  tags <$> chunk
  = (fun i => [tag_of p i]) <$> seq 0 (length (default [] (ds !! p))).
Proof.
  intros (lines & Hp & Hlen & Hnth). rewrite Hp. simpl.
  apply list_eq. intros i. rewrite !list_lookup_fmap.
  destruct (lines !! i) as [line|] eqn:Hi.
  - destruct (Hnth _ _ Hi) as (t & _ & ->). simpl.
    rewrite lookup_seq_lt; [done|]. by apply lookup_lt_Some in Hi.
  - apply lookup_ge_None in Hi.
    rewrite (lookup_ge_None_2 chunk i); [|lia].
    rewrite lookup_seq_ge; [done | lia].
Qed.

Lemma pass_tags ds ps chunks :
  Forall2 (yields_part ds) ps chunks →
  tags <$> concat chunks = (fun s => [tag_of s.1 s.2]) <$> sources ds ps.
Proof.
  unfold sources. induction 1 as [|p chunk ps chunks Hc _ IH]; [done|].
  simpl. rewrite !fmap_app, IH. f_equal.
  rewrite (chunk_tags _ _ _ Hc). by rewrite <- list_fmap_compose.
Qed.

Lemma pass_length ds ps chunks :
  Forall2 (yields_part ds) ps chunks →
  length (concat chunks)
  = sum_list ((fun p => length (default [] (ds !! p))) <$> ps).
Proof.
  induction 1 as [|p chunk ps chunks (lines & Hp & Hlen & _) _ IH]; [done|].
  simpl. rewrite length_app, IH, Hp. simpl. by rewrite Hlen.
Qed.

Lemma NoDup_sources ds ps : NoDup ps → NoDup (sources ds ps).
Proof.
  intros Hps. unfold sources. apply NoDup_bind; [| |done].
  - intros p q s _ _ Hp Hq.
    apply list_elem_of_fmap in Hp as (i & -> & _).
    apply list_elem_of_fmap in Hq as (j & [= ->] & _). done.
  - intros p _. apply NoDup_fmap_2; [|apply NoDup_seq]. by intros i j [= ->].
Qed.

End CorpusFacts.

Section CorpusTheorems.
Context {L : Library}.

(** C1.  A pass over a [TxtCorpus] yields, for each part in the listed order
    and for each document of that part in enumeration order from 0, exactly
    one [TaggedDocument] whose words are [tokenize_text] of the document's
    decoded text and whose tags are the single string [part-i].  The pass
    completes whenever every listed part is in the dataset and every text
    decodes. *)
Theorem TxtCorpus_iter_yields (ds : dataset) (ps : list pystr) (w : World) :
  (readable ds ps →
   ∃ docs w', TxtCorpus_iter (TxtCorpus_init ds ps) w = (Ok docs, w'))
  ∧ (∀ docs w', TxtCorpus_iter (TxtCorpus_init ds ps) w = (Ok docs, w') →
       ∃ chunks, docs = concat chunks ∧ Forall2 (yields_part ds) ps chunks).
Proof.
  unfold TxtCorpus_iter, TxtCorpus_init. simpl. split.
  - apply iter_parts_total.
  - intros docs w'. apply iter_parts_Ok.
Qed.

(** C2.  In one pass, two documents that come from different (part, index)
    pairs carry different tags, and when no part is listed twice no tag
    occurs twice in the pass. *)
Theorem tags_unique (ds : dataset) (ps : list pystr) (w : World)
    (docs : list TaggedDocument) (w' : World) :
  TxtCorpus_iter (TxtCorpus_init ds ps) w = (Ok docs, w') →
  (∀ j k dj dk sj sk,
     docs !! j = Some dj → docs !! k = Some dk →
     sources ds ps !! j = Some sj → sources ds ps !! k = Some sk →
     sj ≠ sk →
     tags dj = [tag_of sj.1 sj.2] ∧ tags dk = [tag_of sk.1 sk.2]
     ∧ tag_of sj.1 sj.2 ≠ tag_of sk.1 sk.2)
  ∧ (NoDup ps → NoDup (docs ≫= tags)).
Proof.
  intros H. unfold TxtCorpus_iter, TxtCorpus_init in H. simpl in H.
  apply iter_parts_Ok in H as (chunks & -> & Hall).
  pose proof (pass_tags _ _ _ Hall) as Htags. split.
  - intros j k dj dk [pj ij] [pk ik] Hj Hk Hsj Hsk Hne.
    assert (Hget : ∀ i d s, concat chunks !! i = Some d →
                     sources ds ps !! i = Some s → tags d = [tag_of s.1 s.2]).
    { intros i d s Hd Hs.
      assert (Hi : (tags <$> concat chunks) !! i = Some (tags d))
        by (by rewrite list_lookup_fmap, Hd).
      rewrite Htags, list_lookup_fmap, Hs in Hi. by injection Hi. }
    split; [by apply (Hget j) | split; [by apply (Hget k)|]].
    simpl. intros Heq. apply tag_of_inj in Heq as [-> ->]. by apply Hne.
  - intros Hps.
    assert (Hflat : concat chunks ≫= tags
                    = (fun s => tag_of s.1 s.2) <$> sources ds ps).
    { revert Htags. generalize (sources ds ps). generalize (concat chunks).
      induction l as [|d l IH]; intros [|s ss] Heq; try discriminate; [done|].
      simpl in Heq. injection Heq as Hd Hl.
      rewrite bind_cons, Hd, (IH _ Hl). done. }
    rewrite Hflat. apply NoDup_fmap_2; [|by apply NoDup_sources].
    intros [p i] [q j] Heq. simpl in Heq.
    by apply tag_of_inj in Heq as [-> ->].
Qed.

(** C8.  The list content of a [TxtCorpus] is empty: its length is 0 and it
    is falsy, whatever the dataset holds, while a pass over it yields one
    document per line of every listed part. *)
Theorem TxtCorpus_list_empty (ds : dataset) (ps : list pystr) :
  len (TxtCorpus_init ds ps) = 0%nat
  ∧ truthy (TxtCorpus_init ds ps) = false
  ∧ ∀ w docs w', TxtCorpus_iter (TxtCorpus_init ds ps) w = (Ok docs, w') →
      length docs = sum_list ((fun p => length (default [] (ds !! p))) <$> ps).
Proof.
  split; [done | split; [done|]]. intros w docs w' H.
  unfold TxtCorpus_iter, TxtCorpus_init in H. simpl in H.
  apply iter_parts_Ok in H as (chunks & -> & Hall). by apply pass_length.
Qed.

Lemma passes_over_same c n : ∀ w passes w',
  passes_over c n w = (Ok passes, w') →
  ∀ docs, docs ∈ passes → (TxtCorpus_iter c w).1 = Ok docs.
Proof.
  destruct (uniform_TxtCorpus_iter c) as (r & δ & _ & Hrun).
  induction n as [|n IH]; intros w passes w' H docs Hin; simpl in H.
  - apply ret_inv in H as [[= ->] _]. by apply elem_of_nil in Hin.
  - apply bind_Ok in H as (d & w1 & Hd & H).
    apply bind_Ok in H as (more & w2 & Hmore & H).
    apply ret_inv in H as [[= ->] _].
    apply elem_of_cons in Hin as [-> | Hin].
    + by rewrite Hd.
    + rewrite Hrun. rewrite <- (IH _ _ _ Hmore _ Hin). by rewrite Hrun.
Qed.

(** C9.  A pass over a [TxtCorpus] gives the same documents, or the same
    exception, in every world; it leaves the library state and the accuracy
    table alone, so a second pass after a first repeats it; and all the
    passes made for one training call are equal. *)
Theorem TxtCorpus_iter_deterministic (c : TxtCorpus) :
  (∀ w1 w2, (TxtCorpus_iter c w1).1 = (TxtCorpus_iter c w2).1)
  ∧ (∀ w r w1, TxtCorpus_iter c w = (r, w1) →
       lib w1 = lib w ∧ accuracies w1 = accuracies w
       ∧ (TxtCorpus_iter c w1).1 = r)
  ∧ (∀ n w passes w', passes_over c n w = (Ok passes, w') →
       ∀ docs, docs ∈ passes → (TxtCorpus_iter c w).1 = Ok docs).
Proof.
  destruct (uniform_TxtCorpus_iter c) as (r & δ & _ & Hrun).
  split; [|split].
  - intros w1 w2. by rewrite !Hrun.
  - intros w r' w1 H. rewrite Hrun in H. injection H as <- <-.
    by rewrite Hrun.
  - apply passes_over_same.
Qed.

End CorpusTheorems.

(** The pass over the three parts of the small dataset. *)
Lemma TxtCorpus_iter_yields_witness :
  ∃ chunks, Toy.pass = concat chunks
            ∧ Forall2 (yields_part Toy.imdb) default_parts chunks.
Proof.
  apply (proj2 (TxtCorpus_iter_yields (L := Toy.library) Toy.imdb
                  default_parts (Toy.boot None))
               Toy.pass
               (@TxtCorpus_iter Toy.library
                  (TxtCorpus_init Toy.imdb default_parts) (Toy.boot None)).2).
  apply run_Ok_eq. vm_compute. reflexivity.
Defined.

Lemma tags_unique_witness : NoDup (Toy.pass ≫= tags).
Proof.
  refine (proj2 (tags_unique (L := Toy.library) Toy.imdb default_parts
                   (Toy.boot None) Toy.pass
                   (@TxtCorpus_iter Toy.library
                      (TxtCorpus_init Toy.imdb default_parts) (Toy.boot None)).2
                   _) _).
  - apply run_Ok_eq. vm_compute. reflexivity.
  - apply (bool_decide_unpack _). vm_compute. exact I.
Defined.

Lemma TxtCorpus_list_empty_witness :
  len (TxtCorpus_init Toy.imdb default_parts) = 0%nat
  ∧ truthy (TxtCorpus_init Toy.imdb default_parts) = false
  ∧ length (match (@TxtCorpus_iter Toy.library
                     (TxtCorpus_init Toy.imdb default_parts) (Toy.boot None)).1
            with Ok docs => docs | Raise _ => [] end) = 4%nat.
Proof.
  destruct (TxtCorpus_list_empty (L := Toy.library) Toy.imdb default_parts)
    as (Hlen & Hbool & Hpass).
  split; [exact Hlen | split; [exact Hbool|]].
  vm_compute. reflexivity.
Defined.

Lemma TxtCorpus_iter_deterministic_witness :
  (@TxtCorpus_iter Toy.library (TxtCorpus_init Toy.imdb default_parts)
     (Toy.boot None)).1
  = (@TxtCorpus_iter Toy.library (TxtCorpus_init Toy.imdb default_parts)
       (Toy.boot (Some 3%nat))).1.
Proof.
  apply (proj1 (TxtCorpus_iter_deterministic (L := Toy.library)
                  (TxtCorpus_init Toy.imdb default_parts))).
Defined.

(** ** The glue functions *)

Section GlueFacts.
Context {L : Library}.

Lemma read_inv {A} (f : Lib → result A) w x w' :
  read f w = (x, w') → f (lib w) = x ∧ w' = w.
Proof. unfold read. by intros [= -> ->]. Qed.

Lemma invoke_inv {A} c (inj : A → value) f w x w' :
  invoke c inj f w = (x, w') →
  ∃ l, f (lib w) = (x, l) ∧ lib w' = l ∧ accuracies w' = accuracies w
       ∧ trace w' = trace w ++ [EvCall c (result_map inj x)].
Proof.
  unfold invoke. destruct (f (lib w)) as [r l]. intros [= <- <-]. by exists l.
Qed.

Lemma load_loop_world m part lines : ∀ i X Y w r w',
  load_loop m part i lines X Y w = (r, w') → w' = w.
Proof.
  induction lines as [|line rest IH]; intros i X Y w r w' H; simpl in H.
  - by apply ret_inv in H as [_ ->].
  - destruct r as [[X' Y']|e].
    + apply bind_Ok in H as (v & w1 & Hv & H). apply read_inv in Hv as [_ ->].
      by apply IH in H.
    + apply bind_Raise in H as [H | (v & w1 & Hv & H)].
      * by apply read_inv in H as [_ ->].
      * apply read_inv in Hv as [_ ->]. by apply IH in H.
Qed.

Lemma load_loop_Ok m part lines : ∀ i X Y w X' Y' w',
  load_loop m part i lines X Y w = (Ok (X', Y'), w') →
  ∃ vs, X' = X ++ vs ∧ Y' = Y ++ (label <$> lines)
        ∧ length vs = length lines
        ∧ ∀ j v, vs !! j = Some v →
            docvecs_getitem (lib w) m (tag_of part (i + j)) = Ok v.
Proof.
  induction lines as [|line rest IH]; intros i X Y w X' Y' w' H; simpl in H.
  - apply ret_inv in H as [[= -> ->] _]. exists [].
    rewrite !app_nil_r. repeat split; done.
  - apply bind_Ok in H as (v & w1 & Hv & H). apply read_inv in Hv as [Hv ->].
    apply IH in H as (vs & -> & -> & Hlen & Hnth).
    exists (v :: vs). rewrite <- !app_assoc. simpl.
    repeat split; [by rewrite Hlen|].
    intros [|j] u Hu; simpl in Hu.
    + injection Hu as <-. by rewrite Nat.add_0_r.
    + rewrite Nat.add_succ_r. by apply Hnth.
Qed.

Lemma load_loop_total m part lines : ∀ i X Y w,
  (∀ j, (j < length lines)%nat →
        ∃ v, docvecs_getitem (lib w) m (tag_of part (i + j)) = Ok v) →
  ∃ X' Y', load_loop m part i lines X Y w = (Ok (X', Y'), w).
Proof.
  induction lines as [|line rest IH]; intros i X Y w Hall; simpl.
  - by exists X, Y.
  - destruct (Hall 0%nat) as [v Hv]; [simpl; lia|]. rewrite Nat.add_0_r in Hv.
    destruct (IH (S i) (X ++ [v]) (Y ++ [label line]) w) as (X' & Y' & Hrest).
    { intros j Hj. destruct (Hall (S j)) as [u Hu]; [simpl; lia|].
      exists u. by rewrite Nat.add_succ_r in Hu. }
    exists X', Y'.
    rewrite (bind_run _ _ w v w); [done|]. unfold read. by rewrite Hv.
Qed.

(** The first lookup that raises ends the loop with that very exception. *)
Lemma load_loop_Raise m part lines : ∀ i X Y w e w',
  load_loop m part i lines X Y w = (Raise e, w') →
  ∃ j, (j < length lines)%nat
       ∧ docvecs_getitem (lib w) m (tag_of part (i + j)) = Raise e
       ∧ ∀ k, (k < j)%nat →
           ∃ v, docvecs_getitem (lib w) m (tag_of part (i + k)) = Ok v.
Proof.
  induction lines as [|line rest IH]; intros i X Y w e w' H; simpl in H.
  - by apply ret_inv in H as [[=] _].
  - apply bind_Raise in H as [H | (v & w1 & Hv & H)].
    + apply read_inv in H as [H _]. exists 0%nat. rewrite Nat.add_0_r.
      split; [simpl; lia | split; [done|]]. intros k Hk. lia.
    + apply read_inv in Hv as [Hv ->].
      apply IH in H as (j & Hj & Hfail & Hbefore).
      exists (S j). rewrite Nat.add_succ_r.
      split; [simpl; lia | split; [done|]].
      intros [|k] Hk; [exists v; by rewrite Nat.add_0_r|].
      rewrite Nat.add_succ_r. apply Hbefore. lia.
Qed.

Lemma infer_loop_Ok m lines : ∀ X Y w X' Y' w',
  infer_loop m lines X Y w = (Ok (X', Y'), w') →
  ∃ vs toks, X' = X ++ vs ∧ Y' = Y ++ (label <$> lines)
    ∧ length vs = length lines
    ∧ infer_chain m (lib w) toks vs (lib w')
    ∧ accuracies w' = accuracies w
    ∧ ∀ j line, lines !! j = Some line →
        ∃ t, Utf8.decode (text line) = Ok t ∧ toks !! j = Some (tokenize_text t).
Proof.
  induction lines as [|line rest IH]; intros X Y w X' Y' w' H; simpl in H.
  - apply ret_inv in H as [[= -> ->] ->]. exists [], [].
    rewrite !app_nil_r. repeat split; [constructor | done].
  - apply bind_Ok in H as (t & w1 & Ht & H). apply lift_inv in Ht as [Ht ->].
    apply bind_Ok in H as (v & w1 & Hv & H).
    apply invoke_inv in Hv as (l & Hv & Hl & Hacc & _).
    apply IH in H as (vs & toks & -> & -> & Hlen & Hchain & Hacc' & Hnth).
    exists (v :: vs), (tokenize_text t :: toks). rewrite <- !app_assoc. simpl.
    repeat split.
    + by rewrite Hlen.
    + econstructor; [exact Hv|]. by rewrite <- Hl.
    + by rewrite Hacc'.
    + intros [|j] ln Hln; simpl in Hln.
      * injection Hln as <-. by exists t.
      * by apply Hnth.
Qed.

Lemma infer_loop_total m lines : ∀ X Y w,
  (∀ line, line ∈ lines → ∃ t, Utf8.decode (text line) = Ok t) →
  (∀ t l, ∃ v l', infer_vector m t l = (Ok v, l')) →
  ∃ X' Y' w', infer_loop m lines X Y w = (Ok (X', Y'), w').
Proof.
  induction lines as [|line rest IH]; intros X Y w Hdec Hinf; simpl.
  - by exists X, Y, w.
  - destruct (Hdec line) as [t Ht]; [left|].
    destruct (Hinf (tokenize_text t) (lib w)) as (v & l & Hv).
    rewrite (bind_run _ _ w t w); [|unfold lift; by rewrite Ht].
    erewrite bind_run; [|unfold invoke; rewrite Hv; reflexivity].
    apply IH; [|done]. intros ln Hln. apply Hdec. by right.
Qed.

Lemma load_from_model_world m ds part w r w' :
  load_from_model m ds part w = (r, w') → w' = w.
Proof.
  unfold load_from_model. intros H. destruct r as [a|e].
  - apply bind_Ok in H as (lines & w1 & Hl & H). apply lift_inv in Hl as [_ ->].
    apply bind_Ok in H as ([X Y] & w1 & Hloop & H).
    apply load_loop_world in Hloop as ->. by apply ret_inv in H as [_ ->].
  - apply bind_Raise in H as [H | (lines & w1 & Hl & H)].
    + by apply lift_inv in H as [_ ->].
    + apply lift_inv in Hl as [_ ->].
      apply bind_Raise in H as [H | ([X Y] & w1 & Hloop & H)].
      * by apply load_loop_world in H.
      * by apply ret_inv in H as [[=] _].
Qed.

End GlueFacts.

Section GlueTheorems.
Context {L : Library}.

(** C3.  [load_from_model] returns two arrays with one entry per document of
    the part, in enumeration order: [X[i]] is the vector stored in the model
    under the tag [part-i] and [Y[i]] the label of document [i].
    [infer_from_model] returns arrays of the same shape where [X[i]] is what
    [infer_vector] returned for [tokenize_text] of the decoded text of
    document [i].  Each returns whenever the part is in the dataset and the
    library calls it makes return. *)
Theorem glue_functions (m : Model) (ds : dataset) (part : pystr) (w : World) :
  (∀ X Y w', load_from_model m ds part w = (Ok (X, Y), w') →
     ∃ lines, ds !! part = Some lines
       ∧ length X = length lines ∧ length Y = length lines ∧ w' = w
       ∧ ∀ i line, lines !! i = Some line →
           ∃ v, docvecs_getitem (lib w) m (tag_of part i) = Ok v
                ∧ X !! i = Some v ∧ Y !! i = Some (label line))
  ∧ (∀ lines, ds !! part = Some lines →
       (∀ i, (i < length lines)%nat →
             ∃ v, docvecs_getitem (lib w) m (tag_of part i) = Ok v) →
       ∃ X Y, load_from_model m ds part w = (Ok (X, Y), w))
  ∧ (∀ X Y w', infer_from_model m ds part w = (Ok (X, Y), w') →
       ∃ lines toks, ds !! part = Some lines
         ∧ length X = length lines ∧ length Y = length lines
         ∧ infer_chain m (lib w) toks X (lib w')
         ∧ ∀ i line, lines !! i = Some line →
             ∃ t, Utf8.decode (text line) = Ok t
                  ∧ toks !! i = Some (tokenize_text t)
                  ∧ Y !! i = Some (label line))
  ∧ (∀ lines, ds !! part = Some lines →
       (∀ line, line ∈ lines → ∃ t, Utf8.decode (text line) = Ok t) →
       (∀ t l, ∃ v l', infer_vector m t l = (Ok v, l')) →
       ∃ X Y w', infer_from_model m ds part w = (Ok (X, Y), w')).
Proof.
  split; [|split; [|split]].
  - intros X Y w' H. unfold load_from_model in H.
    apply bind_Ok in H as (lines & w1 & Hl & H).
    apply lift_inv in Hl as [Hl ->]. unfold getitem in Hl.
    destruct (ds !! part) as [lines'|]; [|discriminate]. injection Hl as ->.
    apply bind_Ok in H as ([X0 Y0] & w1 & Hloop & H).
    apply ret_inv in H as [[= -> ->] ->]. unfold asarray.
    pose proof (load_loop_world _ _ _ _ _ _ _ _ _ Hloop) as ->.
    apply load_loop_Ok in Hloop as (vs & -> & -> & Hlen & Hnth). simpl.
    exists lines. rewrite length_fmap.
    repeat split; [done|]. intros i line Hi.
    destruct (vs !! i) as [v|] eqn:Hv.
    + exists v. split; [by apply (Hnth i)|]. split; [done|].
      by rewrite list_lookup_fmap, Hi.
    + apply lookup_ge_None in Hv. apply lookup_lt_Some in Hi. lia.
  - intros lines Hp Hall. unfold load_from_model.
    destruct (load_loop_total m part lines 0%nat [] [] w Hall) as (X & Y & Hloop).
    exists (asarray X), (asarray Y).
    rewrite (bind_run _ _ w lines w); [|unfold lift, getitem; by rewrite Hp].
    by rewrite (bind_run _ _ w (X, Y) w Hloop).
  - intros X Y w' H. unfold infer_from_model in H.
    apply bind_Ok in H as (lines & w1 & Hl & H).
    apply lift_inv in Hl as [Hl ->]. unfold getitem in Hl.
    destruct (ds !! part) as [lines'|]; [|discriminate]. injection Hl as ->.
    apply bind_Ok in H as ([X0 Y0] & w1 & Hloop & H).
    apply ret_inv in H as [[= -> ->] ->]. unfold asarray.
    apply infer_loop_Ok in Hloop as (vs & toks & -> & -> & Hlen & Hchain & _ & Hnth).
    simpl. exists lines, toks. rewrite length_fmap.
    repeat split; [done..|]. intros i line Hi.
    destruct (Hnth _ _ Hi) as (t & Ht & Htok). exists t.
    repeat split; [done..|]. by rewrite list_lookup_fmap, Hi.
  - intros lines Hp Hdec Hinf. unfold infer_from_model.
    destruct (infer_loop_total m lines [] [] w Hdec Hinf) as (X & Y & w' & Hloop).
    exists (asarray X), (asarray Y), w'.
    rewrite (bind_run _ _ w lines w); [|unfold lift, getitem; by rewrite Hp].
    by rewrite (bind_run _ _ w (X, Y) w' Hloop).
Qed.

End GlueTheorems.

(** The stored vectors and labels of the two training reviews, read back
    from the first model once its vocabulary is built. *)
Lemma glue_functions_witness :
  ∃ lines, Toy.imdb !! py "train" = Some lines
    ∧ length [[1; 7]; [1; 7]]%Z = length lines
    ∧ length [1; 0]%Z = length lines
    ∧ Toy.vocab_built = Toy.vocab_built
    ∧ ∀ i line, lines !! i = Some line →
        ∃ v, @docvecs_getitem Toy.library (lib Toy.vocab_built) Toy.dbow
               (tag_of (py "train") i) = Ok v
             ∧ [[1; 7]; [1; 7]]%Z !! i = Some v
             ∧ [1; 0]%Z !! i = Some (label line).
Proof.
  assert (H : @load_from_model Toy.library Toy.dbow Toy.imdb (py "train")
                Toy.vocab_built
              = (Ok ([[1; 7]; [1; 7]]%Z, [1; 0]%Z), Toy.vocab_built)).
  { pose proof (run_Ok_eq (@load_from_model Toy.library Toy.dbow Toy.imdb
                             (py "train")) Toy.vocab_built
                          ([[1; 7]; [1; 7]]%Z, [1; 0]%Z)) as Hrun.
    rewrite Hrun; [|vm_compute; reflexivity].
    f_equal; eapply load_from_model_world; apply surjective_pairing. }
  exact (proj1 (glue_functions (L := Toy.library) Toy.dbow Toy.imdb
                  (py "train") Toy.vocab_built) _ _ _ H).
Defined.

(** ** Runs of the notebook *)

Section RunFacts.
Context {L : Library}.

Lemma phases_app δ1 δ2 : phases (δ1 ++ δ2) = phases δ1 ++ phases δ2.
Proof. apply omap_app. Qed.

Lemma phases_writes δ : Forall is_write δ → phases δ = [].
Proof.
  induction 1 as [|e δ He _ IH]; [done|].
  destruct e; [|done]. exact IH.
Qed.

Lemma reaches_trans p1 t1 p2 t2 w w1 w2 :
  reaches p1 t1 w w1 → reaches p2 t2 w1 w2 → reaches (p1 ++ p2) t2 w w2.
Proof.
  intros [(δ1 & H1 & Hp1) _] [(δ2 & H2 & Hp2) Ht].
  split; [|done]. exists (δ1 ++ δ2).
  split; [by rewrite H2, H1, app_assoc | by rewrite phases_app, Hp1, Hp2].
Qed.

Lemma reaches_step p1 t p2 w w1 w2 :
  reaches p1 t w w1 → step p2 w1 w2 → reaches (p1 ++ p2) t w w2.
Proof.
  intros H1 H2. pose proof (proj2 H1) as Ht.
  unfold step in H2. rewrite Ht in H2. by eapply reaches_trans.
Qed.

Lemma step_refl w : step [] w w.
Proof. split; [|done]. exists []. by rewrite app_nil_r. Qed.

Lemma step_trans p1 p2 w w1 w2 :
  step p1 w w1 → step p2 w1 w2 → step (p1 ++ p2) w w2.
Proof. apply reaches_step. Qed.

Lemma emit_step δ w : step (phases δ) w (emit δ w).
Proof. split; [|done]. by exists δ. Qed.

Lemma write_step s w u w' : write s w = (Ok u, w') → step [] w w'.
Proof. intros [= _ <-]. apply (emit_step [EvWrite s]). Qed.

Lemma invoke_step {A} c (inj : A → value) f w a w' :
  invoke c inj f w = (Ok a, w') → step (phases [EvCall c (Ok (inj a))]) w w'.
Proof.
  intros H. apply invoke_inv in H as (l & _ & _ & Hacc & Htr).
  split; [|done]. eexists. split; [exact Htr | done].
Qed.

Lemma uniform_step {A} (m : M A) w r w' :
  uniform m → m w = (r, w') → step [] w w' ∧ lib w' = lib w.
Proof.
  intros (r0 & δ & Hδ & Hrun) H. rewrite Hrun in H. injection H as _ <-.
  split; [|done]. rewrite <- (phases_writes δ Hδ). apply emit_step.
Qed.

Lemma infer_loop_step m lines : ∀ X Y w r w',
  infer_loop m lines X Y w = (Ok r, w') → step [] w w'.
Proof.
  induction lines as [|line rest IH]; intros X Y w r w' H; simpl in H.
  - apply ret_inv in H as [_ ->]. apply step_refl.
  - apply bind_Ok in H as (t & w1 & Ht & H). apply lift_inv in Ht as [_ ->].
    apply bind_Ok in H as (v & w1 & Hv & H).
    apply invoke_step in Hv. apply IH in H.
    apply (step_trans [] [] _ _ _ Hv H).
Qed.

Lemma infer_from_model_step m ds part w r w' :
  infer_from_model m ds part w = (Ok r, w') → step [] w w'.
Proof.
  unfold infer_from_model. intros H.
  apply bind_Ok in H as (lines & w1 & Hl & H). apply lift_inv in Hl as [_ ->].
  apply bind_Ok in H as ([X Y] & w1 & Hloop & H).
  apply ret_inv in H as [_ ->]. by apply infer_loop_step in Hloop.
Qed.

Lemma write_inv s w u w' : write s w = (Ok u, w') → w' = emit [EvWrite s] w.
Proof. by intros [= _ <-]. Qed.

Lemma invoke_lib {A} c (inj : A → value) f w a w' :
  invoke c inj f w = (Ok a, w') → f (lib w) = (Ok a, lib w').
Proof. intros H. by apply invoke_inv in H as (l & H & <- & _). Qed.

Lemma train_lr_evaluate_Ok model data w s w' :
  train_lr_evaluate model data w = (Ok s, w') →
  step [PFit; PScore s] w w' ∧ evaluated model data w s w'.
Proof.
  unfold train_lr_evaluate, time_, print_noend, print. intros H.
  apply bind_Ok in H as (u1 & w1 & H1 & H).
  apply bind_Ok in H as ([Xtr Ytr] & w2 & H2 & H).
  pose proof (load_from_model_world _ _ _ _ _ _ H2) as ->.
  apply bind_Ok in H as (u3 & w3 & H3 & H).
  apply bind_Ok in H as ([Xte Yte] & w4 & H4 & H).
  apply bind_Ok in H as (u5 & w5 & H5 & H).
  apply bind_Ok in H as (lr & w6 & H6 & H).
  apply bind_Ok in H as (clf & w7 & H7 & H).
  apply bind_Ok in H as (u8 & w8 & H8 & H).
  apply bind_Ok in H as (t0 & w9 & H9 & H).
  apply bind_Ok in H as ([] & w10 & H10 & H).
  apply bind_Ok in H as (t1 & w11 & H11 & H).
  apply bind_Ok in H as (u12 & w12 & H12 & H13).
  split.
  - apply write_step in H1, H3, H5, H8, H12.
    apply infer_from_model_step in H4.
    apply invoke_step in H6, H7, H9, H10, H11, H13.
    pose proof (step_trans _ _ _ _ _ H1 (step_trans _ _ _ _ _ H3
      (step_trans _ _ _ _ _ H4 (step_trans _ _ _ _ _ H5
      (step_trans _ _ _ _ _ H6 (step_trans _ _ _ _ _ H7
      (step_trans _ _ _ _ _ H8 (step_trans _ _ _ _ _ H9
      (step_trans _ _ _ _ _ H10 (step_trans _ _ _ _ _ H11
      (step_trans _ _ _ _ _ H12 H13))))))))))) as S.
    exact S.
  - apply write_inv in H1, H3, H5, H8, H12.
    apply invoke_lib in H6, H7, H9, H10, H11, H13.
    subst w1 w3 w5 w8 w12. simpl in *.
    exists Xtr, Ytr, Xte, Yte. do 3 eexists. exists lr, (lib w6), clf, (lib w7).
    exists t0, (lib w9), (lib w10), t1, (lib w11).
    split; [|split; [exact H2 | split; [|split; [exact H4|]]]]; try done.
Qed.

End RunFacts.

(** ** What every run does, whether it completes or raises *)

Section AnyRun.
Context {L : Library}.

#[global] Instance same_table_preorder : PreOrder same_table.
Proof.
  split; [by intros w | intros w1 w2 w3 H1 H2]. unfold same_table in *. congruence.
Qed.

#[global] Instance extends_preorder P : PreOrder (extends P).
Proof.
  split.
  - intros w. exists []. by rewrite app_nil_r.
  - intros w1 w2 w3 (δ1 & H1 & P1) (δ2 & H2 & P2). exists (δ1 ++ δ2).
    split; [by rewrite H2, H1, app_assoc | by apply Forall_app].
Qed.

Lemma stable_ret R `{!Reflexive R} {A} (a : A) : stable R (ret a).
Proof. intros w. simpl. reflexivity. Qed.

Lemma stable_lift R `{!Reflexive R} {A} (r : result A) : stable R (lift r).
Proof. intros w. simpl. reflexivity. Qed.

Lemma stable_read R `{!Reflexive R} {A} (f : Lib → result A) : stable R (read f).
Proof. intros w. simpl. reflexivity. Qed.

Lemma stable_bind R `{!PreOrder R} {A B} (m : M A) (k : A → M B) :
  stable R m → (∀ a, stable R (k a)) → stable R (m ≫= k).
Proof.
  intros Hm Hk w. specialize (Hm w). unfold mbind, M_bind, bind.
  destruct (m w) as [[a|e] w1]; simpl in *; [|done].
  etransitivity; [exact Hm | apply Hk].
Qed.

Lemma stable_if R {A} (b : bool) (m1 m2 : M A) :
  stable R m1 → stable R m2 → stable R (if b then m1 else m2).
Proof. by destruct b. Qed.

Lemma write_same_table s : stable same_table (write s).
Proof. by intros w. Qed.

Lemma invoke_same_table {A} c (inj : A → value) f :
  stable same_table (invoke c inj f).
Proof. intros w. unfold invoke. by destruct (f (lib w)). Qed.

Lemma write_extends P s : P (EvWrite s) → stable (extends P) (write s).
Proof. intros H w. exists [EvWrite s]. split; [done | by repeat constructor]. Qed.

Lemma invoke_extends P {A} c (inj : A → value) f :
  (∀ r, P (EvCall c r)) → stable (extends P) (invoke c inj f).
Proof.
  intros H w. unfold invoke. destruct (f (lib w)) as [r l]. simpl.
  eexists. split; [done | by repeat constructor].
Qed.

Lemma accuracies_set_extends P k v : stable (extends P) (accuracies_set k v).
Proof. intros w. exists []. simpl. by rewrite app_nil_r. Qed.

Lemma accuracies_get_extends P k : stable (extends P) (accuracies_get k).
Proof. intros w. exists []. simpl. by rewrite app_nil_r. Qed.

Lemma accuracies_reset_extends P : stable (extends P) accuracies_reset.
Proof. intros w. exists []. simpl. by rewrite app_nil_r. Qed.

Lemma uniform_same_table {A} (m : M A) : uniform m → stable same_table m.
Proof. intros (r & δ & _ & Hrun) w. by rewrite Hrun. Qed.

Lemma uniform_extends P {A} (m : M A) :
  (∀ s, P (EvWrite s)) → uniform m → stable (extends P) m.
Proof.
  intros HP (r & δ & Hδ & Hrun) w. rewrite Hrun. exists δ. split; [done|].
  eapply Forall_impl; [exact Hδ|]. intros [s|c r0] He; [apply HP | done].
Qed.

Lemma uniform_passes_over c n : uniform (passes_over c n).
Proof.
  induction n as [|n IH]; simpl; [apply uniform_ret|].
  apply uniform_bind; [apply uniform_TxtCorpus_iter|]. intros docs.
  apply uniform_bind; [apply IH|]. intros more. apply uniform_ret.
Qed.

End AnyRun.

Ltac stable_with known :=
  repeat first
    [ known
    | apply stable_ret; try apply _
    | apply stable_lift; try apply _
    | apply stable_read; try apply _
    | apply write_same_table | apply invoke_same_table
    | apply accuracies_set_extends | apply accuracies_get_extends
    | apply accuracies_reset_extends
    | apply write_extends; done
    | apply invoke_extends; intros ?; simpl; by auto
    | apply stable_if
    | apply stable_bind; [apply _ | | intros ?]
    | apply stable_bind; [| intros ?]
    | match goal with |- stable _ (let '(_, _) := ?x in _) => destruct x end ].

Section AnyRunCells.
Context {L : Library}.

Lemma load_loop_stable R `{!PreOrder R} m part lines : ∀ i X Y,
  stable R (load_loop m part i lines X Y).
Proof.
  induction lines as [|line rest IH]; intros i X Y; simpl;
    stable_with ltac:(apply IH).
Qed.

Lemma load_from_model_stable R `{!PreOrder R} m ds part :
  stable R (load_from_model m ds part).
Proof.
  unfold load_from_model.
  stable_with ltac:(apply load_loop_stable; apply _).
Qed.

Lemma infer_loop_same_table m lines : ∀ X Y,
  stable same_table (infer_loop m lines X Y).
Proof.
  induction lines as [|line rest IH]; intros X Y; simpl;
    stable_with ltac:(apply IH).
Qed.

Lemma infer_loop_late m lines : ∀ X Y,
  stable (extends late_event) (infer_loop m lines X Y).
Proof.
  induction lines as [|line rest IH]; intros X Y; simpl;
    stable_with ltac:(apply IH).
Qed.

Lemma infer_from_model_same_table m ds part :
  stable same_table (infer_from_model m ds part).
Proof.
  unfold infer_from_model. stable_with ltac:(apply infer_loop_same_table).
Qed.

Lemma infer_from_model_late m ds part :
  stable (extends late_event) (infer_from_model m ds part).
Proof.
  unfold infer_from_model. stable_with ltac:(apply infer_loop_late).
Qed.

Lemma train_lr_evaluate_same_table m data :
  stable same_table (train_lr_evaluate m data).
Proof.
  unfold train_lr_evaluate, time_, print, print_noend.
  stable_with ltac:(first [ apply load_from_model_stable; apply _
                          | apply infer_from_model_same_table ]).
Qed.

Lemma train_lr_evaluate_late m data :
  stable (extends late_event) (train_lr_evaluate m data).
Proof.
  unfold train_lr_evaluate, time_, print, print_noend.
  stable_with ltac:(first [ apply load_from_model_stable; apply _
                          | apply infer_from_model_late ]).
Qed.

Lemma model_train_same_table m c : stable same_table (model_train m c).
Proof.
  unfold model_train.
  stable_with ltac:(apply uniform_same_table, uniform_passes_over).
Qed.

Lemma model_train_late m c : stable (extends late_event) (model_train m c).
Proof.
  unfold model_train.
  stable_with ltac:(apply uniform_extends; [done | apply uniform_passes_over]).
Qed.

Lemma concat_loop_late ms data : stable (extends late_event) (concat_loop ms data).
Proof.
  induction ms as [|m ms IH]; simpl; unfold print;
    stable_with ltac:(first [apply train_lr_evaluate_late | apply IH]).
Qed.

Lemma train_loop_late its td data :
  stable (extends late_event) (train_loop its td data).
Proof.
  induction its as [|[name m] its IH]; simpl; unfold time_, print, print_noend;
    stable_with ltac:(first [ apply model_train_late
                            | apply train_lr_evaluate_late | apply IH ]).
Qed.

Lemma cell10_late data td mbn : stable (extends late_event) (cell10 data td mbn).
Proof.
  unfold cell10.
  stable_with ltac:(first [apply train_loop_late | apply concat_loop_late]).
Qed.

Lemma vocab_loop_setup n ms td : ∀ acc,
  stable (extends (setup_event n)) (vocab_loop ms td acc).
Proof.
  induction ms as [|m ms IH]; intros acc; simpl;
    unfold model_build_vocab, print;
    stable_with ltac:(first
      [ apply IH
      | apply uniform_extends; [done | apply uniform_TxtCorpus_iter] ]).
Qed.

End AnyRunCells.

Section Parallelism.
Context {L : Library}.

Lemma late_par on e : late_event e → par on e.
Proof.
  destruct e as [s|c r]; [done|]. destruct c; simpl; try done.
  by intros [_ ->].
Qed.

Lemma setup_par n e : setup_event n e → par (Some n) e.
Proof.
  destruct e as [s|c r]; [done|]. destruct c; simpl; try done.
  by intros [-> | [-> | ->]].
Qed.

Lemma par_None_Some n e : par None e → par (Some n) e.
Proof. destruct e as [s|c r]; [done|]. by destruct c. Qed.

Lemma counted_app δ δ' :
  counted δ → (∀ on, Forall (par on) δ') → counted (δ ++ δ').
Proof.
  intros [H | (n & δ1 & -> & H)] H'.
  - left. by apply Forall_app.
  - right. exists n, (δ1 ++ δ'). split; [done | by apply Forall_app].
Qed.

Lemma counted_passed e δ : par None e → counted δ → workers_passed (e :: δ).
Proof.
  intros He [H | (n & δ1 & -> & H)].
  - assert (Hall : Forall (par None) (e :: δ)) by by constructor.
    rewrite Forall_forall in Hall. split.
    + intros lr grid kw r Hin. exact (Hall _ Hin).
    + intros kw r Hin. destruct (Hall _ Hin).
  - assert (Hall : Forall (par (Some n))
                     (e :: EvCall CCpuCount (Ok (RInt n)) :: δ1)).
    { constructor; [by apply par_None_Some | by constructor]. }
    rewrite Forall_forall in Hall. split.
    + intros lr grid kw r Hin. exact (Hall _ Hin).
    + intros kw r Hin. exists n. split; [|exact (Hall _ Hin)].
      right. left.
Qed.

Lemma extends_impl (P Q : event → Prop) {A} (m : M A) :
  (∀ e, P e → Q e) → stable (extends P) m → stable (extends Q) m.
Proof.
  intros HPQ Hm w. destruct (Hm w) as (δ & Hδ & HP).
  exists δ. split; [done | by eapply Forall_impl].
Qed.

Lemma cell11_extends P :
  (∀ t r, P (EvCall (CPPrint t) r)) → stable (extends P) cell11.
Proof.
  intros HP w. unfold cell11, invoke. destruct (pprint (accuracies w) (lib w)).
  simpl. eexists. split; [done | by repeat constructor].
Qed.

(** Cell 9: [cpu_count()] is the first call, and what follows passes its
    result as [workers]. *)
Lemma cell9_events data w :
  ∃ δ, trace (cell9 data w).2 = trace w ++ δ ∧ counted δ.
Proof.
  unfold cell9.
  match goal with |- context [(?m ≫= ?k) w] => set (k0 := k) end.
  assert (Hk : ∀ n, stable (extends (setup_event n)) (k0 n)).
  { intros n. unfold k0, new_Doc2Vec, new_ConcatenatedDoc2Vec, time_, print.
    stable_with ltac:(first
      [ apply vocab_loop_setup
      | apply invoke_extends; intros ?; unfold setup_event, dbow_kwargs,
          dmm_kwargs, dmc_kwargs; by auto ]). }
  destruct (invoke CCpuCount RInt cpu_count w) as [[n|e] w1] eqn:H1.
  - rewrite (bind_run _ _ _ _ _ H1).
    destruct (Hk n w1) as (δ' & Hδ' & HP).
    apply invoke_inv in H1 as (l & _ & _ & _ & Htr).
    exists (EvCall CCpuCount (Ok (RInt n)) :: δ'). split.
    + rewrite Hδ', Htr, <- app_assoc. done.
    + right. exists n, δ'. split; [done|].
      eapply Forall_impl; [exact HP | apply setup_par].
  - rewrite (bind_fail _ _ _ _ _ H1).
    apply invoke_inv in H1 as (l & _ & _ & _ & Htr).
    eexists. split; [exact Htr|]. left. by repeat constructor.
Qed.

(** Whatever the libraries do and however far the run gets, every grid
    search is given [n_jobs=4] and every Doc2Vec is given, as [workers], the
    number that [cpu_count()] returned. *)
Lemma notebook_workers_passed (w : World) :
  ∃ δ, trace (notebook w).2 = trace w ++ δ ∧ workers_passed δ.
Proof.
  unfold notebook.
  destruct (cell1 w) as [[data|e] w1] eqn:H1.
  2:{ rewrite (bind_fail _ _ _ _ _ H1).
      apply invoke_inv in H1 as (l & _ & _ & _ & Htr).
      eexists. split; [exact Htr|].
      apply counted_passed; [done | left; constructor]. }
  rewrite (bind_run _ _ _ _ _ H1).
  apply invoke_inv in H1 as (l & _ & _ & _ & Htr1).
  destruct (cell9_events data w1) as (δ9 & Htr9 & H9).
  destruct (cell9 data w1) as [[[td mbn]|e] w2] eqn:Hc9; simpl in Htr9.
  2:{ rewrite (bind_fail _ _ _ _ _ Hc9). simpl.
      eexists (_ :: δ9).
      split; [rewrite Htr9, Htr1, <- app_assoc; done|].
      by apply counted_passed. }
  rewrite (bind_run _ _ _ _ _ Hc9).
  assert (Hrest : stable (extends (fun e => ∀ on, par on e))
                    (cell10 data td mbn ;; cell11)).
  { apply stable_bind; [apply _ | | intros _].
    - eapply extends_impl; [|apply cell10_late].
      intros e He on. by apply late_par.
    - apply cell11_extends. done. }
  destruct (Hrest w2) as (δ' & Htr' & H').
  eexists (_ :: δ9 ++ δ').
  split; [rewrite Htr', Htr9, Htr1, <- !app_assoc; done|].
  apply counted_passed; [done|]. apply counted_app; [done|].
  intros on. eapply Forall_impl; [exact H'|]. intros e He. apply He.
Qed.

End Parallelism.

(** ** Completed runs, cell by cell *)

Section CompletedRuns.
Context {L : Library}.

Ltac chain :=
  repeat match goal with
  | H1 : step ?p1 ?w ?w1, H2 : step ?p2 ?w1 ?w2 |- _ =>
      pose proof (step_trans _ _ _ _ _ H1 H2); clear H1 H2
  end.

Lemma time_Ok w t w' : time_ w = (Ok t, w') → step [] w w'.
Proof. intros H. apply invoke_step in H. exact H. Qed.

Lemma model_build_vocab_Ok m c w u w' :
  model_build_vocab m c w = (Ok u, w') → step [PVocab m] w w'.
Proof.
  unfold model_build_vocab. intros H.
  apply bind_Ok in H as (docs & w1 & Hd & H).
  apply (uniform_step _ _ _ _ (uniform_TxtCorpus_iter c)) in Hd as [Hd _].
  apply invoke_step in H. chain. assumption.
Qed.

Lemma model_train_Ok m c w u w' :
  model_train m c w = (Ok u, w') → step [PTrain m] w w'.
Proof.
  unfold model_train. intros H.
  apply bind_Ok in H as (te & w1 & H1 & H). apply read_inv in H1 as [_ ->].
  apply bind_Ok in H as (ep & w1 & H1 & H). apply read_inv in H1 as [_ ->].
  apply bind_Ok in H as (ps & w1 & Hp & H).
  apply (uniform_step _ _ _ _ (uniform_passes_over c ep)) in Hp as [Hp _].
  apply invoke_step in H. chain. assumption.
Qed.

Lemma vocab_loop_Ok ms td : ∀ acc w mbn w',
  vocab_loop ms td acc w = (Ok mbn, w') →
  step (PVocab <$> ms) w w'
  ∧ mbn = foldl (fun d m => odict_set d (str_model m) m) acc ms.
Proof.
  induction ms as [|m ms IH]; intros acc w mbn w' H; simpl in H.
  - apply ret_inv in H as [[= ->] ->]. split; [apply step_refl | done].
  - apply bind_Ok in H as (u & w1 & Hv & H). apply model_build_vocab_Ok in Hv.
    apply bind_Ok in H as (u' & w2 & Hp & H). apply write_step in Hp.
    apply IH in H as [H ->]. split; [|done]. chain. assumption.
Qed.

Lemma cell9_Ok data w td mbn w' :
  cell9 data w = (Ok (td, mbn), w') →
  ∃ n m0 m1 m2 c1 c2,
    td = TxtCorpus_init data [py "train"; py "unsupervised"]
    ∧ mbn = odict_set
              (odict_set
                 (foldl (fun d m => odict_set d (str_model m) m) [] [m0; m1; m2])
                 (py "dbow+dmm") c1)
              (py "dbow+dmc") c2
    ∧ step [PNew (dbow_kwargs n) m0; PNew (dmm_kwargs n) m1;
            PNew (dmc_kwargs n) m2; PVocab m0; PVocab m1; PVocab m2;
            PConcat [m0; m1] c1; PConcat [m0; m2] c2] w w'.
Proof.
  unfold cell9, new_Doc2Vec, new_ConcatenatedDoc2Vec. intros H.
  apply bind_Ok in H as (n & w1 & H1 & H). apply invoke_step in H1.
  apply bind_Ok in H as (m0 & w2 & H2 & H). apply invoke_step in H2.
  apply bind_Ok in H as (m1 & w3 & H3 & H). apply invoke_step in H3.
  apply bind_Ok in H as (m2 & w4 & H4 & H). apply invoke_step in H4.
  apply bind_Ok in H as (u5 & w5 & H5 & H). apply write_step in H5.
  apply bind_Ok in H as (t0 & w6 & H6 & H). apply time_Ok in H6.
  apply bind_Ok in H as (mbn0 & w7 & H7 & H).
  apply vocab_loop_Ok in H7 as [H7 ->].
  apply bind_Ok in H as (t1 & w8 & H8 & H). apply time_Ok in H8.
  apply bind_Ok in H as (u9 & w9 & H9 & H). apply write_step in H9.
  apply bind_Ok in H as (c1 & w10 & H10 & H). apply invoke_step in H10.
  apply bind_Ok in H as (c2 & w11 & H11 & H). apply invoke_step in H11.
  apply ret_inv in H as [[= -> ->] ->].
  exists n, m0, m1, m2, c1, c2. split; [done | split; [done|]].
  chain. assumption.
Qed.

Lemma accuracies_set_Ok k v w u w' :
  accuracies_set k v w = (Ok u, w') →
  reaches [] (<[k := v]> (accuracies w)) w w'.
Proof.
  intros [= _ <-]. split; [|done]. exists []. simpl. by rewrite app_nil_r.
Qed.

Lemma accuracies_get_inv k w r w' :
  accuracies_get k w = (r, w') → w' = w.
Proof. by intros [= _ <-]. Qed.

(** One round of the second loop: evaluate, record, report. *)
Lemma concat_loop_cons m rest data w w' :
  concat_loop (m :: rest) data w = (Ok tt, w') →
  ∃ s w1, reaches [PFit; PScore s] (<[str_model m := s]> (accuracies w)) w w1
          ∧ (∃ wa wb, evaluated m data wa s wb)
          ∧ concat_loop rest data w1 = (Ok tt, w').
Proof.
  simpl. intros H.
  apply bind_Ok in H as (s & w1 & He & H).
  apply train_lr_evaluate_Ok in He as [He Hev].
  apply bind_Ok in H as (u & w2 & Hs & H). apply accuracies_set_Ok in Hs.
  apply bind_Ok in H as (a & w3 & Hg & H). apply accuracies_get_inv in Hg as ->.
  apply bind_Ok in H as (u' & w3 & Hp & H). apply write_step in Hp.
  exists s, w3. split; [|split; [by eauto | done]].
  pose proof (proj2 He) as Hacc. rewrite <- Hacc.
  apply (reaches_trans _ (accuracies w) _ _ _ _ _ He).
  apply (reaches_step [] _ [] _ _ _ Hs Hp).
Qed.

(** One round of the first loop on a name that starts with "Doc2Vec":
    train, evaluate, record, report. *)
Lemma train_loop_hit name m rest td data w w' :
  startswith name (py "Doc2Vec") = true →
  train_loop ((name, m) :: rest) td data w = (Ok tt, w') →
  ∃ s w1, reaches [PTrain m; PFit; PScore s]
                  (<[str_model m := s]> (accuracies w)) w w1
          ∧ (∃ wa wb, evaluated m data wa s wb)
          ∧ train_loop rest td data w1 = (Ok tt, w').
Proof.
  simpl. intros -> H.
  apply bind_Ok in H as (u0 & w0 & Hbody & H).
  apply bind_Ok in Hbody as (u1 & w1 & H1 & Hbody). apply write_step in H1.
  apply bind_Ok in Hbody as (t0 & w2 & H2 & Hbody). apply time_Ok in H2.
  apply bind_Ok in Hbody as (u3 & w3 & H3 & Hbody). apply model_train_Ok in H3.
  apply bind_Ok in Hbody as (t1 & w4 & H4 & Hbody). apply time_Ok in H4.
  apply bind_Ok in Hbody as (u5 & w5 & H5 & Hbody). apply write_step in H5.
  apply bind_Ok in Hbody as (s & w6 & He & Hbody).
  apply train_lr_evaluate_Ok in He as [He Hev].
  apply bind_Ok in Hbody as (u & w7 & Hs & Hbody). apply accuracies_set_Ok in Hs.
  apply bind_Ok in Hbody as (a & w8 & Hg & Hbody).
  apply accuracies_get_inv in Hg as ->. apply write_step in Hbody.
  exists s, w0. destruct u0. split; [|split; [by eauto | done]].
  chain.
  match goal with S : step _ w w6 |- _ =>
    pose proof (proj2 S) as Hacc; rewrite <- Hacc;
    apply (reaches_trans _ (accuracies w) _ _ _ _ _ S)
  end.
  apply (reaches_step [] _ [] _ _ _ Hs Hbody).
Qed.

Lemma train_loop_skip name m rest td data w :
  startswith name (py "Doc2Vec") = false →
  train_loop ((name, m) :: rest) td data w = train_loop rest td data w.
Proof. simpl. by intros ->. Qed.

Lemma cell11_Ok w u w' : cell11 w = (Ok u, w') → step [PPrint] w w'.
Proof. unfold cell11. intros H. apply invoke_step in H. exact H. Qed.

End CompletedRuns.

Section WholeRun.
Context {L : Library}.

Lemma late_created δ : Forall late_event δ → created (phases δ) = [].
Proof.
  induction 1 as [|e δ He _ IH]; [done|].
  destruct e as [s|c r]; [exact IH|].
  destruct c; simpl in He; try done; try exact IH.
  destruct r as [[]|]; exact IH.
Qed.

Lemma created_app p1 p2 : created (p1 ++ p2) = created p1 ++ created p2.
Proof. apply omap_app. Qed.

Lemma models_by_name_shape m0 m1 m2 c1 c2 :
  Forall (fun m => startswith (str_model m) (py "Doc2Vec") = true) [m0; m1; m2] →
  NoDup (str_model <$> [m0; m1; m2]) →
  odict_set
    (odict_set (foldl (fun d m => odict_set d (str_model m) m) [] [m0; m1; m2])
               (py "dbow+dmm") c1)
    (py "dbow+dmc") c2
  = models_by_name_of m0 m1 m2 c1 c2.
Proof.
  intros Hpre Hnd.
  apply Forall_cons in Hpre as [H0 Hpre]. apply Forall_cons in Hpre as [H1 Hpre].
  apply Forall_cons in Hpre as [H2 _].
  apply NoDup_cons in Hnd as [N0 Hnd]. apply NoDup_cons in Hnd as [N1 _].
  assert (str_model m0 ≠ str_model m1) by (intros E; apply N0; rewrite E; left).
  assert (str_model m0 ≠ str_model m2)
    by (intros E; apply N0; rewrite E; right; left).
  assert (str_model m1 ≠ str_model m2) by (intros E; apply N1; rewrite E; left).
  assert (Hne : ∀ m k, startswith (str_model m) (py "Doc2Vec") = true →
                  startswith k (py "Doc2Vec") = false → str_model m ≠ k)
    by (intros m k Ht Hf E; rewrite E in Ht; congruence).
  pose proof (Hne m0 (py "dbow+dmm") H0 eq_refl).
  pose proof (Hne m1 (py "dbow+dmm") H1 eq_refl).
  pose proof (Hne m2 (py "dbow+dmm") H2 eq_refl).
  pose proof (Hne m0 (py "dbow+dmc") H0 eq_refl).
  pose proof (Hne m1 (py "dbow+dmc") H1 eq_refl).
  pose proof (Hne m2 (py "dbow+dmc") H2 eq_refl).
  unfold models_by_name_of. simpl.
  repeat (case_decide; [congruence|]; simpl). done.
Qed.

Lemma models_by_name_get m0 m1 m2 c1 c2 :
  Forall (fun m => startswith (str_model m) (py "Doc2Vec") = true) [m0; m1; m2] →
  odict_get (models_by_name_of m0 m1 m2 c1 c2) (py "dbow+dmm") = Ok c1
  ∧ odict_get (models_by_name_of m0 m1 m2 c1 c2) (py "dbow+dmc") = Ok c2.
Proof.
  intros Hpre.
  apply Forall_cons in Hpre as [H0 Hpre]. apply Forall_cons in Hpre as [H1 Hpre].
  apply Forall_cons in Hpre as [H2 _].
  assert (Hne : ∀ m k, startswith (str_model m) (py "Doc2Vec") = true →
                  startswith k (py "Doc2Vec") = false → str_model m ≠ k)
    by (intros m k Ht Hf E; rewrite E in Ht; congruence).
  pose proof (Hne m0 (py "dbow+dmm") H0 eq_refl).
  pose proof (Hne m1 (py "dbow+dmm") H1 eq_refl).
  pose proof (Hne m2 (py "dbow+dmm") H2 eq_refl).
  pose proof (Hne m0 (py "dbow+dmc") H0 eq_refl).
  pose proof (Hne m1 (py "dbow+dmc") H1 eq_refl).
  pose proof (Hne m2 (py "dbow+dmc") H2 eq_refl).
  unfold models_by_name_of. simpl. split.
  - repeat case_decide; congruence.
  - repeat case_decide; congruence.
Qed.

Lemma accuracies_reset_Ok w u w' :
  accuracies_reset w = (Ok u, w') → reaches [] ∅ w w'.
Proof.
  intros [= _ <-]. split; [|done]. exists []. simpl. by rewrite app_nil_r.
Qed.

(** Cell 10 on the five entries: three rounds of the first loop, two skipped
    names, two rounds of the second loop. *)
Lemma cell10_Ok data td m0 m1 m2 c1 c2 w w' :
  Forall (fun m => startswith (str_model m) (py "Doc2Vec") = true) [m0; m1; m2] →
  cell10 data td (models_by_name_of m0 m1 m2 c1 c2) w = (Ok tt, w') →
  ∃ s0 s1 s2 s3 s4,
    reaches (evaluation_phases m0 m1 m2 s0 s1 s2 s3 s4)
            (table_of m0 m1 m2 c1 c2 s0 s1 s2 s3 s4) w w'
    ∧ Forall2 (fun m s => ∃ wa wb, evaluated m data wa s wb)
              [m0; m1; m2; c1; c2] [s0; s1; s2; s3; s4].
Proof.
  intros Hpre H. destruct (models_by_name_get m0 m1 m2 c1 c2 Hpre) as [G1 G2].
  apply Forall_cons in Hpre as [H0 Hpre]. apply Forall_cons in Hpre as [H1 Hpre].
  apply Forall_cons in Hpre as [H2 _].
  unfold cell10 in H.
  apply bind_Ok in H as (u & wa & Hr & H). apply accuracies_reset_Ok in Hr.
  apply bind_Ok in H as ([] & wb & Hloop & H).
  unfold models_by_name_of in Hloop.
  apply train_loop_hit in Hloop as (s0 & w1 & R0 & E0 & Hloop); [|done].
  apply train_loop_hit in Hloop as (s1 & w2 & R1 & E1 & Hloop); [|done].
  apply train_loop_hit in Hloop as (s2 & w3 & R2 & E2 & Hloop); [|done].
  rewrite train_loop_skip in Hloop by reflexivity.
  rewrite train_loop_skip in Hloop by reflexivity.
  apply ret_inv in Hloop as [_ ->].
  apply bind_Ok in H as (d1 & wc & Hg1 & H). apply lift_inv in Hg1 as [Hg1 ->].
  apply bind_Ok in H as (d2 & wc & Hg2 & H). apply lift_inv in Hg2 as [Hg2 ->].
  rewrite G1 in Hg1. rewrite G2 in Hg2. injection Hg1 as <-. injection Hg2 as <-.
  apply concat_loop_cons in H as (s3 & w4 & R3 & E3 & H).
  apply concat_loop_cons in H as (s4 & w5 & R4 & E4 & H).
  apply ret_inv in H as [_ ->].
  exists s0, s1, s2, s3, s4. split; [|by repeat (constructor; [assumption|])].
  pose proof (proj2 Hr) as A0. rewrite A0 in R0.
  pose proof (proj2 R0) as A1. rewrite A1 in R1.
  pose proof (proj2 R1) as A2. rewrite A2 in R2.
  pose proof (proj2 R2) as A3. rewrite A3 in R3.
  pose proof (proj2 R3) as A4. rewrite A4 in R4.
  pose proof (reaches_trans _ _ _ _ _ _ _ Hr
    (reaches_trans _ _ _ _ _ _ _ R0 (reaches_trans _ _ _ _ _ _ _ R1
    (reaches_trans _ _ _ _ _ _ _ R2 (reaches_trans _ _ _ _ _ _ _ R3 R4)))))
    as R.
  exact R.
Qed.

End WholeRun.

Section WholeRunTheorems.
Context {L : Library}.


(** A completed run, once the models it created are named: the steps it
    went through, the final table, and where each score came from. *)
Lemma notebook_Ok w w' δ m0 m1 m2 c1 c2 :
  notebook w = (Ok tt, w') →
  trace w' = trace w ++ δ →
  created (phases δ) = [m0; m1; m2; c1; c2] →
  Forall (fun m => startswith (str_model m) (py "Doc2Vec") = true) [m0; m1; m2] →
  NoDup (str_model <$> [m0; m1; m2]) →
  ∃ data n s0 s1 s2 s3 s4,
    phases δ = setup_phases n m0 m1 m2 c1 c2
               ++ evaluation_phases m0 m1 m2 s0 s1 s2 s3 s4 ++ [PPrint]
    ∧ accuracies w' = table_of m0 m1 m2 c1 c2 s0 s1 s2 s3 s4
    ∧ Forall2 (fun m s => ∃ wa wb, evaluated m data wa s wb)
              [m0; m1; m2; c1; c2] [s0; s1; s2; s3; s4].
Proof.
  intros H Hδ Hc Hpre Hnd. unfold notebook in H.
  apply bind_Ok in H as (data & w1 & H1 & H).
  apply invoke_step in H1. simpl in H1.
  apply bind_Ok in H as ([td mbn] & w2 & H9 & H).
  apply cell9_Ok in H9 as (n & a0 & a1 & a2 & b1 & b2 & -> & -> & H9).
  apply bind_Ok in H as ([] & w3 & H10 & H11).
  apply cell11_Ok in H11.
  pose proof (step_trans _ _ _ _ _ H1 H9) as [(δA & HA & PA) _].
  match type of H10 with
  | cell10 ?d ?t ?mbn w2 = _ =>
      destruct (cell10_late d t mbn w2) as (δ10 & H10tr & H10late)
  end.
  rewrite H10 in H10tr. simpl in H10tr.
  destruct H11 as [(δ11 & H11tr & P11) Hacc].
  assert (Heq : δ = δA ++ δ10 ++ δ11).
  { apply (app_inv_head (trace w)).
    rewrite <- Hδ, H11tr, H10tr, HA, <- !app_assoc. done. }
  subst δ. rewrite !phases_app, !created_app, PA, P11 in Hc.
  rewrite (late_created _ H10late) in Hc. simpl in Hc.
  injection Hc as -> -> -> -> ->.
  rewrite (models_by_name_shape _ _ _ _ _ Hpre Hnd) in H10.
  apply cell10_Ok in H10 as (s0 & s1 & s2 & s3 & s4 & R & Hev); [|done].
  destruct R as [(δ10' & H10tr' & P10) Htab].
  assert (δ10' = δ10) as ->.
  { apply (app_inv_head (trace w2)). by rewrite <- H10tr, H10tr'. }
  exists data, n, s0, s1, s2, s3, s4. split; [|split; [|done]].
  - rewrite !phases_app, PA, P10, P11. done.
  - by rewrite Hacc.
Qed.


(** C5, as the code has it.  A full run goes through these steps, each
    completing before the next begins: the dataset is loaded; the three
    models are created; each builds its vocabulary from a pass over the
    corpus; the two concatenations are created; then each of the three
    models in turn is trained and at once a classifier is fitted and scored
    on it; then a classifier is fitted and scored on each concatenation; and
    the table is printed.  Here [m0], [m1], [m2], [c1], [c2] are the models
    the run created, in creation order; as with gensim, the descriptions of
    the first three start with "Doc2Vec" and differ. *)
Theorem pipeline_order w w' δ m0 m1 m2 c1 c2 :
  notebook w = (Ok tt, w') →
  trace w' = trace w ++ δ →
  created (phases δ) = [m0; m1; m2; c1; c2] →
  Forall (fun m => startswith (str_model m) (py "Doc2Vec") = true) [m0; m1; m2] →
  NoDup (str_model <$> [m0; m1; m2]) →
  ∃ n s0 s1 s2 s3 s4,
    phases δ =
      [PLoad;
       PNew (dbow_kwargs n) m0; PNew (dmm_kwargs n) m1; PNew (dmc_kwargs n) m2;
       PVocab m0; PVocab m1; PVocab m2;
       PConcat [m0; m1] c1; PConcat [m0; m2] c2;
       PTrain m0; PFit; PScore s0;
       PTrain m1; PFit; PScore s1;
       PTrain m2; PFit; PScore s2;
       PFit; PScore s3;
       PFit; PScore s4;
       PPrint].
Proof.
  intros H Hδ Hc Hpre Hnd.
  destruct (notebook_Ok _ _ _ _ _ _ _ _ H Hδ Hc Hpre Hnd)
    as (data & n & s0 & s1 & s2 & s3 & s4 & Hph & _).
  exists n, s0, s1, s2, s3, s4. exact Hph.
Qed.

End WholeRunTheorems.

(** ** The run against the small library *)

Lemma toy_completes : @notebook Toy.library (Toy.boot None) = (Ok tt, ToyRun.final).
Proof. unfold ToyRun.final. apply run_Ok_eq. vm_compute. reflexivity. Qed.

Lemma toy_from_boot (δ : list (@event Toy.library)) :
  δ = trace (Toy.boot None) ++ δ.
Proof. reflexivity. Qed.

Lemma toy_models :
  @created Toy.library (phases (trace ToyRun.final))
  = [ToyRun.m0; ToyRun.m1; ToyRun.m2; ToyRun.c1; ToyRun.c2].
Proof. vm_compute. reflexivity. Qed.

(** The descriptions are those the notebook printed. *)
Lemma toy_descriptions :
  @str_model Toy.library <$> [ToyRun.m0; ToyRun.m1; ToyRun.m2; ToyRun.c1]
  = [ py "Doc2Vec(dbow,d100,n5,mc2,t8)";
      py "Doc2Vec(" ++ [34] ++ py "alpha=0.05" ++ [34]
        ++ py ",dm/m,d100,n5,w10,mc2,t8)";
      py "Doc2Vec(dm/c,d100,n5,w5,mc2,t8)";
      py "Doc2Vec(dbow,d100,n5,mc2,t8)+Doc2Vec(" ++ [34] ++ py "alpha=0.05"
        ++ [34] ++ py ",dm/m,d100,n5,w10,mc2,t8)" ].
Proof. vm_compute. reflexivity. Qed.

Lemma toy_prefixed :
  Forall (fun m => startswith (@str_model Toy.library m) (py "Doc2Vec") = true)
         [ToyRun.m0; ToyRun.m1; ToyRun.m2].
Proof. repeat constructor; vm_compute; reflexivity. Qed.


Lemma toy_distinct3 :
  NoDup (@str_model Toy.library <$> [ToyRun.m0; ToyRun.m1; ToyRun.m2]).
Proof. apply (bool_decide_unpack _). vm_compute. exact I. Qed.

(** ** Runs that raise *)

Section Failures.
Context {L : Library}.

Lemma same_table_run {A} (m : M A) w r w' :
  stable same_table m → m w = (r, w') → accuracies w' = accuracies w.
Proof. intros Hm H. specialize (Hm w). by rewrite H in Hm. Qed.

Lemma load_loop_fail m part lines : ∀ i X Y w j e,
  (j < length lines)%nat →
  (∀ k, (k < j)%nat →
        ∃ v, docvecs_getitem (lib w) m (tag_of part (i + k)) = Ok v) →
  docvecs_getitem (lib w) m (tag_of part (i + j)) = Raise e →
  load_loop m part i lines X Y w = (Raise e, w).
Proof.
  induction lines as [|line rest IH]; intros i X Y w j e Hj Hbefore Hfail;
    simpl in *; [lia|].
  destruct j as [|j].
  - rewrite Nat.add_0_r in Hfail. apply bind_fail. unfold read. by rewrite Hfail.
  - destruct (Hbefore 0%nat) as [v Hv]; [lia|]. rewrite Nat.add_0_r in Hv.
    rewrite (bind_run _ _ w v w); [|unfold read; by rewrite Hv].
    apply (IH (S i) _ _ w j e); [lia | |].
    + intros k Hk. destruct (Hbefore (S k)) as [u Hu]; [lia|].
      exists u. by rewrite Nat.add_succ_r in Hu.
    + by rewrite Nat.add_succ_r in Hfail.
Qed.

Lemma load_from_model_fail m ds part lines w j e :
  ds !! part = Some lines →
  (j < length lines)%nat →
  (∀ k, (k < j)%nat → ∃ v, docvecs_getitem (lib w) m (tag_of part k) = Ok v) →
  docvecs_getitem (lib w) m (tag_of part j) = Raise e →
  load_from_model m ds part w = (Raise e, w).
Proof.
  intros Hp Hj Hbefore Hfail. unfold load_from_model.
  rewrite (bind_run _ _ w lines w); [|unfold lift, getitem; by rewrite Hp].
  apply bind_fail. by apply (load_loop_fail m part lines 0%nat [] [] w j e).
Qed.

Lemma train_lr_evaluate_fail m data w e w1 :
  load_from_model m data (py "train")
    (emit [EvWrite (py "Evaluating " ++ str_model m ++ [NL])] w)
  = (Raise e, w1) →
  train_lr_evaluate m data w = (Raise e, w1).
Proof.
  intros H. unfold train_lr_evaluate.
  erewrite bind_run; [|reflexivity]. by apply bind_fail.
Qed.

(** Recording a score and reading it back cannot raise. *)
Lemma record_run {B} k v (K : Float → M B) w :
  (accuracies_set k v ≫= fun _ => accuracies_get k ≫= K) w
  = K v {| lib := lib w; trace := trace w;
           accuracies := <[k := v]> (accuracies w) |}.
Proof.
  erewrite bind_run; [|reflexivity].
  erewrite bind_run; [reflexivity|].
  unfold accuracies_get, getitem. simpl. by rewrite lookup_insert_eq.
Qed.

Lemma write_run {B} s (K : unit → M B) w :
  (write s ≫= K) w = K tt (emit [EvWrite s] w).
Proof. by erewrite bind_run. Qed.

Lemma concat_loop_Raise ms data : ∀ w e w',
  concat_loop ms data w = (Raise e, w') →
  ∃ done m rest w0,
    ms = done ++ m :: rest
    ∧ concat_loop done data w = (Ok tt, w0)
    ∧ train_lr_evaluate m data w0 = (Raise e, w')
    ∧ accuracies w' = accuracies w0.
Proof.
  induction ms as [|m ms IH]; intros w e w' H; simpl in H.
  - by apply ret_inv in H as [[=] _].
  - apply bind_Raise in H as [H | (s & w1 & Hs & H)].
    + exists [], m, ms, w. repeat split; [done|].
      by apply (same_table_run _ _ _ _ (train_lr_evaluate_same_table m data)) in H.
    + rewrite record_run in H. unfold print in H. rewrite write_run in H.
      apply IH in H as (done & m' & rest & w0 & -> & Hdone & Hfail & Hacc).
      exists (m :: done), m', rest, w0. repeat split; [|done..].
      simpl. rewrite (bind_run _ _ _ _ _ Hs), record_run.
      unfold print. by rewrite write_run.
Qed.

(** A round of the first loop that raises leaves the table as it found it. *)
Lemma train_round_Raise name m td data w e w' :
  (if startswith name (py "Doc2Vec") then
     print_noend (py "Training " ++ name ++ py "... ");;
     start ← time_;
     model_train m td;;
     now ← time_;
     print (py "finished in " ++ str_float (float_sub now start)
            ++ py " seconds");;
     score ← train_lr_evaluate m data;
     accuracies_set (str_model m) score;;
     a ← accuracies_get (str_model m);
     print (py "Accuracy: " ++ str_float a ++ py " " ++ [NL])
   else ret tt) w = (Raise e, w') →
  accuracies w' = accuracies w.
Proof.
  destruct (startswith name (py "Doc2Vec")); [|by intros [[=] _]%ret_inv].
  unfold print_noend, print. rewrite write_run. intros H.
  apply bind_Raise in H as [H | (t0 & w1 & H0 & H)].
  { by apply (same_table_run _ _ _ _ (invoke_same_table _ _ _)) in H. }
  apply (same_table_run _ _ _ _ (invoke_same_table _ _ _)) in H0. simpl in H0.
  apply bind_Raise in H as [H | (u & w2 & H1 & H)].
  { apply (same_table_run _ _ _ _ (model_train_same_table _ _)) in H. congruence. }
  apply (same_table_run _ _ _ _ (model_train_same_table _ _)) in H1.
  apply bind_Raise in H as [H | (t1 & w3 & H2 & H)].
  { apply (same_table_run _ _ _ _ (invoke_same_table _ _ _)) in H. congruence. }
  apply (same_table_run _ _ _ _ (invoke_same_table _ _ _)) in H2.
  rewrite write_run in H.
  apply bind_Raise in H as [H | (s & w4 & H3 & H)].
  { apply (same_table_run _ _ _ _ (train_lr_evaluate_same_table _ _)) in H.
    simpl in H. congruence. }
  rewrite record_run in H. by inversion H.
Qed.

Lemma train_loop_Raise its td data : ∀ w e w',
  train_loop its td data w = (Raise e, w') →
  ∃ done name m rest w0,
    its = done ++ (name, m) :: rest
    ∧ train_loop done td data w = (Ok tt, w0)
    ∧ accuracies w' = accuracies w0.
Proof.
  induction its as [|[name m] its IH]; intros w e w' H; simpl in H.
  - by apply ret_inv in H as [[=] _].
  - apply bind_Raise in H as [H | ([] & w1 & Hround & H)].
    + exists [], name, m, its, w. repeat split.
      by apply train_round_Raise in H.
    + apply IH in H as (done & name' & m' & rest & w0 & -> & Hdone & Hacc).
      exists ((name, m) :: done), name', m', rest, w0. repeat split; [|done].
      simpl. by rewrite (bind_run _ _ _ _ _ Hround).
Qed.

End Failures.

Section Propagation.
Context {L : Library}.

Lemma propagates_ret {A} (a : A) : propagates (ret a).
Proof. intros w. exists []. simpl. by rewrite app_nil_r. Qed.

Lemma propagates_lift {A} (r : result A) : propagates (lift r).
Proof.
  intros w. exists []. simpl. rewrite app_nil_r. split; [done|].
  destruct r; [constructor | left; constructor].
Qed.

Lemma propagates_read {A} (f : Lib → result A) : propagates (read f).
Proof.
  intros w. exists []. simpl. rewrite app_nil_r. split; [done|].
  destruct (f (lib w)); [constructor | left; constructor].
Qed.

Lemma propagates_write s : propagates (write s).
Proof. intros w. exists [EvWrite s]. split; [done | by repeat constructor]. Qed.

Lemma propagates_invoke {A} c (inj : A → value) f : propagates (invoke c inj f).
Proof.
  intros w. unfold invoke. destruct (f (lib w)) as [[a|e] l]; simpl.
  - eexists. split; [done | by repeat constructor].
  - eexists. split; [done|]. right. exists [], c. split; [done | constructor].
Qed.

Lemma propagates_accuracies_set k v : propagates (accuracies_set k v).
Proof. intros w. exists []. simpl. by rewrite app_nil_r. Qed.

Lemma propagates_accuracies_reset : propagates accuracies_reset.
Proof. intros w. exists []. simpl. by rewrite app_nil_r. Qed.

Lemma propagates_accuracies_get k : propagates (accuracies_get k).
Proof.
  intros w. exists []. simpl. rewrite app_nil_r. split; [done|].
  destruct (getitem (accuracies w) k); [constructor | left; constructor].
Qed.

Lemma propagates_bind {A B} (m : M A) (k : A → M B) :
  propagates m → (∀ a, propagates (k a)) → propagates (m ≫= k).
Proof.
  intros Hm Hk w. destruct (Hm w) as (δ1 & H1 & U1).
  unfold mbind, M_bind, bind. destruct (m w) as [[a|e] w1]; simpl in *.
  - destruct (Hk a w1) as (δ2 & H2 & U2). exists (δ1 ++ δ2).
    split; [by rewrite H2, H1, app_assoc|].
    destruct (k a w1).1 as [b|e].
    + by apply Forall_app.
    + destruct U2 as [U2 | (δ0 & c & -> & U2)].
      * left. by apply Forall_app.
      * right. exists (δ1 ++ δ0), c. rewrite app_assoc.
        split; [done | by apply Forall_app].
  - by exists δ1.
Qed.

Lemma propagates_if {A} (b : bool) (m1 m2 : M A) :
  propagates m1 → propagates m2 → propagates (if b then m1 else m2).
Proof. by destruct b. Qed.

Lemma propagates_uniform {A} (m : M A) : uniform m → propagates m.
Proof.
  intros (r & δ & Hδ & Hrun) w. rewrite Hrun. exists δ. split; [done|].
  assert (Forall returned δ).
  { eapply Forall_impl; [exact Hδ|]. by intros [s|c r0]. }
  destruct r; [done | by left].
Qed.

Ltac propagates_with known :=
  repeat first
    [ known
    | apply propagates_ret | apply propagates_lift | apply propagates_read
    | apply propagates_write | apply propagates_invoke
    | apply propagates_accuracies_set | apply propagates_accuracies_get
    | apply propagates_accuracies_reset
    | apply propagates_if
    | apply propagates_bind; [| intros ?]
    | match goal with |- propagates (let '(_, _) := ?x in _) => destruct x end ].

Lemma propagates_load_from_model m ds part : propagates (load_from_model m ds part).
Proof.
  assert (Hloop : ∀ lines i X Y, propagates (load_loop m part i lines X Y)).
  { induction lines as [|line rest IH]; intros i X Y; simpl;
      propagates_with ltac:(apply IH). }
  unfold load_from_model. propagates_with ltac:(apply Hloop).
Qed.

Lemma propagates_infer_from_model m ds part :
  propagates (infer_from_model m ds part).
Proof.
  assert (Hloop : ∀ lines X Y, propagates (infer_loop m lines X Y)).
  { induction lines as [|line rest IH]; intros X Y; simpl;
      propagates_with ltac:(apply IH). }
  unfold infer_from_model. propagates_with ltac:(apply Hloop).
Qed.

Lemma propagates_train_lr_evaluate m data : propagates (train_lr_evaluate m data).
Proof.
  unfold train_lr_evaluate, time_, print, print_noend.
  propagates_with ltac:(first [ apply propagates_load_from_model
                              | apply propagates_infer_from_model ]).
Qed.

Lemma propagates_model_train m c : propagates (model_train m c).
Proof.
  unfold model_train.
  propagates_with ltac:(apply propagates_uniform, uniform_passes_over).
Qed.

Lemma propagates_cell9 data : propagates (cell9 data).
Proof.
  assert (Hloop : ∀ ms td acc, propagates (vocab_loop ms td acc)).
  { induction ms as [|m ms IH]; intros td acc; simpl;
      unfold model_build_vocab, print;
      propagates_with ltac:(first
        [ apply IH | apply propagates_uniform, uniform_TxtCorpus_iter ]). }
  unfold cell9, new_Doc2Vec, new_ConcatenatedDoc2Vec, time_, print.
  propagates_with ltac:(apply Hloop).
Qed.

Lemma propagates_cell10 data td mbn : propagates (cell10 data td mbn).
Proof.
  assert (H1 : ∀ its, propagates (train_loop its td data)).
  { induction its as [|[name m] its IH]; simpl;
      unfold time_, print, print_noend;
      propagates_with ltac:(first
        [ apply propagates_model_train | apply propagates_train_lr_evaluate
        | apply IH ]). }
  assert (H2 : ∀ ms, propagates (concat_loop ms data)).
  { induction ms as [|m ms IH]; simpl; unfold print;
      propagates_with ltac:(first
        [apply propagates_train_lr_evaluate | apply IH]). }
  unfold cell10. propagates_with ltac:(first [apply H1 | apply H2]).
Qed.

Lemma propagates_notebook : propagates notebook.
Proof.
  unfold notebook, cell1.
  propagates_with ltac:(first
    [ apply propagates_cell9 | apply propagates_cell10 ]).
  intros w. unfold cell11. apply propagates_invoke.
Qed.

(** A raising event among events that returned can only be the last one. *)
Lemma raised_last (δ1 δ2 δ0 : list event) x y :
  ¬ returned x → Forall returned δ0 →
  δ1 ++ x :: δ2 = δ0 ++ [y] → δ2 = [] ∧ x = y.
Proof.
  revert δ0. induction δ1 as [|a δ1 IH]; intros [|b δ0] Hx H0 Heq; simpl in Heq.
  - by injection Heq as -> <-.
  - injection Heq as -> Heq. by apply Forall_cons in H0 as [? _].
  - injection Heq as -> Heq. by destruct δ1.
  - injection Heq as -> Heq. apply Forall_cons in H0 as [_ H0]. by eapply IH.
Qed.

End Propagation.

Section FailureTheorems.
Context {L : Library}.

(** C6.  Nothing is caught.  In every run of the notebook a library call
    that raised is the last thing the run did, and the run raises that
    exception.  The first document-vector lookup that raises
    makes [load_from_model] raise that exception with the world untouched;
    [train_lr_evaluate] passes it on and never writes to the accuracy
    table; a loop of cell 10 that raises stops at the round that raised,
    with the table as the completed rounds left it; and the notebook raises
    what cell 10 raised. *)
Theorem exceptions_propagate :
  (∀ w δ1 c e δ2,
     trace (notebook w).2 = trace w ++ δ1 ++ EvCall c (Raise e) :: δ2 →
     δ2 = [] ∧ (notebook w).1 = Raise e)
  ∧ (∀ m (ds : dataset) part lines w j e,
     ds !! part = Some lines → (j < length lines)%nat →
     (∀ k, (k < j)%nat →
           ∃ v, docvecs_getitem (lib w) m (tag_of part k) = Ok v) →
     docvecs_getitem (lib w) m (tag_of part j) = Raise e →
     load_from_model m ds part w = (Raise e, w))
  ∧ (∀ m data w e w1,
       load_from_model m data (py "train")
         (emit [EvWrite (py "Evaluating " ++ str_model m ++ [NL])] w)
       = (Raise e, w1) →
       train_lr_evaluate m data w = (Raise e, w1))
  ∧ (∀ m data w, accuracies (train_lr_evaluate m data w).2 = accuracies w)
  ∧ (∀ ms data w e w',
       concat_loop ms data w = (Raise e, w') →
       ∃ done m rest w0,
         ms = done ++ m :: rest
         ∧ concat_loop done data w = (Ok tt, w0)
         ∧ train_lr_evaluate m data w0 = (Raise e, w')
         ∧ accuracies w' = accuracies w0)
  ∧ (∀ its td data w e w',
       train_loop its td data w = (Raise e, w') →
       ∃ done name m rest w0,
         its = done ++ (name, m) :: rest
         ∧ train_loop done td data w = (Ok tt, w0)
         ∧ accuracies w' = accuracies w0)
  ∧ (∀ w data w1 td mbn w2 e w3,
       cell1 w = (Ok data, w1) →
       cell9 data w1 = (Ok (td, mbn), w2) →
       cell10 data td mbn w2 = (Raise e, w3) →
       notebook w = (Raise e, w3)).
Proof.
  split; [|split; [|split; [|split; [|split; [|split]]]]].
  - intros w δ1 c e δ2 Htr.
    destruct (propagates_notebook w) as (δ & Hδ & Hun).
    rewrite Hδ in Htr. apply app_inv_head in Htr. subst δ.
    assert (Hx : ¬ returned (EvCall c (Raise e))) by (by intros []).
    assert (Hno : ¬ Forall returned (δ1 ++ EvCall c (Raise e) :: δ2)).
    { intros Hall. apply Forall_app in Hall as [_ Hall].
      by apply Forall_cons in Hall as [? _]. }
    destruct (notebook w).1 as [a|e']; simpl in Hun; [done|].
    destruct Hun as [Hun | (δ0 & c' & Heq & H0)]; [done|].
    destruct (raised_last _ _ _ _ _ Hx H0 Heq) as [-> [= -> ->]]. done.
  - intros m ds part lines w j e. apply load_from_model_fail.
  - intros m data w e w1. apply train_lr_evaluate_fail.
  - intros m data w. apply train_lr_evaluate_same_table.
  - intros ms data. apply concat_loop_Raise.
  - intros its td data. apply train_loop_Raise.
  - intros w data w1 td mbn w2 e w3 H1 H9 H10. unfold notebook.
    rewrite (bind_run _ _ _ _ _ H1), (bind_run _ _ _ _ _ H9).
    by apply bind_fail.
Qed.

End FailureTheorems.

#[local] Existing Instance Toy.library.

(** The test reviews are not in the training corpus, so the first model has
    no vector for [test-0]: the lookup raises [KeyError] and so does
    [load_from_model], in the same world. *)
Lemma exceptions_propagate_witness :
  @load_from_model Toy.library Toy.dbow Toy.imdb (py "test") Toy.vocab_built
  = (Raise (KeyError (py "test-0")), Toy.vocab_built).
Proof.
  apply (proj1 (proj2 (exceptions_propagate (L := Toy.library)))
           Toy.dbow Toy.imdb (py "test")
           [ {| text := Utf8.ascii_bytes " Not   bad <br/>"; label := 1 |} ]
           Toy.vocab_built 0%nat (KeyError (py "test-0"))).
  - vm_compute. reflexivity.
  - simpl. lia.
  - intros k Hk. lia.
  - vm_compute. reflexivity.
Defined.


Lemma pipeline_order_witness :
  ∃ n s0 s1 s2 s3 s4,
    @phases Toy.library (trace ToyRun.final) =
      [PLoad;
       PNew (dbow_kwargs n) ToyRun.m0; PNew (dmm_kwargs n) ToyRun.m1;
       PNew (dmc_kwargs n) ToyRun.m2;
       PVocab ToyRun.m0; PVocab ToyRun.m1; PVocab ToyRun.m2;
       PConcat [ToyRun.m0; ToyRun.m1] ToyRun.c1;
       PConcat [ToyRun.m0; ToyRun.m2] ToyRun.c2;
       PTrain ToyRun.m0; PFit; PScore s0;
       PTrain ToyRun.m1; PFit; PScore s1;
       PTrain ToyRun.m2; PFit; PScore s2;
       PFit; PScore s3;
       PFit; PScore s4;
       PPrint].
Proof.
  exact (pipeline_order (L := Toy.library) _ _ _ _ _ _ _ _
           toy_completes (toy_from_boot _) toy_models
           toy_prefixed toy_distinct3).
Defined.

(** C5, as stated, fails on the full run against the small library: the
    concatenations are created before any model is trained, and the first
    classifier is fitted and scored before the second model is trained. *)
Lemma pipeline_order_counterexample :
  @notebook Toy.library (Toy.boot None) = (Ok tt, ToyRun.final)
  ∧ stages (trace ToyRun.final)
    = [0; 1; 1; 1; 3; 3; 2; 4; 4; 2; 4; 4; 2; 4; 4; 4; 4; 4; 4; 5]%nat
  ∧ ¬ in_claimed_order (trace ToyRun.final).
Proof.
  assert (H : stages (trace ToyRun.final)
              = [0; 1; 1; 1; 3; 3; 2; 4; 4; 2; 4; 4; 2; 4; 4; 4; 4; 4; 4; 5]%nat)
    by (vm_compute; reflexivity).
  split; [exact toy_completes | split; [exact H|]].
  unfold in_claimed_order. rewrite H. vm_compute. discriminate.
Qed.

(** * Further properties *)

(** ** More on tokenisation *)

Section TokenizeMore.

Lemma flush_concat tok : concat (flush tok) = tok.
Proof. destruct tok; simpl; [done | by rewrite app_nil_r]. Qed.

Lemma split_from_concat s : ∀ tok,
  concat (split_from tok s) = tok ++ filter visible s.
Proof.
  induction s as [|c r IH]; intros tok; simpl.
  - by rewrite flush_concat, app_nil_r.
  - destruct (isspace c) eqn:Hc.
    + rewrite concat_app, flush_concat, IH. simpl.
      rewrite filter_cons_False; [done|]. unfold visible. by rewrite Hc.
    + rewrite IH, filter_cons_True by done. by rewrite <- app_assoc.
Qed.

Lemma split_from_blank_tok ws tok :
  Forall (fun c => isspace c = true) ws → split_from tok ws = flush tok.
Proof.
  intros H. destruct H as [|c ws Hc Hws]; simpl; [done|].
  rewrite Hc, (split_from_blank ws Hws). apply app_nil_r.
Qed.

Lemma split_from_blank_tail ws a : ∀ tok,
  Forall (fun c => isspace c = true) ws →
  split_from tok (a ++ ws) = split_from tok a.
Proof.
  induction a as [|c a IH]; intros tok Hws; simpl.
  - by apply split_from_blank_tok.
  - destruct (isspace c); by rewrite IH.
Qed.

Lemma split_from_space a c x : ∀ tok,
  isspace c = true →
  split_from tok (a ++ c :: x) = split_from tok a ++ split_from [] x.
Proof.
  induction a as [|d a IH]; intros tok Hc; simpl.
  - by rewrite Hc.
  - destruct (isspace d); rewrite IH by done; [by rewrite app_assoc | done].
Qed.

Lemma lstrip_prefix s :
  ∃ p, s = p ++ lstrip s ∧ Forall (fun c => isspace c = true) p.
Proof.
  induction s as [|c r (p & Hp & Hws)]; simpl; [by exists []|].
  destruct (isspace c) eqn:Hc.
  - exists (c :: p). split; [simpl; by rewrite <- Hp | by constructor].
  - by exists [].
Qed.

Lemma strip_infix s :
  ∃ p q, s = p ++ strip s ++ q
         ∧ Forall (fun c => isspace c = true) p
         ∧ Forall (fun c => isspace c = true) q.
Proof.
  unfold strip. destruct (lstrip_prefix s) as (p & Hp & Hpw).
  destruct (lstrip_prefix (reverse (lstrip s))) as (q & Hq & Hqw).
  exists p, (reverse q). split; [|split; [done | by apply Forall_reverse]].
  rewrite <- reverse_app, <- Hq, reverse_involutive. exact Hp.
Qed.

Lemma split_lstrip s : split_from [] (lstrip s) = split_from [] s.
Proof.
  induction s as [|c r IH]; simpl; [done|].
  destruct (isspace c) eqn:Hc; [done|]. simpl. by rewrite Hc.
Qed.

Lemma split_strip s : split (strip s) = split s.
Proof.
  unfold split. destruct (strip_infix s) as (p & q & Hs & Hp & Hq).
  rewrite <- (split_lstrip s).
  destruct (lstrip_prefix s) as (p' & Hp' & _).
  unfold strip in *.
  destruct (lstrip_prefix (reverse (lstrip s))) as (q' & Hq' & Hqw).
  assert (Hl : lstrip s = reverse (lstrip (reverse (lstrip s))) ++ reverse q').
  { by rewrite <- reverse_app, <- Hq', reverse_involutive. }
  rewrite Hl at 2. rewrite split_from_blank_tail; [done|].
  by apply Forall_reverse.
Qed.

Lemma split_sub_spaces s :
  (∀ tok, split_from tok (Regex.sub_spaces false s) = split_from tok s)
  ∧ split_from [] (Regex.sub_spaces true s) = split_from [] s.
Proof.
  induction s as [|c r [IHf IHt]]; [done|]. simpl.
  destruct (c =? SP) eqn:E.
  - apply N.eqb_eq in E as ->. change (isspace SP) with true. simpl.
    split; [intros tok|]; simpl; by rewrite IHt.
  - split; [intros tok|]; simpl; destruct (isspace c); by rewrite ?IHf.
Qed.

Lemma sub_tags_plain a x :
  LT ∉ a → Regex.sub_tags false (a ++ x) = a ++ Regex.sub_tags false x.
Proof.
  induction a as [|c a IH]; intros Ha; [done|].
  apply not_elem_of_cons in Ha as [Hc Ha]. simpl.
  destruct (c =? LT) eqn:E; [apply N.eqb_eq in E; congruence|].
  simpl. by rewrite IH.
Qed.

Lemma tokenize_text_eq text :
  tokenize_text text = split (Regex.sub_tags false text).
Proof.
  unfold tokenize_text, to_unicode. rewrite split_strip. unfold split.
  apply (proj1 (split_sub_spaces _)).
Qed.

Lemma closes_app r b : Regex.closes r = true → Regex.closes (r ++ b) = true.
Proof.
  induction r as [|c r IH]; simpl; [done|].
  destruct (c =? GT); [done|]. destruct (c =? NL); [done | exact IH].
Qed.

Lemma closes_hit mid post : NL ∉ mid → Regex.closes (mid ++ GT :: post) = true.
Proof.
  induction mid as [|c mid IH]; intros Hm; simpl; [done|].
  apply not_elem_of_cons in Hm as [Hc Hm].
  destruct (c =? GT); [done|].
  destruct (c =? NL) eqn:E; [apply N.eqb_eq in E; congruence | by apply IH].
Qed.

Lemma closes_sub_tags r :
  Regex.closes r = false → Regex.closes (Regex.sub_tags false r) = false.
Proof.
  induction r as [|c r IH]; simpl; [done|].
  destruct (c =? GT) eqn:Eg; [done|].
  destruct (c =? NL) eqn:En.
  - intros _. apply N.eqb_eq in En as ->. done.
  - intros Hr. rewrite Hr, andb_false_r. simpl. rewrite Eg, En. by apply IH.
Qed.

Lemma closes_sub_spaces r : ∀ b,
  Regex.closes (Regex.sub_spaces b r) = Regex.closes r.
Proof.
  induction r as [|c r IH]; intros b; simpl; [done|].
  destruct (c =? SP) eqn:E.
  - apply N.eqb_eq in E as ->. destruct b; simpl; apply IH.
  - simpl. by rewrite IH.
Qed.

Lemma notag_app_r a b : notag (a ++ b) = true → notag b = true.
Proof.
  induction a as [|c a IH]; simpl; [done|].
  intros [_ H]%andb_true_iff. by apply IH.
Qed.

Lemma notag_app_l a b : notag (a ++ b) = true → notag a = true.
Proof.
  induction a as [|c a IH]; simpl; [done|].
  intros [Hc H]%andb_true_iff. apply andb_true_iff. split; [|by apply IH].
  destruct (c =? LT); [|done].
  destruct (Regex.closes a) eqn:Ha; [|done].
  by rewrite (closes_app _ _ Ha) in Hc.
Qed.

Lemma notag_sub_tags s : ∀ inside, notag (Regex.sub_tags inside s) = true.
Proof.
  induction s as [|c r IH]; intros inside; simpl; [done|].
  destruct inside.
  - destruct (c =? GT); apply IH.
  - destruct (c =? LT) eqn:E; simpl.
    + destruct (Regex.closes r) eqn:Hr; simpl; [apply IH|].
      rewrite E, (closes_sub_tags _ Hr). simpl. apply IH.
    + rewrite E. simpl. apply IH.
Qed.

Lemma notag_sub_spaces s : ∀ b,
  notag s = true → notag (Regex.sub_spaces b s) = true.
Proof.
  induction s as [|c r IH]; intros b; simpl; [done|].
  intros [Hc H]%andb_true_iff.
  destruct (c =? SP) eqn:E.
  - destruct b; simpl; by apply IH.
  - simpl. rewrite closes_sub_spaces, Hc. simpl. by apply IH.
Qed.

Lemma split_from_infix s : ∀ tok t,
  t ∈ split_from tok s → ∃ a b, tok ++ s = a ++ t ++ b.
Proof.
  induction s as [|c r IH]; intros tok t Ht; simpl in Ht.
  - destruct tok as [|x tok]; simpl in Ht; [by apply elem_of_nil in Ht|].
    apply list_elem_of_singleton in Ht as ->. exists [], []. by rewrite !app_nil_r.
  - destruct (isspace c).
    + apply elem_of_app in Ht as [Ht | Ht].
      * destruct tok as [|x tok]; simpl in Ht; [by apply elem_of_nil in Ht|].
        apply list_elem_of_singleton in Ht as ->. by exists [], (c :: r).
      * apply IH in Ht as (a & b & Hab). simpl in Hab.
        exists (tok ++ c :: a), b. rewrite Hab, <- app_assoc. done.
    + apply IH in Ht as (a & b & Hab). exists a, b.
      rewrite <- Hab, <- app_assoc. done.
Qed.

End TokenizeMore.

(** X1.  The two middle steps of [tokenize_text] never change its result:
    the tokens are the whitespace split of the text in which every matched
    tag is replaced by a newline, and for a text without ['<'] they are
    simply [text.split()]. *)
Theorem tokenize_text_split (text : pystr) :
  tokenize_text text = split (Regex.sub_tags false text)
  ∧ (LT ∉ text → tokenize_text text = split text).
Proof.
  split; [apply tokenize_text_eq|]. intros Hlt. rewrite tokenize_text_eq.
  rewrite <- (app_nil_r text) at 1. by rewrite sub_tags_plain, app_nil_r.
Qed.

Lemma tokenize_text_split_witness :
  tokenize_text (py "  plain   words" ++ [NL; 9] ++ py "only ")
  = split (py "  plain   words" ++ [NL; 9] ++ py "only ").
Proof.
  apply (proj2 (tokenize_text_split _)).
  apply (bool_decide_unpack _). vm_compute. exact I.
Defined.

(** X2.  Tokenising loses nothing but whitespace and matched tags, and
    reorders nothing: the tokens, concatenated, are the code points of the
    tag-substituted text that are not whitespace, in order. *)
Theorem tokenize_text_content (text : pystr) :
  concat (tokenize_text text) = filter visible (Regex.sub_tags false text).
Proof.
  rewrite tokenize_text_eq. unfold split. by rewrite split_from_concat.
Qed.

(** X3.  No token keeps a complete tag: within a token a ['<'] is never
    followed by a ['>']. *)
Theorem tokenize_text_no_tag (text t : pystr) :
  t ∈ tokenize_text text → ¬ has_tag t.
Proof.
  intros Ht (pre & mid & post & ->).
  assert (Htok : is_token (pre ++ LT :: mid ++ GT :: post)).
  { assert (H : Forall is_token (tokenize_text text)).
    { unfold tokenize_text, to_unicode, split. apply split_from_tokens. constructor. }
    rewrite Forall_forall in H. by apply H. }
  assert (Hnl : NL ∉ mid).
  { destruct Htok as [_ Hv]. intros Hin.
    rewrite Forall_forall in Hv. specialize (Hv NL). simpl in Hv.
    assert (isspace NL = false); [|done].
    apply Hv. apply elem_of_app. right. right. apply elem_of_app. by left. }
  unfold tokenize_text, to_unicode, split in Ht.
  apply split_from_infix in Ht as (a & b & Hab). simpl in Hab.
  destruct (strip_infix (Regex.sub_spaces false (Regex.sub_tags false text)))
    as (p & q & Hs & _ & _).
  pose proof (notag_sub_spaces _ false (notag_sub_tags text false)) as Hn.
  rewrite Hs in Hn. apply notag_app_r, notag_app_l in Hn.
  rewrite Hab in Hn. apply notag_app_r, notag_app_l, notag_app_r in Hn.
  simpl in Hn. rewrite (closes_hit _ _ Hnl) in Hn. done.
Qed.

Lemma tokenize_text_no_tag_witness :
  ¬ has_tag (py "<it").
Proof.
  apply (tokenize_text_no_tag
           (py "Loved <it" ++ [NL] ++ py "> <b>a</b>") (py "<it")).
  apply (bool_decide_unpack _). vm_compute. exact I.
Defined.

(** X4.  A tag written on one line separates words: when the text before it
    has no ['<'], the tokens of the whole are the tokens of what precedes the
    tag followed by the tokens of what follows it. *)
Theorem tokenize_text_tag_separates (a body b : pystr) :
  LT ∉ a → GT ∉ body → NL ∉ body →
  tokenize_text (a ++ LT :: body ++ GT :: b)
  = tokenize_text a ++ tokenize_text b.
Proof.
  intros Ha Hgt Hnl. rewrite !tokenize_text_eq.
  rewrite sub_tags_plain by done. simpl.
  rewrite (closes_hit _ _ Hnl). simpl.
  assert (Hin : Regex.sub_tags true (body ++ GT :: b) = Regex.sub_tags false b).
  { clear Hnl. induction body as [|c body IH]; simpl; [done|].
    apply not_elem_of_cons in Hgt as [Hc Hgt].
    destruct (c =? GT) eqn:E; [apply N.eqb_eq in E; congruence | by apply IH]. }
  rewrite Hin. unfold split. rewrite split_from_space by done.
  f_equal. rewrite <- (app_nil_r a) at 2. by rewrite sub_tags_plain, app_nil_r.
Qed.

Lemma tokenize_text_tag_separates_witness :
  tokenize_text (py "so good" ++ LT :: py "br /" ++ GT :: py "see <b>it</b>")
  = tokenize_text (py "so good") ++ tokenize_text (py "see <b>it</b>").
Proof.
  apply tokenize_text_tag_separates;
    apply (bool_decide_unpack _); vm_compute; exact I.
Defined.

(** ** More on the streaming corpus *)

Section CorpusMore.
Context {L : Library}.

Lemma progress_from_S part i n :
  progress_from part i (S n)
  = (if N.of_nat i mod 10000 <? 1 then [progress_line part i] else [])
    ++ progress_from part (S i) n.
Proof.
  unfold progress_from. cbn [seq]. rewrite filter_cons.
  generalize (N.of_nat i mod 10000). intros x.
  destruct (x <? 1) eqn:E.
  - apply N.ltb_lt in E. rewrite decide_True by lia. done.
  - apply N.ltb_ge in E. rewrite decide_False by lia. done.
Qed.

Lemma progress_note_world part i w u w' :
  (if N.of_nat i mod 10000 <? 1
   then print (py "DOCUMENT WITH ID(TAG): " ++ tag_of part i)
   else ret tt) w = (Ok u, w') →
  w' = emit (if N.of_nat i mod 10000 <? 1 then [progress_line part i] else []) w.
Proof.
  destruct (N.of_nat i mod 10000 <? 1).
  - unfold print. by intros ->%write_inv.
  - intros [_ ->]%ret_inv. by rewrite emit_nil.
Qed.

Lemma iter_lines_progress lines : ∀ part i w docs w',
  iter_lines part i lines w = (Ok docs, w') →
  w' = emit (progress_from part i (length lines)) w.
Proof.
  induction lines as [|line rest IH]; intros part i w docs w' H.
  - apply ret_inv in H as [_ ->]. exact (eq_sym (emit_nil _)).
  - rewrite iter_lines_cons in H.
    apply bind_Ok in H as (t & w1 & Ht & H). apply lift_inv in Ht as [_ ->].
    apply bind_Ok in H as (u & w2 & Hu & H). apply progress_note_world in Hu as ->.
    apply bind_Ok in H as (docs' & w3 & Hrest & H). apply ret_inv in H as [_ ->].
    apply IH in Hrest as ->. simpl length.
    by rewrite progress_from_S, emit_emit.
Qed.

Lemma iter_parts_progress ds ps : ∀ w docs w',
  iter_parts ds ps w = (Ok docs, w') → w' = emit (progress ds ps) w.
Proof.
  induction ps as [|p ps IH]; intros w docs w' H; simpl in H.
  - apply ret_inv in H as [_ ->]. exact (eq_sym (emit_nil _)).
  - apply bind_Ok in H as (lines & w1 & Hl & H).
    apply lift_inv in Hl as [Hl ->]. unfold getitem in Hl.
    destruct (ds !! p) as [lines'|] eqn:Hp; [|discriminate]. injection Hl as ->.
    apply bind_Ok in H as (chunk & w2 & Hchunk & H).
    apply bind_Ok in H as (more & w3 & Hmore & H). apply ret_inv in H as [_ ->].
    apply iter_lines_progress in Hchunk as ->. apply IH in Hmore as ->.
    unfold progress. rewrite bind_cons, Hp, emit_emit. done.
Qed.

Lemma iter_lines_undecodable l1 line l2 e : ∀ part i w,
  (∀ l, l ∈ l1 → ∃ t, Utf8.decode (text l) = Ok t) →
  Utf8.decode (text line) = Raise e →
  iter_lines part i (l1 ++ line :: l2) w
  = (Raise e, emit (progress_from part i (length l1)) w).
Proof.
  induction l1 as [|l l1 IH]; intros part i w Hdec Hbad.
  - simpl app. rewrite iter_lines_cons.
    change (progress_from part i (length [])) with (@nil event).
    rewrite emit_nil. apply bind_fail. unfold lift. by rewrite Hbad.
  - destruct (Hdec l) as [t Ht]; [left|].
    simpl app. rewrite iter_lines_cons.
    rewrite (bind_run _ _ w t w); [|unfold lift; by rewrite Ht].
    destruct (progress_note_run (N.of_nat i mod 10000 <? 1)
                (py "DOCUMENT WITH ID(TAG): " ++ tag_of part i) w) as [w1 Hw1].
    rewrite (bind_run _ _ w tt w1 Hw1).
    apply progress_note_world in Hw1 as ->.
    erewrite bind_fail; [|apply IH; [|done]; intros l' Hl'; apply Hdec; by right].
    simpl length. by rewrite progress_from_S, emit_emit.
Qed.

Lemma iter_parts_app ds ps1 ps2 : ∀ w d1 w1,
  iter_parts ds ps1 w = (Ok d1, w1) →
  iter_parts ds (ps1 ++ ps2) w
  = (more ← iter_parts ds ps2; ret (d1 ++ more)) w1.
Proof.
  induction ps1 as [|p ps1 IH]; intros w d1 w1 H; simpl in H.
  - apply ret_inv in H as [[= ->] ->]. simpl.
    unfold mbind, M_bind, bind. by destruct (iter_parts ds ps2 w) as [[?|?] ?].
  - apply bind_Ok in H as (lines & w0 & Hl & H).
    pose proof Hl as Hl'. apply lift_inv in Hl' as [_ ->].
    apply bind_Ok in H as (chunk & w2 & Hchunk & H).
    apply bind_Ok in H as (more & w3 & Hmore & H).
    apply ret_inv in H as [[= ->] ->].
    simpl. rewrite (bind_run _ _ _ _ _ Hl), (bind_run _ _ _ _ _ Hchunk).
    unfold mbind, M_bind, bind. rewrite (IH _ _ _ Hmore).
    unfold mbind, M_bind, bind.
    destruct (iter_parts ds ps2 w3) as [[?|?] ?]; [|done].
    unfold ret. by rewrite app_assoc.
Qed.

(** X5.  A pass over a part list in which [p] is the first part missing from
    the dataset streams the parts before [p] and then raises [KeyError(p)]. *)
Theorem TxtCorpus_iter_missing_part (ds : dataset) (ps1 : list pystr)
    (p : pystr) (ps2 : list pystr) (w : World) :
  readable ds ps1 → ds !! p = None →
  ∃ docs w1,
    TxtCorpus_iter (TxtCorpus_init ds ps1) w = (Ok docs, w1)
    ∧ TxtCorpus_iter (TxtCorpus_init ds (ps1 ++ p :: ps2)) w
      = (Raise (KeyError p), w1).
Proof.
  intros Hr Hp. unfold TxtCorpus_iter, TxtCorpus_init. simpl.
  destruct (iter_parts_total ds ps1 w Hr) as (docs & w1 & H1).
  exists docs, w1. split; [done|].
  rewrite (iter_parts_app _ _ _ _ _ _ H1). apply bind_fail. simpl.
  apply bind_fail. unfold lift, getitem. by rewrite Hp.
Qed.

(** X6.  A text that is not valid UTF-8 ends the pass with the decoder's
    exception: the parts before it are streamed, and so are the documents
    that precede it in its own part, whose progress lines are already
    written. *)
Theorem TxtCorpus_iter_undecodable (ds : dataset) (ps1 : list pystr)
    (p : pystr) (ps2 : list pystr) (l1 : list example) (line : example)
    (l2 : list example) (e : exn) (w : World) :
  readable ds ps1 → ds !! p = Some (l1 ++ line :: l2) →
  (∀ l, l ∈ l1 → ∃ t, Utf8.decode (text l) = Ok t) →
  Utf8.decode (text line) = Raise e →
  ∃ docs w1,
    TxtCorpus_iter (TxtCorpus_init ds ps1) w = (Ok docs, w1)
    ∧ TxtCorpus_iter (TxtCorpus_init ds (ps1 ++ p :: ps2)) w
      = (Raise e, emit (progress_from p 0 (length l1)) w1).
Proof.
  intros Hr Hp Hdec Hbad. unfold TxtCorpus_iter, TxtCorpus_init. simpl.
  destruct (iter_parts_total ds ps1 w Hr) as (docs & w1 & H1).
  exists docs, w1. split; [done|].
  rewrite (iter_parts_app _ _ _ _ _ _ H1). apply bind_fail. simpl.
  rewrite (bind_run _ _ w1 (l1 ++ line :: l2) w1);
    [|unfold lift, getitem; by rewrite Hp].
  apply bind_fail. by apply iter_lines_undecodable.
Qed.

Lemma progress_from_none part n : ∀ i,
  (0 < i)%nat → N.of_nat (i + n) <= 10000 → progress_from part i n = [].
Proof.
  induction n as [|n IH]; intros i Hi Hn; [done|].
  rewrite progress_from_S, IH by lia.
  rewrite N.mod_small by lia.
  destruct (N.of_nat i <? 1) eqn:E; [|done]. apply N.ltb_lt in E. lia.
Qed.

Lemma progress_from_small part n :
  (0 < n)%nat → N.of_nat n <= 10000 →
  progress_from part 0 n = [progress_line part 0].
Proof.
  intros Hn Hle. destruct n as [|n]; [lia|].
  rewrite progress_from_S, progress_from_none by lia. done.
Qed.

(** X7.  What a completed pass writes to stdout, and all it does to the
    world: for each part in turn, one line [DOCUMENT WITH ID(TAG): part-i]
    for every document whose index in the part is a multiple of 10000.  When
    every listed part has between 1 and 10000 documents, that is one line
    per part, for its document 0. *)
Theorem TxtCorpus_iter_progress (ds : dataset) (ps : list pystr) (w : World)
    (docs : list TaggedDocument) (w' : World) :
  TxtCorpus_iter (TxtCorpus_init ds ps) w = (Ok docs, w') →
  w' = emit (progress ds ps) w
  ∧ ((∀ p, p ∈ ps → (0 < length (default [] (ds !! p)))%nat
                    ∧ N.of_nat (length (default [] (ds !! p))) <= 10000) →
     progress ds ps = (fun p => progress_line p 0) <$> ps).
Proof.
  intros H. split; [by apply iter_parts_progress in H|].
  clear H. unfold progress. induction ps as [|p ps IH]; intros Hn; [done|].
  destruct (Hn p) as [Hpos Hle]; [left|].
  rewrite bind_cons, fmap_cons, progress_from_small by done.
  rewrite IH; [done|]. intros q Hq. apply Hn. by right.
Qed.

End CorpusMore.

(** ** More on the glue functions *)

Section GlueMore.
Context {L : Library}.

Lemma pass_tag_list ds ps chunks :
  Forall2 (yields_part ds) ps chunks →
  concat chunks ≫= tags = (fun s => tag_of s.1 s.2) <$> sources ds ps.
Proof.
  intros Hall. pose proof (pass_tags _ _ _ Hall) as Htags.
  revert Htags. generalize (sources ds ps). generalize (concat chunks).
  induction l as [|d l IH]; intros [|s ss] Heq; try discriminate; [done|].
  simpl in Heq. injection Heq as Hd Hl.
  rewrite bind_cons, Hd, (IH _ Hl). done.
Qed.

Lemma sources_elem ds ps p i :
  (p, i) ∈ sources ds ps ↔ p ∈ ps ∧ (i < length (default [] (ds !! p)))%nat.
Proof.
  unfold sources. rewrite list_elem_of_bind. split.
  - intros (q & Hin & Hq).
    apply list_elem_of_fmap in Hin as (j & [= -> ->] & Hj).
    apply elem_of_seq in Hj. split; [done | lia].
  - intros [Hp Hi]. exists p. split; [|done].
    apply list_elem_of_fmap. exists i. split; [done|]. apply elem_of_seq. lia.
Qed.

(** The tags of a completed pass are the strings [p-i] for [p] a listed part
    and [i] an index into it. *)
Lemma pass_tag_elem ds ps w docs w' tag :
  TxtCorpus_iter (TxtCorpus_init ds ps) w = (Ok docs, w') →
  tag ∈ docs ≫= tags ↔
  ∃ p i, p ∈ ps ∧ (i < length (default [] (ds !! p)))%nat ∧ tag = tag_of p i.
Proof.
  intros H. unfold TxtCorpus_iter, TxtCorpus_init in H. simpl in H.
  apply iter_parts_Ok in H as (chunks & -> & Hall).
  rewrite (pass_tag_list _ _ _ Hall), list_elem_of_fmap. split.
  - intros ([p i] & -> & Hin). apply sources_elem in Hin as [Hp Hi].
    by exists p, i.
  - intros (p & i & Hp & Hi & ->). exists (p, i). split; [done|].
    by apply sources_elem.
Qed.

Lemma infer_loop_undecodable m line l2 e l1 : ∀ ts vs l' X Y w,
  Forall2 (fun l t => Utf8.decode (text l) = Ok t) l1 ts →
  infer_chain m (lib w) (tokenize_text <$> ts) vs l' →
  Utf8.decode (text line) = Raise e →
  infer_loop m (l1 ++ line :: l2) X Y w
  = (Raise e,
     {| lib := l';
        trace := trace w ++ inference_events m (tokenize_text <$> ts) vs;
        accuracies := accuracies w |}).
Proof.
  induction l1 as [|l l1 IH]; intros ts vs l' X Y w Hdec Hch Hbad.
  - apply Forall2_nil_inv_l in Hdec as ->. inversion Hch; subst. simpl.
    rewrite app_nil_r. destruct w. simpl.
    apply bind_fail. unfold lift. by rewrite Hbad.
  - apply Forall2_cons_inv_l in Hdec as (t & ts' & Ht & Hdec & ->).
    rewrite fmap_cons in Hch.
    inversion Hch as [|? ? v l1' ? vs' ? Hv Hch']; subst. simpl.
    rewrite (bind_run _ _ w t w); [|unfold lift; by rewrite Ht].
    erewrite bind_run; [|unfold invoke; rewrite Hv; reflexivity].
    erewrite IH; [|exact Hdec | simpl; exact Hch' | exact Hbad]. simpl.
    by rewrite <- app_assoc.
Qed.

(** X8.  [load_from_model] looks up exactly the tags that a pass over the
    corpus yields for the part.  So for a part the corpus lists, it returns,
    in an unchanged world and with one vector per document, whenever the
    model stores a vector for every tag of the pass. *)
Theorem load_from_model_covered (m : Model) (ds : dataset) (ps : list pystr)
    (part : pystr) (w0 : World) (docs : list TaggedDocument) (w0' w : World) :
  TxtCorpus_iter (TxtCorpus_init ds ps) w0 = (Ok docs, w0') →
  part ∈ ps →
  (∀ tag, tag ∈ docs ≫= tags → ∃ v, docvecs_getitem (lib w) m tag = Ok v) →
  ∃ X Y, load_from_model m ds part w = (Ok (X, Y), w)
         ∧ length X = length (default [] (ds !! part)).
Proof.
  intros Hpass Hpart Hknown.
  assert (Hp : ∃ lines, ds !! part = Some lines).
  { unfold TxtCorpus_iter, TxtCorpus_init in Hpass. simpl in Hpass.
    apply iter_parts_Ok in Hpass as (chunks & _ & Hall).
    apply list_elem_of_lookup in Hpart as [k Hk].
    destruct (Forall2_lookup_l _ _ _ _ _ Hall Hk) as (chunk & _ & lines & Hl & _).
    by exists lines. }
  destruct Hp as [lines Hp].
  destruct (load_loop_total m part lines 0%nat [] [] w) as (X & Y & Hloop).
  { intros j Hj. apply Hknown. apply (pass_tag_elem _ _ _ _ _ _ Hpass).
    exists part, j. rewrite Hp. done. }
  exists (asarray X), (asarray Y). split.
  - unfold load_from_model.
    rewrite (bind_run _ _ w lines w); [|unfold lift, getitem; by rewrite Hp].
    by rewrite (bind_run _ _ w (X, Y) w Hloop).
  - apply load_loop_Ok in Hloop as (vs & -> & _ & Hlen & _).
    rewrite Hp. done.
Qed.

(** X9.  For a part the corpus does not list, no tag of the part is among
    those of a pass.  So when the model raises [KeyError] for every tag it
    was not given, [load_from_model] on a non-empty such part raises
    [KeyError] for the tag of its document 0, in an unchanged world. *)
Theorem load_from_model_uncovered (m : Model) (ds : dataset) (ps : list pystr)
    (part : pystr) (line : example) (rest : list example)
    (w0 : World) (docs : list TaggedDocument) (w0' w : World) :
  TxtCorpus_iter (TxtCorpus_init ds ps) w0 = (Ok docs, w0') →
  part ∉ ps →
  ds !! part = Some (line :: rest) →
  (∀ tag, tag ∉ docs ≫= tags →
          docvecs_getitem (lib w) m tag = Raise (KeyError tag)) →
  (∀ i, tag_of part i ∉ docs ≫= tags)
  ∧ load_from_model m ds part w = (Raise (KeyError (tag_of part 0)), w).
Proof.
  intros Hpass Hpart Hp Hunknown.
  assert (Hout : ∀ i, tag_of part i ∉ docs ≫= tags).
  { intros i Hin. apply (pass_tag_elem _ _ _ _ _ _ Hpass) in Hin
      as (p & j & Hin & _ & Heq).
    apply tag_of_inj in Heq as [-> _]. done. }
  split; [exact Hout|].
  apply (load_from_model_fail m ds part (line :: rest) w 0%nat);
    [done | simpl; lia | intros k Hk; lia | by apply Hunknown].
Qed.

(** X10.  When a text of the part is not valid UTF-8, [infer_from_model]
    raises the decoder's exception after one [infer_vector] call for each
    document before it.  The arrays built so far are lost; the calls are on
    record and the library state they produced stays. *)
Theorem infer_from_model_undecodable (m : Model) (ds : dataset) (part : pystr)
    (l1 : list example) (line : example) (l2 : list example)
    (ts : list pystr) (vs : list Vec) (l' : Lib) (e : exn) (w : World) :
  ds !! part = Some (l1 ++ line :: l2) →
  Forall2 (fun l t => Utf8.decode (text l) = Ok t) l1 ts →
  infer_chain m (lib w) (tokenize_text <$> ts) vs l' →
  Utf8.decode (text line) = Raise e →
  infer_from_model m ds part w
  = (Raise e,
     {| lib := l';
        trace := trace w ++ inference_events m (tokenize_text <$> ts) vs;
        accuracies := accuracies w |}).
Proof.
  intros Hp Hdec Hch Hbad. unfold infer_from_model.
  rewrite (bind_run _ _ w (l1 ++ line :: l2) w);
    [|unfold lift, getitem; by rewrite Hp].
  apply bind_fail. by apply infer_loop_undecodable.
Qed.

End GlueMore.

(** ** More on the evaluation *)

Section EvaluationMore.
Context {L : Library}.

Lemma infer_loop_trace m lines : ∀ X Y w X' Y' w',
  infer_loop m lines X Y w = (Ok (X', Y'), w') →
  ∃ vs toks, X' = X ++ vs ∧ Y' = Y ++ (label <$> lines)
    ∧ length toks = length lines ∧ length vs = length lines
    ∧ trace w' = trace w ++ inference_events m toks vs
    ∧ ∀ j line, lines !! j = Some line →
        ∃ t, Utf8.decode (text line) = Ok t ∧ toks !! j = Some (tokenize_text t).
Proof.
  induction lines as [|line rest IH]; intros X Y w X' Y' w' H; simpl in H.
  - apply ret_inv in H as [[= -> ->] ->]. exists [], [].
    rewrite !app_nil_r. repeat split; done.
  - apply bind_Ok in H as (t & w1 & Ht & H). apply lift_inv in Ht as [Ht ->].
    apply bind_Ok in H as (v & w1 & Hv & H).
    apply invoke_inv in Hv as (l & _ & _ & _ & Htr).
    apply IH in H as (vs & toks & -> & -> & Hlt & Hlv & Htr' & Hnth).
    exists (v :: vs), (tokenize_text t :: toks). rewrite <- !app_assoc. simpl.
    repeat split; [by rewrite Hlt | by rewrite Hlv | |].
    + rewrite Htr', Htr, <- app_assoc. done.
    + intros [|j] ln Hln; simpl in Hln.
      * injection Hln as <-. by exists t.
      * by apply Hnth.
Qed.

Lemma load_loop_lib m part lines : ∀ i X Y w1 w2,
  lib w1 = lib w2 →
  (load_loop m part i lines X Y w1).1 = (load_loop m part i lines X Y w2).1.
Proof.
  induction lines as [|line rest IH]; intros i X Y w1 w2 Hlib; simpl; [done|].
  unfold mbind, M_bind, bind, read. rewrite Hlib.
  destruct (docvecs_getitem (lib w2) m (tag_of part i)); [by apply IH | done].
Qed.

(** What [load_from_model] returns depends on the library state only. *)
Lemma load_from_model_lib m ds part w1 w2 r w1' :
  lib w1 = lib w2 →
  load_from_model m ds part w1 = (r, w1') →
  load_from_model m ds part w2 = (r, w2).
Proof.
  intros Hlib H.
  destruct (load_from_model m ds part w2) as [r2 w2'] eqn:H2.
  pose proof (load_from_model_world _ _ _ _ _ _ H2) as ->. f_equal.
  unfold load_from_model, mbind, M_bind, bind, lift in H, H2.
  destruct (getitem ds part) as [lines|e]; [|congruence].
  pose proof (load_loop_lib m part lines 0%nat [] [] w1 w2 Hlib) as Hl.
  destruct (load_loop m part 0 lines [] [] w1) as [[[X Y]|e1] u1];
    destruct (load_loop m part 0 lines [] [] w2) as [[[X2 Y2]|e2] u2];
    simpl in Hl; try discriminate; unfold ret in *; congruence.
Qed.

(** X11.  The complete record of an evaluation that returns the score [s]:
    the opening line, the line after the training vectors are read (which
    takes no library call), one [infer_vector] call per test document on its
    tokens, then a fresh logistic regression, a grid search over the fixed
    grid with [cv=5, verbose=2, n_jobs=4], the fit on the training arrays
    between two clock reads whose difference is printed, and the score of
    the best estimator on the inferred test arrays. *)
Theorem train_lr_evaluate_trace (m : Model) (data : dataset) (w : World)
    (s : Float) (w' : World) :
  train_lr_evaluate m data w = (Ok s, w') →
  ∃ toks X_train Y_train X_test Y_test lr clf t0 t1 lines,
    trace w' = trace w ++ evaluation_events m toks X_train Y_train X_test Y_test
                            lr clf t0 t1 s
    ∧ load_from_model m data (py "train") w = (Ok (X_train, Y_train), w)
    ∧ data !! py "test" = Some lines
    ∧ length toks = length lines ∧ length X_test = length lines
    ∧ Y_test = label <$> lines
    ∧ ∀ j line, lines !! j = Some line →
        ∃ t, Utf8.decode (text line) = Ok t ∧ toks !! j = Some (tokenize_text t).
Proof.
  unfold train_lr_evaluate, time_, print_noend, print. intros H.
  apply bind_Ok in H as (u1 & w1 & H1 & H).
  apply bind_Ok in H as ([Xtr Ytr] & w2 & H2 & H).
  pose proof (load_from_model_world _ _ _ _ _ _ H2) as ->.
  apply bind_Ok in H as (u3 & w3 & H3 & H).
  apply bind_Ok in H as ([Xte Yte] & w4 & H4 & H).
  apply bind_Ok in H as (u5 & w5 & H5 & H).
  apply bind_Ok in H as (lr & w6 & H6 & H).
  apply bind_Ok in H as (clf & w7 & H7 & H).
  apply bind_Ok in H as (u8 & w8 & H8 & H).
  apply bind_Ok in H as (t0 & w9 & H9 & H).
  apply bind_Ok in H as ([] & w10 & H10 & H).
  apply bind_Ok in H as (t1 & w11 & H11 & H).
  apply bind_Ok in H as (u12 & w12 & H12 & H13).
  apply write_inv in H1, H3, H5, H8, H12.
  apply invoke_inv in H6 as (? & _ & _ & _ & T6).
  apply invoke_inv in H7 as (? & _ & _ & _ & T7).
  apply invoke_inv in H9 as (? & _ & _ & _ & T9).
  apply invoke_inv in H10 as (? & _ & _ & _ & T10).
  apply invoke_inv in H11 as (? & _ & _ & _ & T11).
  apply invoke_inv in H13 as (? & _ & _ & _ & T13).
  unfold infer_from_model in H4.
  apply bind_Ok in H4 as (lines & w0 & Hl & H4).
  apply lift_inv in Hl as [Hl ->]. unfold getitem in Hl.
  destruct (data !! py "test") as [lines'|] eqn:Htest; [|discriminate].
  injection Hl as ->.
  apply bind_Ok in H4 as ([X0 Y0] & w0 & Hloop & H4).
  apply ret_inv in H4 as [[= -> ->] ->]. unfold asarray.
  apply infer_loop_trace in Hloop as (vs & toks & -> & -> & Hlt & Hlv & T4 & Hnth).
  exists toks, Xtr, Ytr, vs, (label <$> lines), lr, clf, t0, t1, lines.
  split; [|split; [|repeat split; done]].
  - rewrite T13, H12. simpl. rewrite T11, T10, T9, H8. simpl.
    rewrite T7, T6, H5. simpl. rewrite T4, H3. simpl. rewrite H1. simpl.
    unfold evaluation_events. rewrite <- !app_assoc. done.
  - eapply load_from_model_lib; [|exact H2]. by rewrite H1.
Qed.

(** X12.  Without a ["train"] split the evaluation raises [KeyError] right
    after its opening line.  Without a ["test"] split it raises [KeyError]
    once the training vectors are read: two lines are written and no
    inference, classifier or clock call is made. *)
Theorem train_lr_evaluate_missing_split (m : Model) (data : dataset) (w : World) :
  (data !! py "train" = None →
   train_lr_evaluate m data w
   = (Raise (KeyError (py "train")),
      emit [EvWrite ((py "Evaluating " ++ str_model m) ++ [NL])] w))
  ∧ (data !! py "test" = None →
     ∀ X_train Y_train,
       load_from_model m data (py "train") w = (Ok (X_train, Y_train), w) →
       train_lr_evaluate m data w
       = (Raise (KeyError (py "test")),
          emit [EvWrite ((py "Evaluating " ++ str_model m) ++ [NL]);
                EvWrite (py "Training data embeddings loaded." ++ [NL])] w)).
Proof.
  split.
  - intros Htrain. unfold train_lr_evaluate, print. rewrite write_run.
    apply bind_fail. unfold load_from_model. apply bind_fail.
    unfold lift, getitem. by rewrite Htrain.
  - intros Htest Xtr Ytr Hload. unfold train_lr_evaluate, print.
    rewrite write_run.
    erewrite bind_run; [|eapply load_from_model_lib; [|exact Hload]; done].
    cbn beta iota. rewrite write_run, emit_emit.
    apply bind_fail. unfold infer_from_model. apply bind_fail.
    unfold lift, getitem. by rewrite Htest.
Qed.

End EvaluationMore.

(** ** More on the pipeline *)

Section PipelineMore.
Context {L : Library}.

Lemma odict_get_set_eq {V} (d : list (pystr * V)) k v :
  odict_get (odict_set d k v) k = Ok v.
Proof.
  induction d as [|[k' v'] d IH]; simpl; [by rewrite decide_True|].
  destruct (decide (k' = k)) as [->|Hne]; simpl;
    [by rewrite decide_True | by rewrite decide_False].
Qed.

Lemma odict_get_set_ne {V} (d : list (pystr * V)) k k' v :
  k ≠ k' → odict_get (odict_set d k v) k' = odict_get d k'.
Proof.
  intros Hne. induction d as [|[k0 v0] d IH]; simpl.
  - by rewrite decide_False.
  - destruct (decide (k0 = k)) as [->|H0]; simpl.
    + by rewrite !decide_False.
    + destruct (decide (k0 = k')); [done | exact IH].
Qed.

Lemma odict_set_key {V} (d : list (pystr * V)) k v k' :
  k' ∈ (odict_set d k v).*1 ↔ k' = k ∨ k' ∈ d.*1.
Proof.
  induction d as [|[k0 v0] d IH]; simpl.
  - rewrite list_elem_of_singleton. split; [by left|]. intros [H|H]; [done|].
    by apply elem_of_nil in H.
  - destruct (decide (k0 = k)) as [->|H0]; simpl.
    + rewrite elem_of_cons. tauto.
    + rewrite !elem_of_cons, IH. tauto.
Qed.

Lemma odict_set_value {V} (d : list (pystr * V)) k v k' v' :
  (k', v') ∈ odict_set d k v → v' = v ∨ (k', v') ∈ d.
Proof.
  induction d as [|[k0 v0] d IH]; simpl.
  - intros [= _ ->]%list_elem_of_singleton. by left.
  - destruct (decide (k0 = k)) as [->|H0].
    + intros [[= _ ->] | H]%elem_of_cons; [by left | right; by right].
    + intros [[= -> ->] | H]%elem_of_cons; [right; by left|].
      destruct (IH H) as [->|H']; [by left | right; by right].
Qed.

Lemma odict_set_NoDup {V} (d : list (pystr * V)) k v :
  NoDup d.*1 → NoDup (odict_set d k v).*1.
Proof.
  induction d as [|[k0 v0] d IH]; simpl; intros Hd.
  - apply NoDup_singleton.
  - apply NoDup_cons in Hd as [Hk0 Hd].
    destruct (decide (k0 = k)) as [->|H0]; simpl.
    + by apply NoDup_cons.
    + apply NoDup_cons. split; [|by apply IH].
      rewrite odict_set_key. intros [H|H]; [by apply H0 | by apply Hk0].
Qed.

Lemma infer_loop_extends P m lines :
  (∀ t r, P (EvCall (CInferVector m t) r)) →
  ∀ X Y, stable (extends P) (infer_loop m lines X Y).
Proof.
  intros HP. induction lines as [|line rest IH]; intros X Y; simpl;
    stable_with ltac:(first [apply IH | apply invoke_extends; intros ?; apply HP]).
Qed.

Lemma train_lr_evaluate_extends P m data :
  (∀ s, P (EvWrite s)) →
  (∀ c r, evaluation_call c → P (EvCall c r)) →
  stable (extends P) (train_lr_evaluate m data).
Proof.
  intros Hw Hc. unfold train_lr_evaluate, infer_from_model, time_, print, print_noend.
  stable_with ltac:(first
    [ apply write_extends; apply Hw
    | apply invoke_extends; intros ?; apply Hc; exact I
    | apply load_from_model_stable; apply _
    | apply infer_loop_extends; intros; apply Hc; exact I ]).
Qed.

Lemma concat_loop_extends P ms data :
  (∀ s, P (EvWrite s)) →
  (∀ c r, evaluation_call c → P (EvCall c r)) →
  stable (extends P) (concat_loop ms data).
Proof.
  intros Hw Hc. induction ms as [|m ms IH]; simpl; unfold print;
    stable_with ltac:(first
      [ apply write_extends; apply Hw
      | by apply train_lr_evaluate_extends | apply IH ]).
Qed.

Lemma model_train_extends P m c :
  (∀ s, P (EvWrite s)) →
  (∀ passes total ep r,
     Forall (corpus_docs c) passes → P (EvCall (CTrain m passes total ep) r)) →
  stable (extends P) (model_train m c).
Proof.
  intros Hw Ht. unfold model_train.
  apply stable_bind; [apply _ | apply stable_read; apply _ | intros total].
  apply stable_bind; [apply _ | apply stable_read; apply _ | intros ep].
  intros w. destruct (uniform_passes_over c ep) as (r & δ & Hδ & Hrun).
  assert (Hδ' : Forall P δ).
  { eapply Forall_impl; [exact Hδ|]. intros [s|c0 r0] He; [apply Hw | done]. }
  destruct r as [passes|e].
  - rewrite (bind_run _ _ _ _ _ (Hrun w)).
    destruct (invoke (CTrain m passes total ep) (fun _ => RNone)
                (train m passes total ep) (emit δ w)) as [r' w'] eqn:Hi.
    apply invoke_inv in Hi as (l & _ & _ & _ & Htr). simpl in *.
    eexists (δ ++ [_]). split; [by rewrite Htr, app_assoc|].
    apply Forall_app. split; [done|]. repeat constructor. apply Ht.
    apply Forall_forall. intros docs Hin w0.
    destruct (uniform_TxtCorpus_iter c) as (r0 & δ0 & _ & Hrun0).
    rewrite Hrun0. rewrite <- (passes_over_same c ep w passes _ (Hrun w) docs Hin).
    by rewrite Hrun0.
  - rewrite (bind_fail _ _ _ _ _ (Hrun w)). simpl. by exists δ.
Qed.

Lemma model_build_vocab_fed m c :
  stable (extends (fed_from c)) (model_build_vocab m c).
Proof.
  intros w. unfold model_build_vocab.
  destruct (uniform_TxtCorpus_iter c) as (r & δ & Hδ & Hrun).
  assert (Hδ' : Forall (fed_from c) δ).
  { eapply Forall_impl; [exact Hδ|]. by intros [s|c0 r0] He. }
  destruct r as [docs|e].
  - rewrite (bind_run _ _ _ _ _ (Hrun w)).
    destruct (invoke (CBuildVocab m docs) (fun _ => RNone)
                (build_vocab m docs) (emit δ w)) as [r' w'] eqn:Hi.
    apply invoke_inv in Hi as (l & _ & _ & _ & Htr). simpl in *.
    eexists (δ ++ [_]). split; [by rewrite Htr, app_assoc|].
    apply Forall_app. split; [done|]. repeat constructor.
    intros w0. by rewrite Hrun.
  - rewrite (bind_fail _ _ _ _ _ (Hrun w)). simpl. by exists δ.
Qed.

Lemma vocab_loop_fed ms td : ∀ acc,
  stable (extends (fed_from td)) (vocab_loop ms td acc).
Proof.
  induction ms as [|m ms IH]; intros acc; simpl; unfold print;
    stable_with ltac:(first [apply IH | apply model_build_vocab_fed]).
Qed.

Lemma cell9_fed data :
  stable (extends (fed_from (TxtCorpus_init data [py "train"; py "unsupervised"])))
         (cell9 data).
Proof.
  unfold cell9, new_Doc2Vec, new_ConcatenatedDoc2Vec, time_, print. cbv zeta.
  stable_with ltac:(apply vocab_loop_fed).
Qed.

Lemma fed_from_evaluation c0 c r : evaluation_call c → fed_from c0 (EvCall c r).
Proof. by destruct c. Qed.

Lemma trains_only_evaluation its c r :
  evaluation_call c → trains_only its (EvCall c r).
Proof. by destruct c. Qed.

Lemma train_loop_fed its td data :
  stable (extends (fed_from td)) (train_loop its td data).
Proof.
  induction its as [|[name m] its IH]; simpl; unfold time_, print, print_noend;
    stable_with ltac:(first
      [ apply IH
      | apply model_train_extends; [done | by intros]
      | apply train_lr_evaluate_extends; [done | apply fed_from_evaluation] ]).
Qed.

Lemma cell10_fed data td mbn :
  stable (extends (fed_from td)) (cell10 data td mbn).
Proof.
  unfold cell10.
  stable_with ltac:(first
    [ apply train_loop_fed
    | apply concat_loop_extends; [done | apply fed_from_evaluation] ]).
Qed.

Lemma train_loop_trains_only its td data : ∀ all,
  (∀ x, x ∈ its → x ∈ all) →
  stable (extends (trains_only all)) (train_loop its td data).
Proof.
  induction its as [|[name m] its IH]; intros all Hsub; simpl.
  - apply stable_ret; apply _.
  - apply stable_bind;
      [apply _ | | intros _; apply IH; intros x Hx; apply Hsub; by right].
    destruct (startswith name (py "Doc2Vec")) eqn:E; [|apply stable_ret; apply _].
    unfold time_, print, print_noend.
    stable_with ltac:(first
      [ apply model_train_extends;
          [done | intros; exists name; split; [apply Hsub; left | exact E]]
      | apply train_lr_evaluate_extends; [done | apply trains_only_evaluation] ]).
Qed.

(** X13.  Whatever the descriptions of the models are, a completed cell 9
    leaves a dictionary in which both fixed names are present and map to the
    two concatenations, so the two lookups of cell 10 cannot raise; no key
    occurs twice; the description of each of the three models is a key; and
    every value is one of the five models. *)
Theorem models_by_name_lookup (data : dataset) (w : World) (td : TxtCorpus)
    (mbn : list (pystr * Model)) (w' : World) :
  cell9 data w = (Ok (td, mbn), w') →
  ∃ n m0 m1 m2 c1 c2,
    step [PNew (dbow_kwargs n) m0; PNew (dmm_kwargs n) m1;
          PNew (dmc_kwargs n) m2; PVocab m0; PVocab m1; PVocab m2;
          PConcat [m0; m1] c1; PConcat [m0; m2] c2] w w'
    ∧ odict_get mbn (py "dbow+dmm") = Ok c1
    ∧ odict_get mbn (py "dbow+dmc") = Ok c2
    ∧ NoDup mbn.*1
    ∧ (∀ m, m ∈ [m0; m1; m2] → str_model m ∈ mbn.*1)
    ∧ (∀ name m, (name, m) ∈ mbn → m ∈ [m0; m1; m2; c1; c2]).
Proof.
  intros H. apply cell9_Ok in H as (n & m0 & m1 & m2 & c1 & c2 & _ & -> & Hstep).
  exists n, m0, m1, m2, c1, c2. cbn [foldl].
  split; [exact Hstep|]. split; [|split; [|split; [|split]]].
  - rewrite odict_get_set_ne; [apply odict_get_set_eq|].
    intros Heq. vm_compute in Heq. discriminate.
  - apply odict_get_set_eq.
  - do 5 apply odict_set_NoDup. constructor.
  - intros m Hm. rewrite !odict_set_key.
    repeat (apply elem_of_cons in Hm as [-> | Hm]); [tauto..|].
    by apply elem_of_nil in Hm.
  - intros name m Hin.
    repeat (apply odict_set_value in Hin as [-> | Hin]);
      [set_solver..|]. by apply elem_of_nil in Hin.
Qed.

(** X14.  In every run of cell 10, complete or not, [train] is only called
    on a model that [models_by_name] holds under a name starting with
    ["Doc2Vec"]: the second loop trains nothing, and the first skips every
    other entry. *)
Theorem cell10_trains_only (data : dataset) (td : TxtCorpus)
    (mbn : list (pystr * Model)) (w : World) :
  ∃ δ, trace (cell10 data td mbn w).2 = trace w ++ δ
       ∧ ∀ m passes total ep r, EvCall (CTrain m passes total ep) r ∈ δ →
           ∃ name, (name, m) ∈ mbn ∧ startswith name (py "Doc2Vec") = true.
Proof.
  assert (H : stable (extends (trains_only mbn)) (cell10 data td mbn)).
  { unfold cell10.
    stable_with ltac:(first
      [ by apply train_loop_trains_only
      | apply concat_loop_extends; [done | apply trains_only_evaluation] ]). }
  destruct (H w) as (δ & Htr & Hall). exists δ. split; [done|].
  intros m passes total ep r Hin. rewrite Forall_forall in Hall.
  exact (Hall _ Hin).
Qed.

(** X15.  In every run of the notebook, complete or not, every
    [build_vocab] call and every pass of every [train] call is given the
    same documents: those of one pass over the ["train"] and
    ["unsupervised"] parts of the dataset that was loaded. *)
Theorem corpus_fed_unchanged (w : World) :
  ∃ δ, trace (notebook w).2 = trace w ++ δ
       ∧ ∀ data, (cell1 w).1 = Ok data →
           Forall (fed_from (TxtCorpus_init data [py "train"; py "unsupervised"])) δ.
Proof.
  unfold notebook.
  destruct (cell1 w) as [[data|e] w1] eqn:H1.
  2:{ rewrite (bind_fail _ _ _ _ _ H1).
      apply invoke_inv in H1 as (l & _ & _ & _ & Htr).
      eexists. split; [exact Htr|]. intros data [=]. }
  rewrite (bind_run _ _ _ _ _ H1).
  apply invoke_inv in H1 as (l & _ & _ & _ & Htr1).
  destruct (cell9_fed data w1) as (δ9 & Htr9 & H9).
  destruct (cell9 data w1) as [[[td mbn]|e] w2] eqn:Hc9; simpl in Htr9.
  2:{ rewrite (bind_fail _ _ _ _ _ Hc9). simpl.
      eexists (_ :: δ9).
      split; [rewrite Htr9, Htr1, <- app_assoc; done|].
      intros data' [= <-]. by constructor. }
  rewrite (bind_run _ _ _ _ _ Hc9).
  apply cell9_Ok in Hc9 as (n & m0 & m1 & m2 & c1 & c2 & -> & _ & _).
  assert (Hrest : stable (extends (fed_from
                    (TxtCorpus_init data [py "train"; py "unsupervised"])))
                    (cell10 data (TxtCorpus_init data [py "train"; py "unsupervised"]) mbn
                     ;; cell11)).
  { apply stable_bind; [apply _ | apply cell10_fed | intros _].
    by apply cell11_extends. }
  destruct (Hrest w2) as (δ' & Htr' & H').
  eexists (_ :: δ9 ++ δ').
  split; [rewrite Htr', Htr9, Htr1, <- !app_assoc; done|].
  intros data' [= <-]. constructor; [done|]. by apply Forall_app.
Qed.

#[global] Instance keys_from_preorder ms : PreOrder (keys_from ms).
Proof.
  split; [intros w k Hk; by left|].
  intros w1 w2 w3 H12 H23 k Hk.
  destruct (H23 k Hk) as [Hk2 | Hm]; [by apply H12 | by right].
Qed.

Lemma same_table_keys ms {A} (m : M A) :
  stable same_table m → stable (keys_from ms) m.
Proof. intros H w k Hk. left. by rewrite <- (H w). Qed.

Lemma accuracies_get_same_table k : stable same_table (accuracies_get k).
Proof. by intros w. Qed.

Lemma accuracies_set_keys ms m v :
  m ∈ ms → stable (keys_from ms) (accuracies_set (str_model m) v).
Proof.
  intros Hm w k Hk. simpl in Hk.
  destruct (decide (k = str_model m)) as [->|Hne]; [right; by exists m|].
  left. by rewrite lookup_insert_ne in Hk.
Qed.

Lemma stable_lift_bind R `{!Reflexive R} {A B} (r : result A) (k : A → M B) :
  (∀ a, r = Ok a → stable R (k a)) → stable R (lift r ≫= k).
Proof.
  intros H w. unfold mbind, M_bind, bind, lift.
  destruct r as [a|e]; [by apply H | simpl; reflexivity].
Qed.

Lemma odict_get_elem {V} (d : list (pystr * V)) k v :
  odict_get d k = Ok v → (k, v) ∈ d.
Proof.
  induction d as [|[k0 v0] d IH]; simpl; [discriminate|].
  destruct (decide (k0 = k)) as [->|Hne].
  - intros [= ->]. by left.
  - intros H. right. by apply IH.
Qed.

Ltac keys_with known :=
  stable_with ltac:(first
    [ known
    | apply same_table_keys;
      first [ apply write_same_table | apply invoke_same_table
            | apply accuracies_get_same_table
            | apply train_lr_evaluate_same_table
            | apply model_train_same_table ] ]).

Lemma concat_loop_keys ms data : ∀ all,
  (∀ m, m ∈ ms → m ∈ all) → stable (keys_from all) (concat_loop ms data).
Proof.
  induction ms as [|m ms IH]; intros all Hsub; simpl; unfold print;
    keys_with ltac:(first
      [ apply accuracies_set_keys; apply Hsub; by left
      | apply IH; intros ? ?; apply Hsub; by right ]).
Qed.

Lemma train_loop_keys its td data : ∀ all,
  (∀ x, x ∈ its → x.2 ∈ all) → stable (keys_from all) (train_loop its td data).
Proof.
  induction its as [|[name m] its IH]; intros all Hsub; simpl;
    unfold time_, print, print_noend;
    keys_with ltac:(first
      [ apply accuracies_set_keys; apply (Hsub (name, m)); by left
      | apply IH; intros ? ?; apply Hsub; by right ]).
Qed.

(** X16.  However cell 10 ends, every key of the accuracy table is then the
    description of a model held in [models_by_name]: the table is emptied
    first, so nothing an earlier run left in it survives, and each entry is
    written under [str(model)] of a model of the dictionary. *)
Theorem cell10_table_keys (data : dataset) (td : TxtCorpus)
    (mbn : list (pystr * Model)) (w : World) (k : pystr) :
  is_Some (accuracies (cell10 data td mbn w).2 !! k) →
  ∃ name m, (name, m) ∈ mbn ∧ k = str_model m.
Proof.
  unfold cell10. erewrite bind_run; [|reflexivity].
  match goal with |- context [(?rest ?u ?w0).2] =>
    assert (H : stable (keys_from mbn.*2) (rest u))
  end.
  { apply stable_bind; [apply _ | | intros _].
    - apply train_loop_keys. intros [name m] Hin.
      apply list_elem_of_fmap. by exists (name, m).
    - apply stable_lift_bind; [apply _|]. intros c1 H1.
      apply stable_lift_bind; [apply _|]. intros c2 H2.
      apply odict_get_elem in H1, H2.
      apply concat_loop_keys. intros m Hm.
      apply list_elem_of_fmap.
      repeat (apply elem_of_cons in Hm as [-> | Hm]);
        [by eexists (_, _).. | by apply elem_of_nil in Hm]. }
  intros Hk. destruct (H _ k Hk) as [Hold | (m & Hm & ->)].
  - simpl in Hold. rewrite lookup_empty in Hold. by destruct Hold.
  - apply list_elem_of_fmap in Hm as ([name m'] & -> & Hin). by exists name, m'.
Qed.

End PipelineMore.

(** ** The further properties on the small library *)

Lemma readable_b_spec ds ps : readable_b ds ps = true → readable ds ps.
Proof.
  unfold readable_b. rewrite forallb_forall. intros H p Hp.
  apply list_elem_of_In in Hp. specialize (H p Hp).
  destruct (ds !! p) as [lines|]; [|discriminate].
  exists lines. split; [done|]. intros line Hl.
  rewrite forallb_forall in H. apply list_elem_of_In in Hl. specialize (H line Hl).
  unfold decodable in H. destruct (Utf8.decode (text line)) as [t|]; [|discriminate].
  by exists t.
Qed.

Lemma toy_reviews_pass :
  @TxtCorpus_iter Toy.library
    (TxtCorpus_init Toy.imdb [py "train"; py "unsupervised"]) (Toy.boot None)
  = (Ok ToyMore.reviews,
     (@TxtCorpus_iter Toy.library
        (TxtCorpus_init Toy.imdb [py "train"; py "unsupervised"]) (Toy.boot None)).2).
Proof. apply run_Ok_eq. vm_compute. reflexivity. Qed.

Lemma toy_seen_tags :
  (snd <$> filter (fun p => p.1 = 1%nat) (Toy.seen (lib Toy.vocab_built)))
  = ToyMore.reviews ≫= tags.
Proof. vm_compute. reflexivity. Qed.

(** A listed part that the dataset does not have. *)
Lemma TxtCorpus_iter_missing_part_witness :
  ∃ docs w1,
    TxtCorpus_iter (TxtCorpus_init Toy.imdb [py "train"]) (Toy.boot None)
    = (Ok docs, w1)
    ∧ TxtCorpus_iter
        (TxtCorpus_init Toy.imdb ([py "train"] ++ py "validation" :: [py "test"]))
        (Toy.boot None)
      = (Raise (KeyError (py "validation")), w1).
Proof.
  apply (TxtCorpus_iter_missing_part (L := Toy.library)).
  - apply readable_b_spec. vm_compute. reflexivity.
  - vm_compute. reflexivity.
Defined.

(** A text that does not decode, after one that does. *)
Lemma TxtCorpus_iter_undecodable_witness :
  ∃ docs w1,
    TxtCorpus_iter (TxtCorpus_init ToyMore.broken []) (Toy.boot None)
    = (Ok docs, w1)
    ∧ TxtCorpus_iter (TxtCorpus_init ToyMore.broken ([] ++ py "train" :: []))
        (Toy.boot None)
      = (Raise UnicodeDecodeError,
         emit (progress_from (py "train") 0 (length [ToyMore.good_line])) w1).
Proof.
  apply (TxtCorpus_iter_undecodable (L := Toy.library) ToyMore.broken [] (py "train") []
           [ToyMore.good_line] ToyMore.bad_line [ToyMore.unread_line]).
  - apply readable_b_spec. vm_compute. reflexivity.
  - vm_compute. reflexivity.
  - intros l Hl. apply list_elem_of_singleton in Hl as ->.
    exists (py "fine <i>so</i> far"). vm_compute. reflexivity.
  - vm_compute. reflexivity.
Defined.

Lemma TxtCorpus_iter_progress_witness :
  (TxtCorpus_iter (TxtCorpus_init Toy.imdb default_parts) (Toy.boot None)).2
  = emit (progress Toy.imdb default_parts) (Toy.boot None)
  ∧ progress Toy.imdb default_parts
    = [progress_line (py "train") 0; progress_line (py "test") 0;
       progress_line (py "unsupervised") 0].
Proof.
  destruct (TxtCorpus_iter_progress (L := Toy.library) Toy.imdb default_parts
              (Toy.boot None) Toy.pass
              (@TxtCorpus_iter Toy.library
                 (TxtCorpus_init Toy.imdb default_parts) (Toy.boot None)).2)
    as [Hw Hp].
  - apply run_Ok_eq. vm_compute. reflexivity.
  - split; [exact Hw|]. apply Hp. intros p Hp'.
    unfold default_parts in Hp'.
    repeat (apply elem_of_cons in Hp' as [-> | Hp']);
      [split; [vm_compute; lia | vm_compute; discriminate]..|].
    by apply elem_of_nil in Hp'.
Defined.

(** The training vectors of the first model, whose vocabulary was built
    from the train and unsupervised parts. *)
Lemma load_from_model_covered_witness :
  ∃ X Y, load_from_model Toy.dbow Toy.imdb (py "train") Toy.vocab_built
         = (Ok (X, Y), Toy.vocab_built)
         ∧ length X = length (default [] (Toy.imdb !! py "train")).
Proof.
  apply (load_from_model_covered (L := Toy.library) Toy.dbow Toy.imdb
           [py "train"; py "unsupervised"] (py "train") (Toy.boot None)
           ToyMore.reviews _ Toy.vocab_built toy_reviews_pass).
  - apply (bool_decide_unpack _). vm_compute. exact I.
  - intros tag Hin.
    exists (match @docvecs_getitem Toy.library (lib Toy.vocab_built) Toy.dbow tag
            with Ok v => v | Raise _ => [] end).
    assert (Ht : tag ∈ [py "train-0"; py "train-1"; py "unsupervised-0"])
      by exact Hin.
    repeat (apply elem_of_cons in Ht as [-> | Ht]);
      [vm_compute; reflexivity..|]. by apply elem_of_nil in Ht.
Defined.

(** The test part, which the corpus of the notebook leaves out. *)
Lemma load_from_model_uncovered_witness :
  (∀ i, tag_of (py "test") i ∉ ToyMore.reviews ≫= tags)
  ∧ load_from_model Toy.dbow Toy.imdb (py "test") Toy.vocab_built
    = (Raise (KeyError (tag_of (py "test") 0)), Toy.vocab_built).
Proof.
  apply (load_from_model_uncovered (L := Toy.library) Toy.dbow Toy.imdb
           [py "train"; py "unsupervised"] (py "test") ToyMore.test_line []
           (Toy.boot None) ToyMore.reviews _ Toy.vocab_built toy_reviews_pass).
  - apply (bool_decide_unpack _). vm_compute. exact I.
  - vm_compute. reflexivity.
  - intros tag Hout.
    change (Toy.lookup_vec (lib Toy.vocab_built) Toy.dbow tag
            = Raise (KeyError tag)).
    unfold Toy.dbow, Toy.lookup_vec, Toy.knows.
    rewrite bool_decide_eq_false_2; [done|]. intros Hin. apply Hout.
    rewrite <- toy_seen_tags. apply list_elem_of_fmap.
    exists (1%nat, tag). split; [done|]. by apply list_elem_of_filter.
Defined.

(** Inference over the dataset whose second text does not decode: one call,
    then the exception. *)
Lemma infer_from_model_undecodable_witness :
  infer_from_model Toy.dbow ToyMore.broken (py "train") (Toy.boot None)
  = (Raise UnicodeDecodeError,
     {| lib := (ToyMore.after_one_call : @Lib Toy.library);
        trace := trace (Toy.boot None)
                 ++ inference_events Toy.dbow
                      (tokenize_text <$> [py "fine <i>so</i> far"]) [[1; 3; 0]%Z];
        accuracies := accuracies (Toy.boot None) |}).
Proof.
  apply (infer_from_model_undecodable (L := Toy.library) Toy.dbow ToyMore.broken (py "train")
           [ToyMore.good_line] ToyMore.bad_line [ToyMore.unread_line]).
  - vm_compute. reflexivity.
  - repeat constructor.
  - apply (infer_chain_cons (L := Toy.library) Toy.dbow _ _ _
             (ToyMore.after_one_call : @Lib Toy.library) [] []
             (ToyMore.after_one_call : @Lib Toy.library));
      [vm_compute; reflexivity | constructor].
  - vm_compute. reflexivity.
Defined.

(** The evaluation of the first model once its vocabulary is built. *)
Lemma train_lr_evaluate_trace_witness :
  ∃ toks X_train Y_train X_test Y_test lr clf t0 t1 lines,
    trace (train_lr_evaluate Toy.dbow Toy.imdb Toy.vocab_built).2
    = trace Toy.vocab_built
      ++ evaluation_events Toy.dbow toks X_train Y_train X_test Y_test
           lr clf t0 t1 14%Z
    ∧ load_from_model Toy.dbow Toy.imdb (py "train") Toy.vocab_built
      = (Ok (X_train, Y_train), Toy.vocab_built)
    ∧ Toy.imdb !! py "test" = Some lines
    ∧ length toks = length lines ∧ length X_test = length lines
    ∧ Y_test = label <$> lines
    ∧ ∀ j line, lines !! j = Some line →
        ∃ t, Utf8.decode (text line) = Ok t ∧ toks !! j = Some (tokenize_text t).
Proof.
  apply (train_lr_evaluate_trace (L := Toy.library) Toy.dbow Toy.imdb Toy.vocab_built 14%Z).
  apply run_Ok_eq. vm_compute. reflexivity.
Defined.

(** An empty dataset, and one that has only a training split. *)
Lemma train_lr_evaluate_missing_split_witness :
  train_lr_evaluate Toy.dbow ∅ (Toy.boot None)
  = (Raise (KeyError (py "train")),
     emit [EvWrite ((py "Evaluating " ++ str_model Toy.dbow) ++ [NL])]
          (Toy.boot None))
  ∧ train_lr_evaluate Toy.dbow ToyMore.train_only Toy.vocab_built
    = (Raise (KeyError (py "test")),
       emit [EvWrite ((py "Evaluating " ++ str_model Toy.dbow) ++ [NL]);
             EvWrite (py "Training data embeddings loaded." ++ [NL])]
            Toy.vocab_built).
Proof.
  split.
  - apply (proj1 (train_lr_evaluate_missing_split (L := Toy.library) Toy.dbow ∅ (Toy.boot None))).
    reflexivity.
  - apply (proj2 (train_lr_evaluate_missing_split (L := Toy.library) Toy.dbow ToyMore.train_only
                    Toy.vocab_built) eq_refl [[1; 7]]%Z [1]%Z).
    pose proof (run_Ok_eq (@load_from_model Toy.library Toy.dbow
                             ToyMore.train_only (py "train")) Toy.vocab_built
                          ([[1; 7]]%Z, [1]%Z)) as Hrun.
    rewrite Hrun; [|vm_compute; reflexivity].
    f_equal; eapply load_from_model_world; apply surjective_pairing.
Defined.

(** Cell 9 on the small dataset. *)
Lemma models_by_name_lookup_witness :
  ∃ n m0 m1 m2 c1 c2,
    step [PNew (dbow_kwargs n) m0; PNew (dmm_kwargs n) m1;
          PNew (dmc_kwargs n) m2; PVocab m0; PVocab m1; PVocab m2;
          PConcat [m0; m1] c1; PConcat [m0; m2] c2]
         (Toy.boot None) (cell9 Toy.imdb (Toy.boot None)).2
    ∧ odict_get ToyMore.models_by_name (py "dbow+dmm") = Ok c1
    ∧ odict_get ToyMore.models_by_name (py "dbow+dmc") = Ok c2
    ∧ NoDup ToyMore.models_by_name.*1
    ∧ (∀ m, m ∈ [m0; m1; m2] → str_model m ∈ ToyMore.models_by_name.*1)
    ∧ (∀ name m, (name, m) ∈ ToyMore.models_by_name → m ∈ [m0; m1; m2; c1; c2]).
Proof.
  apply (models_by_name_lookup (L := Toy.library) Toy.imdb (Toy.boot None)
           (TxtCorpus_init Toy.imdb [py "train"; py "unsupervised"])
           ToyMore.models_by_name).
  apply run_Ok_eq. vm_compute. reflexivity.
Defined.

(** Cell 10 on the small dataset: the entry of the first model. *)
Lemma cell10_table_keys_witness :
  ∃ name m, (name, m) ∈ ToyMore.models_by_name
            ∧ @str_model Toy.library Toy.dbow = str_model m.
Proof.
  apply (cell10_table_keys (L := Toy.library) Toy.imdb
           (TxtCorpus_init Toy.imdb [py "train"; py "unsupervised"])
           ToyMore.models_by_name Toy.vocab_built
           (@str_model Toy.library Toy.dbow)).
  exists (default 0%Z
            (accuracies
               (@cell10 Toy.library Toy.imdb
                  (TxtCorpus_init Toy.imdb [py "train"; py "unsupervised"])
                  ToyMore.models_by_name Toy.vocab_built).2
             !! @str_model Toy.library Toy.dbow)).
  vm_compute. reflexivity.
Defined.

(** ** The parallelism parameters *)

Section ParallelismParameters.
Context {L : Library}.

Lemma phase_new_event δ kw m :
  PNew kw m ∈ phases δ → EvCall (CDoc2Vec kw) (Ok (RModel m)) ∈ δ.
Proof.
  unfold phases. rewrite list_elem_of_omap. intros (e & He & Hp).
  destruct e as [s|c r]; [done|].
  destruct c, r as [[]|]; simpl in Hp; try discriminate.
  injection Hp as -> ->. done.
Qed.

Lemma step_trace ps w w' : step ps w w' → ∃ δ, trace w' = trace w ++ δ.
Proof. intros [(δ & H & _) _]. by exists δ. Qed.

Lemma late_run {A} (m : M A) w r w' :
  stable (extends late_event) m → m w = (r, w') → ∃ δ, trace w' = trace w ++ δ.
Proof.
  intros Hm H. destruct (Hm w) as (δ & Hδ & _). rewrite H in Hδ. by exists δ.
Qed.

(** A completed evaluation has made its grid search. *)
Lemma train_lr_evaluate_searches m data w s w' :
  train_lr_evaluate m data w = (Ok s, w') →
  ∃ δ lr clf,
    trace w' = trace w ++ δ
    ∧ EvCall (CGridSearchCV lr hyperparameters evaluation_kwargs)
             (Ok (RSearch clf)) ∈ δ.
Proof.
  intros H.
  destruct (late_run _ _ _ _ (train_lr_evaluate_late m data) H) as (δ & Hδ).
  unfold train_lr_evaluate, time_, print_noend, print in H.
  apply bind_Ok in H as (u1 & w1 & H1 & H).
  apply bind_Ok in H as ([Xtr Ytr] & w2 & H2 & H).
  pose proof (load_from_model_world _ _ _ _ _ _ H2) as ->.
  apply bind_Ok in H as (u3 & w3 & H3 & H).
  apply bind_Ok in H as ([Xte Yte] & w4 & H4 & H).
  apply bind_Ok in H as (u5 & w5 & H5 & H).
  apply bind_Ok in H as (lr & w6 & H6 & H).
  apply bind_Ok in H as (clf & w7 & H7 & H).
  apply write_step, step_trace in H1 as (d1 & T1).
  apply write_step, step_trace in H3 as (d3 & T3).
  apply infer_from_model_step, step_trace in H4 as (d4 & T4).
  apply write_step, step_trace in H5 as (d5 & T5).
  apply invoke_step, step_trace in H6 as (d6 & T6).
  apply invoke_inv in H7 as (l7 & _ & _ & _ & T7). simpl in T7.
  match type of H with ?rest w7 = _ =>
    assert (Hrest : stable (extends late_event) rest)
      by stable_with ltac:(fail)
  end.
  apply (late_run _ _ _ _ Hrest) in H as (d8 & T8).
  exists δ, lr, clf. split; [done|].
  assert (Heq : δ = d1 ++ d3 ++ d4 ++ d5 ++ d6
                    ++ [EvCall (CGridSearchCV lr hyperparameters evaluation_kwargs)
                               (Ok (RSearch clf))] ++ d8).
  { apply (app_inv_head (trace w)).
    rewrite <- Hδ, T8, T7, T6, T5, T4, T3, T1, <- !app_assoc. done. }
  rewrite Heq, !elem_of_app. do 5 right. left. by left.
Qed.

(** A completed cell 10 has made a grid search. *)
Lemma cell10_searches data td mbn w u w' :
  cell10 data td mbn w = (Ok u, w') →
  ∃ δ lr clf,
    trace w' = trace w ++ δ
    ∧ EvCall (CGridSearchCV lr hyperparameters evaluation_kwargs)
             (Ok (RSearch clf)) ∈ δ.
Proof.
  unfold cell10. intros H.
  apply bind_Ok in H as (u0 & wa & Hr & H). injection Hr as _ <-.
  apply bind_Ok in H as (u1 & wb & Ht & H).
  apply (late_run _ _ _ _ (train_loop_late _ _ _)) in Ht as (δt & Ht).
  simpl in Ht.
  apply bind_Ok in H as (c1 & w1 & H1 & H). apply lift_inv in H1 as [_ ->].
  apply bind_Ok in H as (c2 & w1 & H2 & H). apply lift_inv in H2 as [_ ->].
  simpl in H. apply bind_Ok in H as (s & wc & He & H).
  apply train_lr_evaluate_searches in He as (δe & lr & clf & He & Hin).
  match type of H with ?rest wc = _ =>
    assert (Hrest : stable (extends late_event) rest)
      by (unfold print; stable_with ltac:(apply train_lr_evaluate_late))
  end.
  apply (late_run _ _ _ _ Hrest) in H as (δr & Hr).
  exists (δt ++ δe ++ δr), lr, clf. split.
  - rewrite Hr, He, Ht, <- !app_assoc. done.
  - rewrite !elem_of_app. right. by left.
Qed.

(** X17.  The parallelism parameters the notebook hands to the libraries.
    In every run, complete or not, every grid search is given [n_jobs=4]
    and every Doc2Vec is given, as [workers], the number that [cpu_count()]
    returned.  In a completed run these calls have really been made:
    [cpu_count()] returned some [n], the three Doc2Vec models were created
    with their keyword arguments, each with [workers=n], and a grid search
    was created with [cv=5, verbose=2, n_jobs=4]. *)
Theorem parallelism_parameters :
  (∀ w, ∃ δ, trace (notebook w).2 = trace w ++ δ ∧ workers_passed δ)
  ∧ (∀ w w', notebook w = (Ok tt, w') →
       ∃ δ n m0 m1 m2 lr clf,
         trace w' = trace w ++ δ
         ∧ EvCall CCpuCount (Ok (RInt n)) ∈ δ
         ∧ EvCall (CDoc2Vec (dbow_kwargs n)) (Ok (RModel m0)) ∈ δ
         ∧ EvCall (CDoc2Vec (dmm_kwargs n)) (Ok (RModel m1)) ∈ δ
         ∧ EvCall (CDoc2Vec (dmc_kwargs n)) (Ok (RModel m2)) ∈ δ
         ∧ Forall (fun kw => kwarg (py "workers") kw = Some (VInt (Z.of_nat n)))
                  [dbow_kwargs n; dmm_kwargs n; dmc_kwargs n]
         ∧ EvCall (CGridSearchCV lr hyperparameters evaluation_kwargs)
                  (Ok (RSearch clf)) ∈ δ
         ∧ kwarg (py "n_jobs") evaluation_kwargs = Some (VInt 4)).
Proof.
  split; [apply notebook_workers_passed|]. intros w w' H.
  destruct (notebook_workers_passed w) as (δ & Hδ & _ & Hworkers).
  rewrite H in Hδ. simpl in Hδ. unfold notebook in H.
  apply bind_Ok in H as (data & w1 & H1 & H).
  apply invoke_step, step_trace in H1 as (δ1 & T1).
  apply bind_Ok in H as ([td mbn] & w2 & H9 & H).
  apply cell9_Ok in H9 as (n & m0 & m1 & m2 & c1 & c2 & _ & _ & [(δ9 & T9 & P9) _]).
  apply bind_Ok in H as ([] & w3 & H10 & H11).
  apply cell10_searches in H10 as (δ10 & lr & clf & T10 & Hsearch).
  apply cell11_Ok, step_trace in H11 as (δ11 & T11).
  assert (Heq : δ = δ1 ++ δ9 ++ δ10 ++ δ11).
  { apply (app_inv_head (trace w)).
    rewrite <- Hδ, T11, T10, T9, T1, <- !app_assoc. done. }
  assert (Hnew : ∀ kw m, PNew kw m ∈ phases δ9 →
                   EvCall (CDoc2Vec kw) (Ok (RModel m)) ∈ δ).
  { intros kw m Hin. apply phase_new_event in Hin.
    rewrite Heq, !elem_of_app. right. by left. }
  rewrite P9 in Hnew.
  assert (H0 : EvCall (CDoc2Vec (dbow_kwargs n)) (Ok (RModel m0)) ∈ δ)
    by (apply Hnew; left).
  destruct (Hworkers _ _ H0) as (n' & Hcount & Hkw).
  assert (n' = n) as ->.
  { change (Some (VInt (Z.of_nat n)) = Some (VInt (Z.of_nat n'))) in Hkw.
    injection Hkw as Hkw. by apply Nat2Z.inj in Hkw. }
  exists δ, n, m0, m1, m2, lr, clf.
  split; [done|]. split; [done|]. split; [done|].
  split; [apply Hnew; right; left|]. split; [apply Hnew; right; right; left|].
  split; [repeat constructor|]. split; [|reflexivity].
  rewrite Heq, !elem_of_app. right. right. by left.
Qed.

End ParallelismParameters.

(** The full run against the small library. *)
Lemma parallelism_parameters_witness :
  ∃ δ n m0 m1 m2 lr clf,
    trace ToyRun.final = trace (Toy.boot None) ++ δ
    ∧ EvCall CCpuCount (Ok (RInt n)) ∈ δ
    ∧ EvCall (CDoc2Vec (dbow_kwargs n)) (Ok (RModel m0)) ∈ δ
    ∧ EvCall (CDoc2Vec (dmm_kwargs n)) (Ok (RModel m1)) ∈ δ
    ∧ EvCall (CDoc2Vec (dmc_kwargs n)) (Ok (RModel m2)) ∈ δ
    ∧ Forall (fun kw => kwarg (py "workers") kw = Some (VInt (Z.of_nat n)))
             [dbow_kwargs n; dmm_kwargs n; dmc_kwargs n]
    ∧ EvCall (CGridSearchCV lr hyperparameters evaluation_kwargs)
             (Ok (RSearch clf)) ∈ δ
    ∧ kwarg (py "n_jobs") evaluation_kwargs = Some (VInt 4).
Proof.
  exact (proj2 (parallelism_parameters (L := Toy.library)) _ _ toy_completes).
Defined.

(** C2, as stated, fails when a part is listed twice: the pass over the
    parts [test], [test] of the small dataset returns normally, and its two
    documents both carry the tag [test-0]. *)
Lemma tags_unique_counterexample :
  ∃ d0 d1,
    (@TxtCorpus_iter Toy.library
       (TxtCorpus_init Toy.imdb [py "test"; py "test"]) (Toy.boot None)).1
    = Ok [d0; d1]
    ∧ tags d0 = [py "test-0"] ∧ tags d1 = [py "test-0"]
    ∧ ¬ NoDup ([d0; d1] ≫= tags).
Proof.
  exists {| words := [py "Not"; py "bad"]; tags := [py "test-0"] |},
         {| words := [py "Not"; py "bad"]; tags := [py "test-0"] |}.
  split; [vm_compute; reflexivity|]. split; [done|]. split; [done|].
  intros H. apply NoDup_cons in H as [H _]. apply H. left.
Qed.
